(** * A shallow embedding of the BBO tick cache and its broadcast dispatcher

    Sources embedded here:
    - [src/cache/bbo_cache.py]      (class [BBOCache])
    - [src/cache/cache_manager.py]  (class [CacheManager])
    - [src/cache/rest_api.py]       (the part of [BBOHistoryAPI.get_updates] that touches records)
    - [src/message_processor.py]    (what [MessageProcessor] computes for a message)
    - [src/web/message_queue.py]    (class [MessageQueueProcessor])

    Conventions.
    - Times are integer milliseconds ([Z]); every reading of the wall clock
      ([current_time_ms()]) is an explicit argument.
    - A BBO update is a Python dict with a fixed vocabulary of keys; it is a
      record of optional fields, [None] meaning that the key is absent.  Keys
      that are present hold values of their documented type: timestamps are
      integers; a price or a quantity is carried as the text [str] prints for
      it, a string as it is and a float (in the dicts of [_handle_bbo_data])
      in the form Python prints it, and is never inspected except by the
      queue processor, which applies [str].  The two latency keys may hold
      Python's [None], hence their
      type [option (option Z)].  For [exchange_time] a key holding [None] and
      a missing key are not told apart: the code that reads it treats both
      alike ([add_update] reads it only when [timestamp] is missing, which is
      never the case for the dicts of [_process_bbo_update]).
    - Dict objects live in a store and are passed around by reference
      ([loc]), as in Python: the cache keeps the caller's object and hands
      out the same object.  A reference that is not bound in the store stands
      for an argument that is not a dict.
    - [defaultdict]s and plain dicts keyed by symbol are [gmap string _],
      a missing key of a [defaultdict] reading as the empty list.
    - An exception is an [outcome] next to the state reached when it was
      raised.
    - Persistence to disk is switched off (the default), so the file system
      plays no role; the clean-up thread and the dispatcher loop are taken one
      call, respectively one turn, at a time. *)

From Stdlib Require Import ZArith Lia Sorted Ascii.
From stdpp Require Import base option list sorting gmap strings fin_maps.

Open Scope Z_scope.

(** ** Python helpers *)

Module Py.

(** [l[i:]] for an arbitrary integer [i] (negative indices count from the end,
    out-of-range ones are clamped). *)
Definition slice_start (len : nat) (i : Z) : nat :=
  if i <? 0 then Z.to_nat (Z.max 0 (Z.of_nat len + i))
  else Z.to_nat (Z.min i (Z.of_nat len)).

Definition slice_from {A} (l : list A) (i : Z) : list A :=
  drop (slice_start (length l) i) l.

(** [l[a:b]] for indices [0 <= a, b <= len(l)]. *)
Definition slice {A} (l : list A) (a b : nat) : list A :=
  take (b - a)%nat (drop a l).

(** [list.insert(idx, x)] for [0 <= idx]. *)
Definition insert_at {A} (idx : nat) (x : A) (l : list A) : list A :=
  take idx l ++ x :: drop idx l.

(** [a[i]] on a list of integers; the default is never read in range. *)
Definition item (a : list Z) (i : nat) : Z := nth i a 0.

(** The loop of [bisect.bisect_left]:
    [while lo < hi: mid = (lo + hi) // 2;
       if a[mid] < x: lo = mid + 1 else: hi = mid]. *)
Fixpoint bisect_left_loop (fuel : nat) (a : list Z) (x : Z) (lo hi : nat) : nat :=
  match fuel with
  | O => lo
  | S fuel' =>
      if (lo <? hi)%nat then
        let mid := ((lo + hi) / 2)%nat in
        if item a mid <? x then bisect_left_loop fuel' a x (S mid) hi
        else bisect_left_loop fuel' a x lo mid
      else lo
  end.

Definition bisect_left (a : list Z) (x : Z) : nat :=
  bisect_left_loop (length a) a x 0 (length a).

(** The loop of [bisect.bisect_right]:
    [while lo < hi: mid = (lo + hi) // 2;
       if x < a[mid]: hi = mid else: lo = mid + 1]. *)
Fixpoint bisect_right_loop (fuel : nat) (a : list Z) (x : Z) (lo hi : nat) : nat :=
  match fuel with
  | O => lo
  | S fuel' =>
      if (lo <? hi)%nat then
        let mid := ((lo + hi) / 2)%nat in
        if x <? item a mid then bisect_right_loop fuel' a x lo mid
        else bisect_right_loop fuel' a x (S mid) hi
      else lo
  end.

Definition bisect_right (a : list Z) (x : Z) : nat :=
  bisect_right_loop (length a) a x 0 (length a).

(** How a call ends. *)
Inductive outcome :=
  | Returned
  | Raised (exn : string).

(** What evaluating an expression gives: its value, or the exception raised. *)
Inductive raising (A : Type) : Type :=
  | Value (v : A)
  | Raises (exn : string).
Global Arguments Value {A} v.
Global Arguments Raises {A} exn.

End Py.

Export Py.

(** ** The data model *)

(** References to dict objects. *)
Definition loc := nat.

(** A BBO update dict ([bbo_update] in the sources). *)
Record bbo_dict := BBO {
  symbol : option string;
  timestamp : option Z;
  exchange_time : option Z;
  received_timestamp : option Z;
  bidPrice : option string;
  bidQty : option string;
  askPrice : option string;
  askQty : option string;
  bid_price : option string;
  bid_qty : option string;
  ask_price : option string;
  ask_qty : option string;
  backendLatency : option (option Z);
  latency : option (option Z);
  timestamp_formatted : option string
}.

(** [d['timestamp'] = t] *)
Definition set_timestamp (t : Z) (d : bbo_dict) : bbo_dict :=
  BBO (symbol d) (Some t) (exchange_time d) (received_timestamp d)
      (bidPrice d) (bidQty d) (askPrice d) (askQty d)
      (bid_price d) (bid_qty d) (ask_price d) (ask_qty d)
      (backendLatency d) (latency d) (timestamp_formatted d).

(** [d['timestamp_formatted'] = s] *)
Definition set_timestamp_formatted (s : string) (d : bbo_dict) : bbo_dict :=
  BBO (symbol d) (timestamp d) (exchange_time d) (received_timestamp d)
      (bidPrice d) (bidQty d) (askPrice d) (askQty d)
      (bid_price d) (bid_qty d) (ask_price d) (ask_qty d)
      (backendLatency d) (latency d) (Some s).

(** [if snake_case in d and camel_case not in d: d[camel_case] = d[snake_case]] *)
Definition fill (camel snake : option string) : option string :=
  match camel with
  | Some v => Some v
  | None => snake
  end.

(** The loop over [field_mappings] in [add_update]. *)
Definition convert_fields (d : bbo_dict) : bbo_dict :=
  BBO (symbol d) (timestamp d) (exchange_time d) (received_timestamp d)
      (fill (bidPrice d) (bid_price d)) (fill (bidQty d) (bid_qty d))
      (fill (askPrice d) (ask_price d)) (fill (askQty d) (ask_qty d))
      (bid_price d) (bid_qty d) (ask_price d) (ask_qty d)
      (backendLatency d) (latency d) (timestamp_formatted d).

(** [missing_fields] is empty. *)
Definition has_required_fields (d : bbo_dict) : bool :=
  bool_decide (is_Some (bidPrice d)) && bool_decide (is_Some (bidQty d)) &&
  bool_decide (is_Some (askPrice d)) && bool_decide (is_Some (askQty d)).

(** [record['timestamp']] read through a reference. *)
Definition record_timestamp (σ : gmap loc bbo_dict) (l : loc) : option Z :=
  σ !! l ≫= timestamp.

(** ** [BBOCache] *)

Record BBOCache := Cache {
  _updates : gmap string (list loc);
  _timestamps : gmap string (list Z);
  _latency_stats : gmap string (list (Z * option Z));
  _max_items : Z;
  _insert_count : Z
}.

(** [BBOCache.__init__] *)
Definition BBOCache_init (max_items_per_symbol : Z) : BBOCache :=
  Cache ∅ ∅ ∅ max_items_per_symbol 0.

(** Reading a [defaultdict(list)] / [defaultdict(deque)] at a key. *)
Definition series {A} (m : gmap string (list A)) (s : string) : list A :=
  default [] (m !! s).

(** The timestamp fallback chain of [add_update]. *)
Definition resolve_timestamp (now : Z) (d : bbo_dict) : Z :=
  match timestamp d with
  | Some t => t
  | None =>
      match exchange_time d with
      | Some e => e
      | None =>
          match received_timestamp d with
          | Some r => r
          | None => now
          end
      end
  end.

(** [self._latency_stats[symbol].append((timestamp, latency))] followed by the trim. *)
Definition append_latency (sym : string) (ts : Z) (lat : option Z) (c : BBOCache) : BBOCache :=
  let stats := series (_latency_stats c) sym ++ [(ts, lat)] in
  let stats := if Z.of_nat (length stats) >? _max_items c then tail stats else stats in
  Cache (_updates c) (_timestamps c) (<[sym := stats]> (_latency_stats c))
        (_max_items c) (_insert_count c).

(** The "store latency data if available" part of [add_update]. *)
Definition store_latency (sym : string) (ts : Z) (d : bbo_dict) (c : BBOCache) : BBOCache :=
  match backendLatency d with
  | Some lat => append_latency sym ts lat c
  | None =>
      match latency d with
      | Some (Some lat) => append_latency sym ts (Some lat) c
      | _ => c
      end
  end.

(** [self._updates[symbol]] and [self._timestamps[symbol]] after an in-place
    change of the two sequences. *)
Definition set_series (sym : string) (ups : list loc) (tss : list Z) (c : BBOCache) : BBOCache :=
  Cache (<[sym := ups]> (_updates c)) (<[sym := tss]> (_timestamps c))
        (_latency_stats c) (_max_items c) (_insert_count c).

(** [_insert_update], "ensure the symbol exists in the maps". *)
Definition ensure_symbol (sym : string) (c : BBOCache) : BBOCache :=
  match _updates c !! sym with
  | Some _ => c
  | None => set_series sym [] [] c
  end.

(** [_insert_update], "if we've reached the max items, remove the oldest":
    [popleft()] and [pop(0)] raise [IndexError] on an empty sequence. *)
Definition evict_oldest (sym : string) (c : BBOCache) : BBOCache * outcome :=
  let ups := series (_updates c) sym in
  let tss := series (_timestamps c) sym in
  if Z.of_nat (length ups) >=? _max_items c then
    match ups, tss with
    | [], _ => (c, Raised "IndexError")
    | _ :: ups', [] => (set_series sym ups' [] c, Raised "IndexError")
    | _ :: ups', _ :: tss' => (set_series sym ups' tss' c, Returned)
    end
  else (c, Returned).

(** [_insert_update], the append or the insertion at the position found by
    binary search. *)
Definition place (sym : string) (ts : Z) (bbo_update : loc) (c : BBOCache) : BBOCache :=
  let ups := series (_updates c) sym in
  let tss := series (_timestamps c) sym in
  let at_end :=
    match last tss with
    | Some t_last => ts >=? t_last
    | None => true
    end in
  if at_end then set_series sym (ups ++ [bbo_update]) (tss ++ [ts]) c
  else
    let idx := bisect_left tss ts in
    set_series sym (insert_at idx bbo_update ups) (insert_at idx ts tss) c.

(** [BBOCache._insert_update] *)
Definition _insert_update (sym : string) (ts : Z) (bbo_update : loc) (c : BBOCache)
  : BBOCache * outcome :=
  match evict_oldest sym (ensure_symbol sym c) with
  | (c, Returned) => (place sym ts bbo_update c, Returned)
  | (c, Raised e) => (c, Raised e)
  end.

(** [BBOCache.add_update]; [now] is the clock reading of the fallback. *)
Definition add_update (now : Z) (bbo_update : loc) (σ : gmap loc bbo_dict) (c : BBOCache)
  : gmap loc bbo_dict * BBOCache * outcome :=
  match σ !! bbo_update with
  | None => (σ, c, Returned)
  | Some d =>
      match symbol d with
      | None => (σ, c, Returned)
      | Some sym =>
          let ts := resolve_timestamp now d in
          let d := convert_fields (set_timestamp ts d) in
          let σ := <[bbo_update := d]> σ in
          if has_required_fields d then
            let c := store_latency sym ts d c in
            match _insert_update sym ts bbo_update c with
            | (c, Returned) =>
                (σ, Cache (_updates c) (_timestamps c) (_latency_stats c)
                          (_max_items c) (_insert_count c + 1), Returned)
            | (c, Raised e) => (σ, c, Raised e)
            end
          else (σ, c, Returned)
      end
  end.

(** [BBOCache.get_updates] *)
Definition get_updates (c : BBOCache) (sym : string)
    (start_time end_time limit : option Z) : list loc :=
  match _updates c !! sym with
  | None => []
  | Some ups =>
      match start_time, end_time with
      | None, None =>
          match limit with
          | None => ups
          | Some n => slice_from ups (- n)
          end
      | _, _ =>
          let tss := series (_timestamps c) sym in
          let start_idx :=
            match start_time with
            | Some s => bisect_left tss s
            | None => 0%nat
            end in
          let end_idx :=
            match end_time with
            | Some e => bisect_right tss e
            | None => length tss
            end in
          let result := slice ups start_idx end_idx in
          match limit with
          | Some n =>
              if Z.of_nat (length result) >? n then slice_from result (- n) else result
          | None => result
          end
      end
  end.

(** A sequence of [add_update] calls, each with its own clock reading; a call
    that raises does not stop the caller's later calls. *)
Definition add_updates (calls : list (Z * loc)) (σ : gmap loc bbo_dict) (c : BBOCache)
  : gmap loc bbo_dict * BBOCache :=
  foldl (λ st call, (add_update call.1 call.2 st.1 st.2).1) (σ, c) calls.

(** [BBOCache.clear_old_data], the body of the loop for one symbol. *)
Definition clear_symbol (cutoff_time : Z) (sym : string) (c : BBOCache) : BBOCache :=
  let tss := series (_timestamps c) sym in
  match tss with
  | [] => c
  | _ :: _ =>
      let idx := bisect_left tss cutoff_time in
      if (0 <? idx)%nat then
        Cache (<[sym := drop idx (series (_updates c) sym)]> (_updates c))
              (<[sym := drop idx tss]> (_timestamps c))
              (match _latency_stats c !! sym with
               | Some stats =>
                   <[sym := filter (λ e, cutoff_time <= e.1) stats]> (_latency_stats c)
               | None => _latency_stats c
               end)
              (_max_items c) (_insert_count c)
      else c
  end.

(** [BBOCache.clear_old_data]; [now] is its clock reading. *)
Definition clear_old_data (now max_age_ms : Z) (c : BBOCache) : BBOCache :=
  let cutoff_time := now - max_age_ms in
  foldl (λ c sym, clear_symbol cutoff_time sym c) c (elements (dom (_updates c))).

(** [get_cache_stats()["updates_per_symbol"][sym]] and ["total_updates"]. *)
Definition updates_per_symbol (c : BBOCache) (sym : string) : nat :=
  length (series (_updates c) sym).

Definition total_updates (c : BBOCache) : nat :=
  map_fold (λ _ ups n, (length ups + n)%nat) 0%nat (_updates c).

(** ** [CacheManager] *)

Record CacheManager := Manager {
  cache : BBOCache;
  running : bool
}.

(** [CacheManager.__init__] *)
Definition CacheManager_init (max_items_per_symbol : Z) : CacheManager :=
  Manager (BBOCache_init max_items_per_symbol) false.

(** [CacheManager.start]: with persistence off nothing is loaded; the cleanup
    thread it spawns is a separate activity. *)
Definition start (m : CacheManager) : CacheManager :=
  if running m then m else Manager (cache m) true.

(** [CacheManager.contains_update] *)
Definition contains_update (σ : gmap loc bbo_dict) (m : CacheManager) (bbo_update : loc) : bool :=
  match σ !! bbo_update with
  | None => false
  | Some d =>
      match symbol d, timestamp d with
      | Some sym, Some ts =>
          if bool_decide (sym = "") || (ts =? 0) then false
          else
            match _timestamps (cache m) !! sym with
            | None => false
            | Some [] => false
            | Some timestamps =>
                let idx := bisect_left timestamps ts in
                (idx <? length timestamps)%nat && (item timestamps idx =? ts)
            end
      | _, _ => false
      end
  end.

(** [CacheManager.process_bbo_update]; an exception of [add_update] is caught
    and logged. *)
Definition process_bbo_update (now : Z) (bbo_update : loc)
    (σ : gmap loc bbo_dict) (m : CacheManager) : gmap loc bbo_dict * CacheManager :=
  let m := if running m then m else start m in
  if contains_update σ m bbo_update then (σ, m)
  else
    let '(σ', c', _) := add_update now bbo_update σ (cache m) in
    (σ', Manager c' (running m)).

(** ** [BBOHistoryAPI.get_updates]

    The result is the store after the handler ran and the response it
    returns.  [datetime.fromtimestamp(...).strftime(...)] depends on the time
    zone of the host and raises for a timestamp outside the range of the
    platform; it is the parameter [format_timestamp]. *)

(** A query parameter the handler reads with [int]: missing (or, for
    [start_time] and [limit], empty, which the handler treats alike), a text
    [int] reads as [n], or a text on which [int] raises [ValueError].  An
    [end_time] given as the empty text is not described. *)
Inductive int_arg :=
  | Absent
  | Given (n : Z)
  | Malformed.

(** The responses of the handler: the body with status ["success"] and the
    fields of its [data], or an error with its HTTP status code. *)
Inductive response :=
  | Success (symbol : string) (start_time : Z) (end_time : option Z) (count : nat)
            (updates : list loc)
  | Failure (status_code : Z).

(** [update['timestamp_formatted'] = ...] on a dict with a [timestamp] that
    can be formatted; what the loop body leaves of a dict it completes on. *)
Definition with_timestamp_formatted (format_timestamp : Z → raising string) (d : bbo_dict)
  : bbo_dict :=
  match timestamp d with
  | Some t =>
      match format_timestamp t with
      | Value s => set_timestamp_formatted s d
      | Raises _ => d
      end
  | None => d
  end.

(** The body of [for update in updates]. *)
Definition format_update (format_timestamp : Z → raising string) (σ : gmap loc bbo_dict)
    (update : loc) : gmap loc bbo_dict * outcome :=
  match σ !! update with
  | Some d =>
      match timestamp d with
      | Some t =>
          match format_timestamp t with
          | Value s => (<[update := set_timestamp_formatted s d]> σ, Returned)
          | Raises e => (σ, Raised e)
          end
      | None => (σ, Returned)
      end
  | None => (σ, Returned)
  end.

(** The loop [for update in updates]; an exception leaves it. *)
Fixpoint format_updates (format_timestamp : Z → raising string) (σ : gmap loc bbo_dict)
    (updates : list loc) : gmap loc bbo_dict * outcome :=
  match updates with
  | [] => (σ, Returned)
  | update :: rest =>
      match format_update format_timestamp σ update with
      | (σ, Returned) => format_updates format_timestamp σ rest
      | (σ, Raised e) => (σ, Raised e)
      end
  end.

(** [int(...)] on a parameter that was given, the default otherwise. *)
Definition int_or {A} (default_value : A) (given : Z → A) (arg : int_arg) : raising A :=
  match arg with
  | Absent => Value default_value
  | Given n => Value (given n)
  | Malformed => Raises "ValueError"
  end.

(** [BBOHistoryAPI.get_updates]; [now] is the clock reading of the default
    start time.  Every exception ends in the handler's [except] clause. *)
Definition api_get_updates (format_timestamp : Z → raising string) (now : Z)
    (σ : gmap loc bbo_dict) (c : BBOCache) (symbol : option string)
    (start_time end_time limit : int_arg) : gmap loc bbo_dict * response :=
  match symbol with
  | None => (σ, Failure 400)
  | Some sym =>
      if bool_decide (sym = "") then (σ, Failure 400)
      else
        match int_or (now - 3600000) id start_time,
              int_or None Some end_time,
              int_or 10000000 id limit with
        | Value start_time, Value end_time, Value limit =>
            let updates := get_updates c sym (Some start_time) end_time (Some limit) in
            match format_updates format_timestamp σ updates with
            | (σ, Returned) =>
                (σ, Success sym start_time end_time (length updates) updates)
            | (σ, Raised _) => (σ, Failure 500)
            end
        | _, _, _ => (σ, Failure 500)
        end
  end.

(** ** [MessageProcessor] (src/message_processor.py) *)

(** A parsed Binance message ([data]): keys [s], [b], [B], [a], [A], [E], and
    the two keys [_process_bbo_update] writes into it. *)
Module Raw.
Record t := mk {
  s : option string;
  b : option string;
  B : option string;
  a : option string;
  A : option string;
  E : option Z;
  latency : option (option Z);
  received_timestamp : option Z
}.
End Raw.

(** [float(data[key])]: [KeyError] for a missing key, [ValueError] for a text
    that is not a number.  [float] is Python's conversion with its result
    written as [str] prints it, the form in which the dict fields carry a
    float (see the conventions); it answers [None] where Python raises. *)
Definition float_of_key (float : string → option string) (field : option string)
  : raising string :=
  match field with
  | None => Raises "KeyError"
  | Some text =>
      match float text with
      | Some x => Value x
      | None => Raises "ValueError"
      end
  end.

(** [MessageProcessor._handle_bbo_data]: the dict it puts on the queue, or the
    exception that [process_message] catches and logs, in which case nothing
    is queued.  The key [spread] is left out. *)
Definition _handle_bbo_data (float : string → option string) (self_symbol : string)
    (data : Raw.t) (received_timestamp : Z) : raising bbo_dict :=
  match float_of_key float (Raw.b data) with
  | Raises e => Raises e
  | Value bid_price =>
  match float_of_key float (Raw.B data) with
  | Raises e => Raises e
  | Value bid_qty =>
  match float_of_key float (Raw.a data) with
  | Raises e => Raises e
  | Value ask_price =>
  match float_of_key float (Raw.A data) with
  | Raises e => Raises e
  | Value ask_qty =>
      let '(exchange_time, latency_ms) :=
        match Raw.E data with
        | Some exchange_time =>
            let calculated_latency := received_timestamp - exchange_time in
            (exchange_time,
             if calculated_latency <? 10000 then Some calculated_latency else None)
        | None => (received_timestamp, None)
        end in
      Value (BBO (Some self_symbol) None (Some exchange_time) (Some received_timestamp)
                 None None None None
                 (Some bid_price) (Some bid_qty) (Some ask_price) (Some ask_qty)
                 None (Some latency_ms) None)
  end end end end.

(** [exchange_time] is truthy. *)
Definition truthy (t : option Z) : bool :=
  match t with
  | Some t => negb (t =? 0)
  | None => false
  end.

(** [MessageProcessor._process_bbo_update]: the [formatted_data] it returns
    (and hands, as one object, to the cache manager and to the queue). *)
Definition _process_bbo_update (self_symbol : string) (data : Raw.t) (received_timestamp : Z)
  : bbo_dict :=
  let exchange_time := Raw.E data in
  let data_latency :=
    if truthy exchange_time
    then Some (Some (received_timestamp - default 0 exchange_time))
    else Raw.latency data in
  let bid_price := default "0" (Raw.b data) in
  let bid_qty := default "0" (Raw.B data) in
  let ask_price := default "0" (Raw.a data) in
  let ask_qty := default "0" (Raw.A data) in
  BBO (Some (default self_symbol (Raw.s data)))
      (Some (if truthy exchange_time then default 0 exchange_time else received_timestamp))
      exchange_time (Some received_timestamp)
      (Some bid_price) (Some bid_qty) (Some ask_price) (Some ask_qty)
      (Some bid_price) (Some bid_qty) (Some ask_price) (Some ask_qty)
      None (Some (mjoin data_latency)) None.

(** ** [MessageQueueProcessor] (src/web/message_queue.py) *)

(** The dict sent to the clients ([formatted_data]). *)
Module Wire.
Record t := mk {
  symbol : string;
  bidPrice : string;
  bidQty : string;
  askPrice : string;
  askQty : string;
  timestamp : Z;
  serverTimestamp : Z;
  backendLatency : option Z
}.
End Wire.

(** What producers put on the queue: a pair (its second component [None] when
    it is not a dict), a dict of the processed vocabulary, a dict in Binance's
    raw format, or anything else. *)
Inductive message :=
  | MTuple (event_type : string) (data : option bbo_dict)
  | MDict (d : bbo_dict)
  | MRaw (r : Raw.t)
  | MOther.

Inductive payload :=
  | Formatted (w : Wire.t)
  | Preformatted (d : bbo_dict).

Record MessageQueueProcessor := MQP {
  message_queue : list message;
  unfinished_tasks : Z;
  last_message_time : Z;
  throttle_interval : Z;
  throttled_message : option Wire.t;
  latest_data : option payload
}.

(** [MessageQueueProcessor.__init__]; [latest_data = {}] reads as [None]. *)
Definition MessageQueueProcessor_init : MessageQueueProcessor :=
  MQP [] 0 0 100 None None.

(** [MessageQueueProcessor.broadcast_message] *)
Definition broadcast_message (data : message) (q : MessageQueueProcessor)
  : MessageQueueProcessor :=
  MQP (message_queue q ++ [data]) (unfinished_tasks q + 1) (last_message_time q)
      (throttle_interval q) (throttled_message q) (latest_data q).


(** The latency both dict branches compute from an event time. *)
Definition calculated_backend_latency (exchange_time received_time : Z) : option Z :=
  let calculated_latency := received_time - exchange_time in
  if calculated_latency <? 10000 then Some calculated_latency else None.

(** The branch "this is from our MessageProcessor". *)
Definition format_processed (process_time : Z) (d : bbo_dict) : Wire.t :=
  let backendLatency :=
    match latency d with
    | Some (Some l) => Some l
    | _ =>
        match exchange_time d with
        | Some exchange_time =>
            calculated_backend_latency exchange_time
              (default process_time (received_timestamp d))
        | None => None
        end
    end in
  Wire.mk (default "UNKNOWN" (symbol d))
          (default "0.00" (bid_price d)) (default "0.0000" (bid_qty d))
          (default "0.00" (ask_price d)) (default "0.0000" (ask_qty d))
          (default process_time (exchange_time d)) process_time backendLatency.

(** The branch "this is raw Binance format". *)
Definition format_raw (process_time : Z) (r : Raw.t) : Wire.t :=
  let backendLatency :=
    match Raw.E r with
    | Some exchange_time =>
        calculated_backend_latency exchange_time
          (default process_time (Raw.received_timestamp r))
    | None => None
    end in
  Wire.mk (default "UNKNOWN" (Raw.s r))
          (default "0.00" (Raw.b r)) (default "0.0000" (Raw.B r))
          (default "0.00" (Raw.a r)) (default "0.0000" (Raw.A r))
          (default process_time (Raw.E r)) process_time backendLatency.

(** A dict of the processed vocabulary without [bid_price] or [ask_price] goes
    through the raw branch, where it has none of the raw keys. *)
Definition format_dict (process_time : Z) (d : bbo_dict) : Wire.t :=
  match bid_price d, ask_price d with
  | Some _, Some _ => format_processed process_time d
  | _, _ =>
      format_raw process_time
        (Raw.mk None None None None None None (latency d) (received_timestamp d))
  end.

(** [Queue.task_done] of eventlet: raises [ValueError] when called more often
    than items were put. *)
Definition task_done (q : MessageQueueProcessor) : MessageQueueProcessor * outcome :=
  if unfinished_tasks q <=? 0 then (q, Raised "ValueError")
  else (MQP (message_queue q) (unfinished_tasks q - 1) (last_message_time q)
            (throttle_interval q) (throttled_message q) (latest_data q), Returned).

(** [for i in range(n): self.message_queue.task_done()] *)
Fixpoint task_done_times (n : nat) (q : MessageQueueProcessor)
  : MessageQueueProcessor * outcome :=
  match n with
  | O => (q, Returned)
  | S n' =>
      match task_done q with
      | (q', Returned) => task_done_times n' q'
      | (q', Raised e) => (q', Raised e)
      end
  end.

(** The calls of the exception handler, each inside its own [try]. *)
Definition task_done_quietly (n : nat) (q : MessageQueueProcessor) : MessageQueueProcessor :=
  Nat.iter n (λ q, (task_done q).1) q.

(** An emit of the Socket.IO server: event name and payload. *)
Definition emit_event := (string * payload)%type.

(** The throttling step for one formatted dict message; [time_since_last_message]
    is the value computed once before the batch. *)
Definition throttle (current_time time_since_last_message : Z) (w : Wire.t)
    (q : MessageQueueProcessor) : MessageQueueProcessor * list emit_event :=
  if time_since_last_message >=? throttle_interval q then
    (MQP (message_queue q) (unfinished_tasks q) current_time
         (throttle_interval q) None (Some (Formatted w)),
     [("bbo_update"%string, Formatted w)])
  else
    (MQP (message_queue q) (unfinished_tasks q) (last_message_time q)
         (throttle_interval q) (Some w) (Some (Formatted w)), []).

(** The body of [for message in messages_to_process]; [n] is
    [len(messages_to_process)]. *)
Definition process_message (process_time current_time time_since_last_message : Z)
    (n : nat) (m : message) (q : MessageQueueProcessor)
  : MessageQueueProcessor * list emit_event * outcome :=
  match m with
  | MTuple event_type (Some data) =>
      if bool_decide (event_type = "bbo_update") then
        let q := MQP (message_queue q) (unfinished_tasks q) (last_message_time q)
                     (throttle_interval q) (throttled_message q) (Some (Preformatted data)) in
        let '(q, r) := task_done_times n q in
        (q, [(event_type, Preformatted data)], r)
      else
        let '(q, r) := task_done q in (q, [], r)
  | MTuple _ None | MOther =>
      let '(q, r) := task_done q in (q, [], r)
  | MDict d =>
      let '(q, out) := throttle current_time time_since_last_message
                                (format_dict process_time d) q in
      let '(q, r) := task_done q in (q, out, r)
  | MRaw r =>
      let '(q, out) := throttle current_time time_since_last_message
                                (format_raw process_time r) q in
      let '(q, r) := task_done q in (q, out, r)
  end.

(** The [for] loop over the batch; an exception leaves the loop. *)
Fixpoint process_batch (process_time current_time time_since_last_message : Z)
    (n : nat) (msgs : list message) (q : MessageQueueProcessor)
  : MessageQueueProcessor * list emit_event * outcome :=
  match msgs with
  | [] => (q, [], Returned)
  | m :: rest =>
      match process_message process_time current_time time_since_last_message n m q with
      | (q, out, Returned) =>
          let '(q', out', r) :=
            process_batch process_time current_time time_since_last_message n rest q in
          (q', out ++ out', r)
      | (q, out, Raised e) => (q, out, Raised e)
      end
  end.

Definition batch_size : nat := 5.

(** "After processing the batch, send the throttled message if it exists". *)
Definition flush_throttled (current_time : Z) (q : MessageQueueProcessor)
  : MessageQueueProcessor * list emit_event :=
  match throttled_message q with
  | Some w =>
      if current_time - last_message_time q >=? throttle_interval q then
        (MQP (message_queue q) (unfinished_tasks q) current_time
             (throttle_interval q) None (latest_data q),
         [("bbo_update"%string, Formatted w)])
      else (q, [])
  | None => (q, [])
  end.

(** One turn of the [while self.is_running] loop of [_process_message_queue].
    The three clock readings are those of [process_time], of [current_time]
    before the batch and of [current_time] after it.  With an empty queue the
    blocking [get] times out and the loop continues. *)
Definition process_message_queue_turn (process_time current_time current_time' : Z)
    (q : MessageQueueProcessor) : MessageQueueProcessor * list emit_event :=
  match message_queue q with
  | [] => (q, [])
  | _ :: _ =>
      let messages_to_process := take batch_size (message_queue q) in
      let q := MQP (drop batch_size (message_queue q)) (unfinished_tasks q)
                   (last_message_time q) (throttle_interval q)
                   (throttled_message q) (latest_data q) in
      let time_since_last_message := current_time - last_message_time q in
      match process_batch process_time current_time time_since_last_message
                          (length messages_to_process) messages_to_process q with
      | (q, out, Returned) =>
          let '(q, out') := flush_throttled current_time' q in (q, out ++ out')
      | (q, out, Raised _) =>
          (task_done_quietly (length messages_to_process) q, out)
      end
  end.

(** What happens to the dispatcher, in order: a producer enqueues, or the
    worker takes a turn. *)
Inductive step :=
  | Enqueue (m : message)
  | Turn (process_time current_time current_time' : Z).

Definition run_step (st : MessageQueueProcessor * list emit_event) (e : step)
  : MessageQueueProcessor * list emit_event :=
  match e with
  | Enqueue m => (broadcast_message m st.1, st.2)
  | Turn p t t' =>
      let '(q, out) := process_message_queue_turn p t t' st.1 in (q, st.2 ++ out)
  end.

(** The dispatcher run over a schedule, with everything it emitted. *)
Definition run (steps : list step) (q : MessageQueueProcessor)
  : MessageQueueProcessor * list emit_event :=
  foldl run_step (q, []) steps.

(** ** The invariant of a series

    Each stored reference points to a dict whose [timestamp] is the entry at
    the same position of the timestamp index, and the index is sorted. *)

Definition stamped (σ : gmap loc bbo_dict) (l : loc) (t : Z) : Prop :=
  record_timestamp σ l = Some t.

Definition series_ok (σ : gmap loc bbo_dict) (ups : list loc) (tss : list Z) : Prop :=
  Forall2 (stamped σ) ups tss ∧ StronglySorted Z.le tss.

Definition cache_ok (σ : gmap loc bbo_dict) (c : BBOCache) : Prop :=
  ∀ sym, series_ok σ (series (_updates c) sym) (series (_timestamps c) sym).

(** ** Vocabulary of the statements about queries *)

(** The record behind [l] carries a timestamp in [[ti, tj]]. *)
Definition in_range (σ : gmap loc bbo_dict) (ti tj : Z) (l : loc) : bool :=
  match record_timestamp σ l with
  | Some t => (ti <=? t) && (t <=? tj)
  | None => false
  end.

(** The [n] most recent (last) elements of a list, all of it when it is shorter. *)
Definition most_recent {A} (n : nat) (l : list A) : list A :=
  drop (length l - n)%nat l.

(** The statement "a limit [n <= 0] behaves as no limit" for one query. *)
Definition nonpositive_limit_is_unlimited (c : BBOCache) (sym : string)
    (start_time end_time : option Z) (n : Z) : Prop :=
  n ≤ 0 →
  get_updates c sym start_time end_time (Some n) = get_updates c sym start_time end_time None.

(** ** Sample data: the end-to-end scenario of the specification *)

Definition tick (sym : string) (ts : Z) : bbo_dict :=
  BBO (Some sym) (Some ts) None None (Some "50000.10") (Some "0.5") (Some "50000.90") (Some "1.2")
      None None None None None None None.

(** Three dict objects for [BTCUSDT], at references 0, 1 and 2. *)
Definition sample_store : gmap loc bbo_dict :=
  list_to_map [(0%nat, tick "BTCUSDT" 1000); (1%nat, tick "BTCUSDT" 3000);
               (2%nat, tick "BTCUSDT" 2000)].

(** They are admitted in the order 1000, 3000, 2000. *)
Definition sample_calls : list (Z * loc) := [(5000, 0%nat); (5001, 1%nat); (5002, 2%nat)].

(** ** Vocabulary of the statements about capacity *)

(** A dict as the docstring of [add_update] asks for it: with [symbol],
    [timestamp], [bidPrice], [bidQty], [askPrice] and [askQty]. *)
Definition valid_update (σ : gmap loc bbo_dict) (sym : string) (l : loc) : bool :=
  match σ !! l with
  | Some d =>
      bool_decide (symbol d = Some sym) && bool_decide (is_Some (timestamp d)) &&
      has_required_fields d
  | None => false
  end.

(** The timestamps of the records passed by a sequence of calls, in call order. *)
Definition arrival_times (σ : gmap loc bbo_dict) (calls : list (Z * loc)) : list Z :=
  omap (λ call, record_timestamp σ call.2) calls.

(** [oldest] carries the smallest timestamp among [oldest :: rest]. *)
Definition oldest_first (σ : gmap loc bbo_dict) (oldest : loc) (rest : list loc) : Prop :=
  ∃ t_old, stamped σ oldest t_old ∧ Forall (λ r, ∃ t, stamped σ r t ∧ t_old ≤ t) rest.

(** "The records evicted are the oldest ones": every inserted record that is no
    longer stored is at most as recent as every stored one. *)
Definition evicted_are_oldest (σ : gmap loc bbo_dict) (inserted stored : list loc) : Prop :=
  ∀ e r te tr, e ∈ inserted → e ∉ stored → r ∈ stored →
    stamped σ e te → stamped σ r tr → te ≤ tr.

(** One insertion seen on a single sequence: the eviction, then the placement
    of [x], steered by the timestamp index [tss] (after eviction). *)
Definition evicted_series {A} (max_items : Z) (l : list A) : list A :=
  if Z.of_nat (length l) >=? max_items then tail l else l.

Definition placed_at_end (tss : list Z) (ts : Z) : bool :=
  match last tss with
  | Some t_last => ts >=? t_last
  | None => true
  end.

Definition placed {A} (tss : list Z) (ts : Z) (x : A) (l : list A) : list A :=
  if placed_at_end tss ts then l ++ [x] else insert_at (bisect_left tss ts) x l.

(** [c'] differs from [c] at most in the two sequences of [sym]. *)
Definition same_but (sym : string) (c c' : BBOCache) : Prop :=
  _max_items c' = _max_items c ∧ _latency_stats c' = _latency_stats c ∧
  ∀ sym', sym' ≠ sym →
    series (_updates c') sym' = series (_updates c) sym' ∧
    series (_timestamps c') sym' = series (_timestamps c) sym'.

(** The capacity statement for [C + k] insertions for one symbol into an empty
    cache of capacity [C]: exactly [C] records remain and the evicted ones are
    the oldest by timestamp. *)
Definition keeps_the_most_recent (C : Z) (σ0 : gmap loc bbo_dict) (calls : list (Z * loc))
    (sym : string) : Prop :=
  let (σ, c) := add_updates calls σ0 (BBOCache_init C) in
  let stored := series (_updates c) sym in
  length stored = Z.to_nat C ∧ evicted_are_oldest σ calls.*2 stored.

(** The sample records admitted in the order 2000, 3000, 1000. *)
Definition late_arrival_calls : list (Z * loc) := [(5000, 2%nat); (5001, 1%nat); (5002, 0%nat)].

(** ** Vocabulary of the statements about admission and ownership *)

(** "The duplicate check compares against the resolved timestamp": a record
    whose resolved timestamp is already in the index of its symbol is reported
    as contained. *)
Definition dedup_on_resolved_timestamp (now : Z) (σ : gmap loc bbo_dict) (m : CacheManager)
    (l : loc) : Prop :=
  ∀ d sym, σ !! l = Some d → symbol d = Some sym →
    resolve_timestamp now d ∈ series (_timestamps (cache m)) sym →
    contains_update σ m l = true.


(** The timestamp of the record behind [l], if it has one, can be formatted. *)
Definition formattable (format_timestamp : Z → raising string) (σ : gmap loc bbo_dict)
    (l : loc) : bool :=
  match record_timestamp σ l with
  | Some t =>
      match format_timestamp t with
      | Value _ => true
      | Raises _ => false
      end
  | None => true
  end.

(** A formatter for the examples: it fails on negative timestamps. *)
Definition sample_format (t : Z) : raising string :=
  if t <? 0 then Raises "OSError" else Value "19700101 00:00:01.000"%string.


(** A record without [timestamp] but with [exchange_time]. *)
Definition untimed_tick (sym : string) (exchange : Z) : bbo_dict :=
  BBO (Some sym) None (Some exchange) None
      (Some "50000.10") (Some "0.5") (Some "50000.90") (Some "1.2")
      None None None None None None None.

(** Two dict objects with the same contents, delivered one after the other. *)
Definition untimed_store : gmap loc bbo_dict :=
  list_to_map [(0%nat, untimed_tick "BTCUSDT" 1000); (1%nat, untimed_tick "BTCUSDT" 1000)].

(** A record with a [backendLatency]. *)
Definition latency_tick (sym : string) (ts lat : Z) : bbo_dict :=
  BBO (Some sym) (Some ts) None None
      (Some "50000.10") (Some "0.5") (Some "50000.90") (Some "1.2")
      None None None None (Some (Some lat)) None None.

Definition latency_store : gmap loc bbo_dict :=
  list_to_map [(0%nat, latency_tick "BTCUSDT" 1000 5); (1%nat, latency_tick "BTCUSDT" 3000 7);
               (2%nat, latency_tick "BTCUSDT" 2000 6)].

(** They arrive in the order 3000, 1000, 2000. *)
Definition latency_calls : list (Z * loc) := [(5000, 1%nat); (5001, 0%nat); (5002, 2%nat)].

(** ** Vocabulary of the statements about latency *)


(** A message whose event time is one second ahead of the local clock. *)
Definition clock_skew_msg : Raw.t :=
  Raw.mk None (Some "50000.10") (Some "0.5") (Some "50000.90") (Some "1.2")
         (Some 2000) None None.

(** [float] followed by [str] on the texts of the examples: a plain decimal
    literal, digits with an optional point and further digits, of at most 15
    digits, which Python reads exactly and prints without leading zeros and
    without trailing zeros after the first decimal.  Elsewhere it answers
    [None], which is what Python's [float] does on a text that is not a
    number; texts Python reads but this function does not (signs, exponents,
    blanks, a missing integer part, longer literals, values below 0.0001) are
    not used. *)
Definition is_digit (a : Ascii.ascii) : bool :=
  (48 <=? Ascii.nat_of_ascii a)%nat && (Ascii.nat_of_ascii a <=? 57)%nat.

Fixpoint strip_zeros (l : list Ascii.ascii) : list Ascii.ascii :=
  match l with
  | a :: l' => if Ascii.eqb a "0"%char then strip_zeros l' else l
  | [] => []
  end.

Fixpoint split_point (l : list Ascii.ascii) : list Ascii.ascii * list Ascii.ascii :=
  match l with
  | [] => ([], [])
  | a :: l' =>
      if Ascii.eqb a "."%char then ([], l')
      else let '(i, f) := split_point l' in (a :: i, f)
  end.

Definition decimal_float (text : string) : option string :=
  let '(i, f) := split_point (String.list_ascii_of_string text) in
  if forallb is_digit i && forallb is_digit f && (1 <=? length i)%nat &&
     (length i + length f <=? 15)%nat then
    let i' := strip_zeros i in
    let f' := rev (strip_zeros (rev f)) in
    let small := (length i' =? 0)%nat && (1 <=? length f')%nat &&
                 (4 <=? length f - length (strip_zeros f))%nat in
    if small then None
    else Some (String.string_of_list_ascii
                 ((if (length i' =? 0)%nat then ["0"%char] else i') ++
                  "."%char :: (if (length f' =? 0)%nat then ["0"%char] else f')))
  else None.

(** ** Vocabulary of the statements about throttling *)

(** The message is a dict (of either vocabulary). *)
Definition is_dict (m : message) : bool :=
  match m with
  | MDict _ | MRaw _ => true
  | MTuple _ _ | MOther => false
  end.

(** The wire form of a dict message drained in a turn with the given
    [process_time]. *)
Definition formatted (process_time : Z) (m : message) : option Wire.t :=
  match m with
  | MDict d => Some (format_dict process_time d)
  | MRaw r => Some (format_raw process_time r)
  | MTuple _ _ | MOther => None
  end.



(** Three quotes as [MessageProcessor._process_bbo_update] hands them on. *)
Definition quote (bid ask : string) (event_time received : Z) : message :=
  MDict (_process_bbo_update "BTCUSDT"
           (Raw.mk (Some "BTCUSDT") (Some bid) (Some "0.5") (Some ask) (Some "1.2")
                   (Some event_time) None None) received).

(** A first quote is sent at time 1000; a burst of two more arrives within the
    throttle interval and is drained at 1010; then the queue stays empty. *)
Definition burst_schedule : list step :=
  [Enqueue (quote "50000.10" "50000.90" 990 995); Turn 999 1000 1000;
   Enqueue (quote "50001.00" "50001.80" 1001 1004);
   Enqueue (quote "50002.00" "50002.80" 1003 1006); Turn 1010 1010 1011;
   Turn 1600 1600 1600; Turn 2200 2200 2200].

(** ** Vocabulary of the statements about eviction by age *)

(** The record behind [l] is not older than the cutoff. *)
Definition fresh_enough (σ : gmap loc bbo_dict) (cutoff_time : Z) (l : loc) : bool :=
  match record_timestamp σ l with
  | Some t => cutoff_time <=? t
  | None => false
  end.

(** ** Further operations and their vocabulary *)

(** [BBOCache.get_symbol_list]: [sorted(list(self._updates.keys()))]; Python
    orders strings by code point, which is the byte order of their encoding. *)
Definition get_symbol_list (c : BBOCache) : list string :=
  merge_sort String.le (elements (dom (_updates c))).

(** A sequence of [CacheManager.process_bbo_update] calls, each with its own
    clock reading. *)
Definition process_bbo_updates (calls : list (Z * loc)) (σ : gmap loc bbo_dict)
    (m : CacheManager) : gmap loc bbo_dict * CacheManager :=
  foldl (λ st call, process_bbo_update call.1 call.2 st.1 st.2) (σ, m) calls.

(** The argument is a dict that [add_update] does not turn away: it has a
    [symbol] and, after the conversion of the snake_case keys, the four
    required fields. *)
Definition admissible (σ : gmap loc bbo_dict) (l : loc) : bool :=
  match σ !! l with
  | Some d => bool_decide (is_Some (symbol d)) && has_required_fields (convert_fields d)
  | None => false
  end.

(** The argument is a dict with a non-empty [symbol] and a non-zero explicit
    [timestamp]: the keys the duplicate check of the manager can see. *)
Definition keyed (σ : gmap loc bbo_dict) (l : loc) : bool :=
  match σ !! l with
  | Some d =>
      match symbol d, timestamp d with
      | Some sym, Some ts => negb (bool_decide (sym = "")) && negb (ts =? 0)
      | _, _ => false
      end
  | None => false
  end.

(** The record behind [l] carries a timestamp within the given bounds, a
    missing bound being open. *)
Definition within (σ : gmap loc bbo_dict) (start_time end_time : option Z) (l : loc) : bool :=
  match record_timestamp σ l with
  | Some t =>
      match start_time with Some s => s <=? t | None => true end &&
      match end_time with Some e => t <=? e | None => true end
  | None => false
  end.

(** What a limit that is absent or positive leaves of the matching records. *)
Definition limited {A} (limit : option Z) (l : list A) : list A :=
  match limit with
  | Some n => most_recent (Z.to_nat n) l
  | None => l
  end.

(** A record with snake_case fields only and no timestamp of its own. *)
Definition snake_tick (sym : string) (received : Z) : bbo_dict :=
  BBO (Some sym) None None (Some received) None None None None
      (Some "50000.10") (Some "0.5") (Some "50000.90") (Some "1.2")
      (Some (Some 4)) None None.

Definition snake_store : gmap loc bbo_dict := {[ 0%nat := snake_tick "ETHUSDT" 7000 ]}.

(** ** Statistics of the cache *)

(** [get_cache_stats()["total_symbols"]] *)
Definition total_symbols (c : BBOCache) : nat := size (_updates c).

(** The integer fields of the dict [get_latency_stats] returns, [min], [max]
    and [count], or the exception it raises; [avg] and the percentiles are
    floating-point numbers and are left out. *)
Inductive latency_summary :=
  | Summary (min_latency max_latency : Z) (count : nat)
  | SummaryRaised (exn : string).

(** The samples [get_latency_stats] selects: "filter latency samples by time
    range". *)
Definition sample_in_range (start_time end_time : option Z) (ts : Z) : bool :=
  match start_time with Some s => ts >=? s | None => true end &&
  match end_time with Some e => ts <=? e | None => true end.

Definition latency_samples (stats : list (Z * option Z)) (start_time end_time : option Z)
  : list (option Z) :=
  (filter (λ e, sample_in_range start_time end_time e.1 = true) stats).*2.

(** [BBOCache.get_latency_stats]: [sum] raises [TypeError] on a sample that is
    [None]; [min] and [max] are those of a non-empty list of integers. *)
Definition get_latency_stats (c : BBOCache) (sym : string) (start_time end_time : option Z)
  : latency_summary :=
  match _latency_stats c !! sym with
  | None => Summary 0 0 0
  | Some stats =>
      match latency_samples stats start_time end_time with
      | [] => Summary 0 0 0
      | sample :: rest =>
          match mapM id (sample :: rest) with
          | None => SummaryRaised "TypeError"
          | Some [] => Summary 0 0 0
          | Some (x :: xs) =>
              Summary (foldl Z.min x xs) (foldl Z.max x xs) (length (x :: xs))
          end
      end
  end.

(** A record that carries the key [backendLatency] with the value [None]. *)
Definition unmeasured_tick (sym : string) (ts : Z) : bbo_dict :=
  BBO (Some sym) (Some ts) None None
      (Some "50000.10") (Some "0.5") (Some "50000.90") (Some "1.2")
      None None None None (Some None) None None.

(** ** Vocabulary of further statements about the dispatcher *)

(** One if the throttled slot is occupied. *)
Definition pending_slot (q : MessageQueueProcessor) : nat :=
  match throttled_message q with
  | Some _ => 1
  | None => 0
  end.

(** The number of records enqueued by a schedule. *)
Definition is_enqueue (e : step) : bool :=
  match e with Enqueue _ => true | Turn _ _ _ => false end.

Definition enqueued (steps : list step) : nat :=
  length (filter (λ e, Is_true (is_enqueue e)) steps).

(** Every record the schedule enqueues is a dict. *)
Definition enqueues_dicts (steps : list step) : bool :=
  forallb (λ e, match e with Enqueue m => is_dict m | Turn _ _ _ => true end) steps.

(** The emits for a batch of dict messages sent one by one. *)
Definition emits (process_time : Z) (msgs : list message) : list emit_event :=
  omap (λ m, (λ w, ("bbo_update"%string, Formatted w)) <$> formatted process_time m) msgs.

(** What [BBOProcessor.process_bbo_update] puts on the queue. *)
Definition preformatted (d : bbo_dict) : message := MTuple "bbo_update" (Some d).

(** * Properties *)

(** Decidable closed goals are settled by evaluation. *)
Ltac by_compute := apply (bool_decide_unpack _); vm_compute; exact I.


(** ** Binary search on a sorted list *)

Lemma item_lookup (l : list Z) (i : nat) (t : Z) : l !! i = Some t → item l i = t.
Proof. intros H. unfold item. by rewrite nth_lookup, H. Qed.

Lemma sorted_item (l : list Z) :
  StronglySorted Z.le l → ∀ i j, (i ≤ j < length l)%nat → item l i ≤ item l j.
Proof.
  induction 1 as [|y l Hl IH Hy]; intros i j [Hij Hj]; simpl in *; [lia|].
  destruct j as [|j].
  - assert (i = 0%nat) as -> by lia. reflexivity.
  - destruct i as [|i].
    + rewrite Forall_lookup in Hy.
      destruct (lookup_lt_is_Some_2 l j) as [t Ht]; [lia|].
      unfold item; simpl. rewrite nth_lookup, Ht. simpl. eauto.
    + apply (IH i j). lia.
Qed.

Section Bisect.

Variable a : list Z.
Variable x : Z.
Hypothesis a_sorted : StronglySorted Z.le a.

Lemma bisect_left_loop_S (fuel lo hi : nat) :
  bisect_left_loop (S fuel) a x lo hi =
  if (lo <? hi)%nat then
    if item a ((lo + hi) / 2) <? x then bisect_left_loop fuel a x (S ((lo + hi) / 2)) hi
    else bisect_left_loop fuel a x lo ((lo + hi) / 2)
  else lo.
Proof. reflexivity. Qed.

Lemma bisect_right_loop_S (fuel lo hi : nat) :
  bisect_right_loop (S fuel) a x lo hi =
  if (lo <? hi)%nat then
    if x <? item a ((lo + hi) / 2) then bisect_right_loop fuel a x lo ((lo + hi) / 2)
    else bisect_right_loop fuel a x (S ((lo + hi) / 2)) hi
  else lo.
Proof. reflexivity. Qed.

Lemma midpoint (lo hi : nat) : (lo < hi)%nat → (lo ≤ (lo + hi) / 2 < hi)%nat.
Proof.
  intros H. pose proof (Nat.div_mod_eq (lo + hi) 2) as E.
  pose proof (Nat.mod_upper_bound (lo + hi) 2). lia.
Qed.

Lemma bisect_left_loop_spec (fuel lo hi : nat) :
  (lo ≤ hi ≤ length a)%nat → (hi - lo ≤ fuel)%nat →
  (∀ j, (j < lo)%nat → item a j < x) →
  (∀ j, (hi ≤ j < length a)%nat → x ≤ item a j) →
  let i := bisect_left_loop fuel a x lo hi in
  (i ≤ length a)%nat ∧
  (∀ j, (j < i)%nat → item a j < x) ∧
  (∀ j, (i ≤ j < length a)%nat → x ≤ item a j).
Proof using a_sorted.
  revert lo hi. induction fuel as [|fuel IH]; intros lo hi Hb Hf Hlo Hhi.
  - simpl. assert (lo = hi) as -> by lia. repeat split; [lia|done|done].
  - cbv zeta. rewrite bisect_left_loop_S.
    destruct (Nat.ltb_spec lo hi) as [Hlt|Hge].
    + pose proof (midpoint lo hi Hlt) as Hm.
      destruct (Z.ltb_spec (item a ((lo + hi) / 2)) x) as [Hx|Hx].
      * apply IH; [lia|lia| |done].
        intros j Hj. eapply Z.le_lt_trans; [|exact Hx]. apply sorted_item; [done|lia].
      * apply IH; [lia|lia|done|].
        intros j Hj. etrans; [exact Hx|]. apply sorted_item; [done|lia].
    + assert (lo = hi) as -> by lia. repeat split; [lia|done|done].
Qed.

Lemma bisect_right_loop_spec (fuel lo hi : nat) :
  (lo ≤ hi ≤ length a)%nat → (hi - lo ≤ fuel)%nat →
  (∀ j, (j < lo)%nat → item a j ≤ x) →
  (∀ j, (hi ≤ j < length a)%nat → x < item a j) →
  let i := bisect_right_loop fuel a x lo hi in
  (i ≤ length a)%nat ∧
  (∀ j, (j < i)%nat → item a j ≤ x) ∧
  (∀ j, (i ≤ j < length a)%nat → x < item a j).
Proof using a_sorted.
  revert lo hi. induction fuel as [|fuel IH]; intros lo hi Hb Hf Hlo Hhi.
  - simpl. assert (lo = hi) as -> by lia. repeat split; [lia|done|done].
  - cbv zeta. rewrite bisect_right_loop_S.
    destruct (Nat.ltb_spec lo hi) as [Hlt|Hge].
    + pose proof (midpoint lo hi Hlt) as Hm.
      destruct (Z.ltb_spec x (item a ((lo + hi) / 2))) as [Hx|Hx].
      * apply IH; [lia|lia|done|].
        intros j Hj. eapply Z.lt_le_trans; [exact Hx|]. apply sorted_item; [done|lia].
      * apply IH; [lia|lia| |done].
        intros j Hj. etrans; [|exact Hx]. apply sorted_item; [done|lia].
    + assert (lo = hi) as -> by lia. repeat split; [lia|done|done].
Qed.

(** Index facts turned into facts about a prefix and a suffix. *)
Lemma split_at (P Q : Z → Prop) (i : nat) :
  (∀ j, (j < i)%nat → P (item a j)) →
  (∀ j, (i ≤ j < length a)%nat → Q (item a j)) →
  Forall P (take i a) ∧ Forall Q (drop i a).
Proof.
  intros HP HQ. split; apply Forall_lookup; intros j t Hj.
  - apply lookup_take_Some in Hj as [Hj Hlt].
    rewrite <- (item_lookup _ _ _ Hj). by apply HP.
  - rewrite lookup_drop in Hj. pose proof (lookup_lt_Some _ _ _ Hj).
    rewrite <- (item_lookup _ _ _ Hj). apply HQ. lia.
Qed.

Lemma bisect_left_split :
  (bisect_left a x ≤ length a)%nat ∧
  Forall (λ t, t < x) (take (bisect_left a x) a) ∧
  Forall (λ t, x ≤ t) (drop (bisect_left a x) a).
Proof using a_sorted.
  destruct (bisect_left_loop_spec (length a) 0 (length a)) as (Hi & Hl & Hr);
    [lia|lia|intros; lia|intros; lia|].
  split; [done|]. by apply split_at.
Qed.

Lemma bisect_right_split :
  (bisect_right a x ≤ length a)%nat ∧
  Forall (λ t, t ≤ x) (take (bisect_right a x) a) ∧
  Forall (λ t, x < t) (drop (bisect_right a x) a).
Proof using a_sorted.
  destruct (bisect_right_loop_spec (length a) 0 (length a)) as (Hi & Hl & Hr);
    [lia|lia|intros; lia|intros; lia|].
  split; [done|]. by apply split_at.
Qed.

End Bisect.

(** ** The series invariant is kept by every step of [add_update] *)

Lemma series_set_series_eq (sym : string) (ups : list loc) (tss : list Z) (c : BBOCache) :
  series (_updates (set_series sym ups tss c)) sym = ups ∧
  series (_timestamps (set_series sym ups tss c)) sym = tss.
Proof. unfold series; simpl. by rewrite !lookup_insert_eq. Qed.

Lemma series_set_series_ne (sym sym' : string) (ups : list loc) (tss : list Z) (c : BBOCache) :
  sym ≠ sym' →
  series (_updates (set_series sym ups tss c)) sym' = series (_updates c) sym' ∧
  series (_timestamps (set_series sym ups tss c)) sym' = series (_timestamps c) sym'.
Proof. intros Hne. unfold series; simpl. by rewrite !lookup_insert_ne. Qed.

Lemma sorted_le_last (tss : list Z) (m : Z) :
  StronglySorted Z.le tss → last tss = Some m → Forall (λ t, t ≤ m) tss.
Proof.
  intros Hs Hl. apply last_Some in Hl as [l' ->].
  apply StronglySorted_app in Hs as (Hle & _ & _).
  apply Forall_app. split.
  - apply Forall_forall. intros t Ht. apply Hle; [done|]. by apply list_elem_of_singleton.
  - by repeat constructor.
Qed.

Lemma series_ok_nil (σ : gmap loc bbo_dict) : series_ok σ [] [].
Proof. split; constructor. Qed.

Lemma series_ok_tail (σ : gmap loc bbo_dict) (ups : list loc) (tss : list Z) :
  series_ok σ ups tss → series_ok σ (tail ups) (tail tss).
Proof.
  intros [H2 Hs]. destruct H2 as [|l t ups tss Hl H2]; [by split; constructor|].
  simpl. split; [done|]. by apply StronglySorted_cons in Hs as [_ ?].
Qed.

Lemma series_ok_drop (σ : gmap loc bbo_dict) (ups : list loc) (tss : list Z) (n : nat) :
  series_ok σ ups tss → series_ok σ (drop n ups) (drop n tss).
Proof.
  intros [H2 Hs]. split; [by apply Forall2_drop|].
  rewrite <- (take_drop n tss) in Hs. by apply StronglySorted_app in Hs as (_ & _ & ?).
Qed.

Lemma series_ok_snoc (σ : gmap loc bbo_dict) (ups : list loc) (tss : list Z) (l : loc) (ts : Z) :
  series_ok σ ups tss → stamped σ l ts →
  match last tss with Some t_last => t_last ≤ ts | None => True end →
  series_ok σ (ups ++ [l]) (tss ++ [ts]).
Proof.
  intros [H2 Hs] Hl Hlast. split.
  - apply Forall2_app; [done|]. by repeat constructor.
  - apply StronglySorted_app_2; [|done|by repeat constructor].
    intros t1 t2 H1 ->%list_elem_of_singleton.
    destruct (last tss) as [t_last|] eqn:E.
    + pose proof (sorted_le_last _ _ Hs E) as Hall.
      rewrite Forall_forall in Hall. specialize (Hall _ H1). simpl in Hall. lia.
    + apply last_None in E. subst. by apply elem_of_nil in H1.
Qed.

Lemma series_ok_insert (σ : gmap loc bbo_dict) (ups : list loc) (tss : list Z) (l : loc) (ts : Z) :
  series_ok σ ups tss → stamped σ l ts →
  series_ok σ (insert_at (bisect_left tss ts) l ups) (insert_at (bisect_left tss ts) ts tss).
Proof.
  intros [H2 Hs] Hl. destruct (bisect_left_split tss ts Hs) as (Hi & Hlt & Hge).
  unfold insert_at. split.
  - apply Forall2_app; [by apply Forall2_take|].
    constructor; [done|by apply Forall2_drop].
  - pose proof Hs as Hs'. rewrite <- (take_drop (bisect_left tss ts) tss) in Hs'.
    apply StronglySorted_app in Hs' as (Hcross & Hs1 & Hs2).
    apply StronglySorted_app_2; [|done|].
    + intros t1 t2 H1 [->|H2']%elem_of_cons.
      * rewrite Forall_forall in Hlt. specialize (Hlt _ H1). simpl in Hlt. lia.
      * by apply Hcross.
    + by apply StronglySorted_cons.
Qed.

Lemma series_ok_store (σ σ' : gmap loc bbo_dict) (ups : list loc) (tss : list Z) :
  (∀ l t, stamped σ l t → stamped σ' l t) →
  series_ok σ ups tss → series_ok σ' ups tss.
Proof. intros Hmono [H2 Hs]. split; [|done]. eapply Forall2_impl; eauto. Qed.

Lemma cache_ok_init (σ : gmap loc bbo_dict) (C : Z) : cache_ok σ (BBOCache_init C).
Proof. intros sym. unfold series; simpl. rewrite !lookup_empty. apply series_ok_nil. Qed.

Lemma cache_ok_set_series (σ : gmap loc bbo_dict) (c : BBOCache) (sym : string)
    (ups : list loc) (tss : list Z) :
  cache_ok σ c → series_ok σ ups tss → cache_ok σ (set_series sym ups tss c).
Proof.
  intros Hc Hs sym'. destruct (decide (sym = sym')) as [<-|Hne].
  - by destruct (series_set_series_eq sym ups tss c) as [-> ->].
  - destruct (series_set_series_ne sym sym' ups tss c Hne) as [-> ->]. apply Hc.
Qed.

Lemma cache_ok_ensure_symbol (σ : gmap loc bbo_dict) (c : BBOCache) (sym : string) :
  cache_ok σ c → cache_ok σ (ensure_symbol sym c).
Proof.
  intros Hc. unfold ensure_symbol. destruct (_updates c !! sym); [done|].
  apply cache_ok_set_series; [done|apply series_ok_nil].
Qed.

Lemma cache_ok_evict_oldest (σ : gmap loc bbo_dict) (c : BBOCache) (sym : string) :
  cache_ok σ c → cache_ok σ (evict_oldest sym c).1.
Proof.
  intros Hc. unfold evict_oldest. pose proof (Hc sym) as Hs.
  destruct (Z.of_nat _ >=? _); [|done].
  destruct (series (_updates c) sym) as [|l ups] eqn:Eu; [done|].
  destruct (series (_timestamps c) sym) as [|t tss] eqn:Et; simpl.
  - destruct Hs as [H2 _]. inversion H2.
  - apply cache_ok_set_series; [done|]. by apply series_ok_tail in Hs.
Qed.

Lemma cache_ok_place (σ : gmap loc bbo_dict) (c : BBOCache) (sym : string) (ts : Z) (l : loc) :
  cache_ok σ c → stamped σ l ts → cache_ok σ (place sym ts l c).
Proof.
  intros Hc Hl. unfold place. pose proof (Hc sym) as Hs.
  destruct (last (series (_timestamps c) sym)) as [t_last|] eqn:E.
  - destruct (Z.geb_spec ts t_last) as [Hge|Hlt].
    + apply cache_ok_set_series; [done|]. apply series_ok_snoc; [done..|]. rewrite E. lia.
    + apply cache_ok_set_series; [done|]. by apply series_ok_insert.
  - apply cache_ok_set_series; [done|]. apply series_ok_snoc; [done..|]. by rewrite E.
Qed.

Lemma cache_ok_insert_update (σ : gmap loc bbo_dict) (c : BBOCache) (sym : string) (ts : Z) (l : loc) :
  cache_ok σ c → stamped σ l ts → cache_ok σ (_insert_update sym ts l c).1.
Proof.
  intros Hc Hl. unfold _insert_update.
  pose proof (cache_ok_evict_oldest σ _ sym (cache_ok_ensure_symbol σ c sym Hc)) as He.
  destruct (evict_oldest sym (ensure_symbol sym c)) as [c' [|e]]; simpl in *; [|done].
  by apply cache_ok_place.
Qed.

Lemma cache_ok_store_latency (σ : gmap loc bbo_dict) (c : BBOCache) (sym : string) (ts : Z)
    (d : bbo_dict) :
  cache_ok σ c → cache_ok σ (store_latency sym ts d c).
Proof.
  intros Hc. unfold store_latency, append_latency.
  destruct (backendLatency d); [done|]. by destruct (latency d) as [[?|]|].
Qed.

(** [add_update] writes the timestamp into the dict only where it was missing. *)
Lemma stamped_resolved (now : Z) (l : loc) (d : bbo_dict) (σ : gmap loc bbo_dict) :
  σ !! l = Some d →
  ∀ l' t, stamped σ l' t →
    stamped (<[l := convert_fields (set_timestamp (resolve_timestamp now d) d)]> σ) l' t.
Proof.
  intros Ed l' t Hst. unfold stamped, record_timestamp in *.
  destruct (decide (l = l')) as [<-|Hne].
  - rewrite lookup_insert_eq. rewrite Ed in Hst. simpl in *.
    unfold resolve_timestamp. by rewrite Hst.
  - by rewrite lookup_insert_ne.
Qed.

Lemma add_update_stamped (now : Z) (l : loc) (σ : gmap loc bbo_dict) (c : BBOCache) :
  ∀ l' t, stamped σ l' t → stamped (add_update now l σ c).1.1 l' t.
Proof.
  intros l' t Hst. unfold add_update.
  destruct (σ !! l) as [d|] eqn:Ed; [|done].
  destruct (symbol d) as [sym|]; [|done].
  pose proof (stamped_resolved now l d σ Ed l' t Hst) as Hst'.
  destruct (has_required_fields _); [|done].
  by destruct (_insert_update _ _ _ _) as [c' [|e]].
Qed.

Lemma cache_ok_add_update (now : Z) (l : loc) (σ : gmap loc bbo_dict) (c : BBOCache) :
  cache_ok σ c → cache_ok (add_update now l σ c).1.1 (add_update now l σ c).1.2.
Proof.
  intros Hc. unfold add_update.
  destruct (σ !! l) as [d|] eqn:Ed; [|done].
  destruct (symbol d) as [sym|]; [|done].
  pose proof (stamped_resolved now l d σ Ed) as Hmono.
  set (ts := resolve_timestamp now d) in *.
  set (d' := convert_fields (set_timestamp ts d)) in *.
  assert (cache_ok (<[l := d']> σ) c) as Hc'.
  { intros sym'. eapply series_ok_store; [exact Hmono|apply Hc]. }
  destruct (has_required_fields d'); [|done].
  assert (stamped (<[l := d']> σ) l ts) as Hl.
  { unfold stamped, record_timestamp. by rewrite lookup_insert_eq. }
  pose proof (cache_ok_insert_update _ _ sym ts l
                (cache_ok_store_latency _ _ sym ts d' Hc') Hl) as Hi.
  destruct (_insert_update sym ts l (store_latency sym ts d' c)) as [c' [|e]];
    simpl in *; [|done].
  intros sym'. apply Hi.
Qed.

Lemma cache_ok_add_updates (calls : list (Z * loc)) (σ : gmap loc bbo_dict) (c : BBOCache) :
  cache_ok σ c → cache_ok (add_updates calls σ c).1 (add_updates calls σ c).2.
Proof.
  unfold add_updates. revert σ c. induction calls as [|[now l] calls IH]; intros σ c Hc; [done|].
  simpl. destruct (add_update now l σ c) as [[σ' c'] r] eqn:E. simpl.
  apply IH. pose proof (cache_ok_add_update now l σ c Hc) as H. by rewrite E in H.
Qed.

(** ** Queries *)

Lemma series_ok_take (σ : gmap loc bbo_dict) (ups : list loc) (tss : list Z) (n : nat) :
  series_ok σ ups tss → series_ok σ (take n ups) (take n tss).
Proof.
  intros [H2 Hs]. split; [by apply Forall2_take|].
  rewrite <- (take_drop n tss) in Hs. by apply StronglySorted_app in Hs as (_ & ? & _).
Qed.

Lemma series_ok_slice (σ : gmap loc bbo_dict) (ups : list loc) (tss : list Z) (i j : nat) :
  series_ok σ ups tss → series_ok σ (slice ups i j) (slice tss i j).
Proof. intros H. unfold slice. by apply series_ok_take, series_ok_drop. Qed.

Lemma series_ok_slice_from (σ : gmap loc bbo_dict) (ups : list loc) (tss : list Z) (i : Z) :
  series_ok σ ups tss → series_ok σ (slice_from ups i) (slice_from tss i).
Proof.
  intros H. unfold slice_from. destruct H as [H2 Hs].
  rewrite (Forall2_length _ _ _ H2). by apply series_ok_drop.
Qed.

Lemma series_lookup {A} (m : gmap string (list A)) (sym : string) (l : list A) :
  m !! sym = Some l → series m sym = l.
Proof. intros H. unfold series. by rewrite H. Qed.

Lemma get_updates_series_ok (σ : gmap loc bbo_dict) (c : BBOCache) (sym : string)
    (start_time end_time limit : option Z) :
  cache_ok σ c → ∃ tss, series_ok σ (get_updates c sym start_time end_time limit) tss.
Proof.
  intros Hc. pose proof (Hc sym) as Hs. unfold get_updates.
  destruct (_updates c !! sym) as [ups|] eqn:Eu; [|exists []; apply series_ok_nil].
  rewrite (series_lookup _ _ _ Eu) in Hs.
  set (tss := series (_timestamps c) sym) in *.
  assert (∀ i j, ∃ tss',
    series_ok σ
      match limit with
      | Some n =>
          if Z.of_nat (length (slice ups i j)) >? n
          then slice_from (slice ups i j) (- n) else slice ups i j
      | None => slice ups i j
      end tss') as Hbounded.
  { intros i j. pose proof (series_ok_slice σ ups tss i j Hs) as Hsl.
    destruct limit as [n|]; [|eauto]. destruct (_ >? _); [|eauto].
    eexists. by apply series_ok_slice_from. }
  destruct start_time as [s|], end_time as [e|]; try apply Hbounded.
  destruct limit as [n|]; [|eauto].
  eexists. by apply series_ok_slice_from.
Qed.

Lemma series_ok_timestamps (σ : gmap loc bbo_dict) (ups : list loc) (tss : list Z) :
  series_ok σ ups tss → record_timestamp σ <$> ups = Some <$> tss ∧ Sorted Z.le tss.
Proof.
  intros [H2 Hs]. split; [|by apply StronglySorted_Sorted].
  induction H2 as [|l t ups tss Hl H2 IH]; [done|].
  apply StronglySorted_cons in Hs as [_ Hs]. csimpl. by rewrite Hl, IH.
Qed.

(** *** Range queries *)

Lemma filter_all {A} (P : A → bool) (l : list A) :
  Forall (λ x, P x = true) l → filter P l = l.
Proof.
  induction 1 as [|x l Hx Hl IH]; [done|].
  rewrite filter_cons_True; [by rewrite IH|]. by rewrite Hx.
Qed.

Lemma filter_none {A} (P : A → bool) (l : list A) :
  Forall (λ x, P x = false) l → filter P l = [].
Proof.
  induction 1 as [|x l Hx Hl IH]; [done|].
  rewrite filter_cons_False; [done|]. rewrite Hx. exact id.
Qed.

Lemma in_range_transfer (σ : gmap loc bbo_dict) (ti tj : Z) (Q : Z → Prop) (b : bool)
    (us : list loc) (ts : list Z) :
  Forall2 (stamped σ) us ts → Forall Q ts →
  (∀ t, Q t → (ti <=? t) && (t <=? tj) = b) →
  Forall (λ l, in_range σ ti tj l = b) us.
Proof.
  intros H2 HQ Hb. induction H2 as [|l t us ts Hl H2 IH]; [constructor|].
  inversion HQ; subst. constructor; [|by apply IH].
  unfold in_range. rewrite Hl. by apply Hb.
Qed.

Lemma range_slice (σ : gmap loc bbo_dict) (ups : list loc) (tss : list Z) (ti tj : Z) :
  series_ok σ ups tss →
  slice ups (bisect_left tss ti) (bisect_right tss tj) = filter (in_range σ ti tj) ups.
Proof.
  intros [H2 Hs].
  destruct (bisect_left_split tss ti Hs) as (Hi & Hlt & Hge).
  destruct (bisect_right_split tss tj Hs) as (Hj & Hle & Hgt).
  set (i := bisect_left tss ti) in *. set (j := bisect_right tss tj) in *.
  assert (Forall (λ l, in_range σ ti tj l = false) (take i ups)) as Hpre.
  { eapply in_range_transfer; [by apply Forall2_take|exact Hlt|]. intros t Ht; simpl in Ht. lia. }
  unfold slice. destruct (decide (i ≤ j)%nat) as [Hij|Hij].
  - assert (Forall (λ l, in_range σ ti tj l = true) (take (j - i) (drop i ups))) as Hmid.
    { eapply (in_range_transfer _ _ _ (λ t, ti ≤ t ∧ t ≤ tj));
        [by apply Forall2_take, Forall2_drop| |intros t Ht; lia].
      apply Forall_and. split; [by apply Forall_take|].
      rewrite take_drop_commute. replace (i + (j - i))%nat with j by lia.
      by apply Forall_drop. }
    assert (Forall (λ l, in_range σ ti tj l = false) (drop j ups)) as Hpost.
    { eapply in_range_transfer; [by apply Forall2_drop|exact Hgt|].
      intros t Ht; simpl in Ht. lia. }
    rewrite <- (take_drop i ups) at 2.
    rewrite <- (take_drop (j - i) (drop i ups)) at 2.
    rewrite drop_drop. replace (i + (j - i))%nat with j by lia.
    rewrite !filter_app, (filter_none _ _ Hpre), (filter_all _ _ Hmid), (filter_none _ _ Hpost).
    by rewrite app_nil_r.
  - replace (j - i)%nat with 0%nat by lia. rewrite take_0.
    assert (Forall (λ l, in_range σ ti tj l = false) (drop i ups)) as Hpost.
    { eapply (in_range_transfer _ _ _ (λ t, tj < t));
        [by apply Forall2_drop| |intros t Ht; lia].
      replace i with (j + (i - j))%nat by lia. rewrite <- drop_drop. by apply Forall_drop. }
    rewrite <- (take_drop i ups) at 1.
    by rewrite filter_app, (filter_none _ _ Hpre), (filter_none _ _ Hpost).
Qed.

Lemma limit_most_recent {A} (l : list A) (n : Z) :
  0 < n →
  (if Z.of_nat (length l) >? n then slice_from l (- n) else l) = most_recent (Z.to_nat n) l.
Proof.
  intros Hn. unfold most_recent, slice_from, slice_start.
  destruct (Z.gtb_spec (Z.of_nat (length l)) n) as [Hgt|Hle].
  - destruct (Z.ltb_spec (- n) 0); [|lia]. f_equal. lia.
  - replace (length l - Z.to_nat n)%nat with 0%nat by lia. done.
Qed.

(** C4.  In a cache filled by [add_update] calls, [get_updates] with both bounds
    returns exactly the stored records of the symbol whose timestamp lies in
    [[ti, tj]], in stored order; with a positive limit it returns the most recent
    [limit] of them (the matched range trimmed from the front), which is the
    whole matched range when no more than [limit] records match. *)
Theorem get_updates_range (C : Z) (σ0 : gmap loc bbo_dict) (calls : list (Z * loc))
    (sym : string) (ti tj : Z) (limit : option Z) :
  (∀ n, limit = Some n → 0 < n) →
  let (σ, c) := add_updates calls σ0 (BBOCache_init C) in
  let matched := filter (in_range σ ti tj) (series (_updates c) sym) in
  get_updates c sym (Some ti) (Some tj) limit =
    match limit with
    | Some n => most_recent (Z.to_nat n) matched
    | None => matched
    end.
Proof.
  intros Hlimit.
  pose proof (cache_ok_add_updates calls σ0 (BBOCache_init C) (cache_ok_init σ0 C)) as Hc.
  destruct (add_updates calls σ0 (BBOCache_init C)) as [σ c]. simpl in Hc.
  pose proof (Hc sym) as Hs. cbv zeta. unfold get_updates.
  destruct (_updates c !! sym) as [ups|] eqn:Eu.
  - rewrite (series_lookup _ _ _ Eu) in *.
    rewrite (range_slice σ ups _ ti tj Hs).
    destruct limit as [n|]; [|done]. apply limit_most_recent. by apply Hlimit.
  - unfold series. rewrite Eu. simpl. by destruct limit.
Qed.

Example sample_query :
  get_updates (add_updates sample_calls sample_store (BBOCache_init 10)).2 "BTCUSDT"
              None None None = [0; 2; 1]%nat.
Proof. vm_compute. reflexivity. Qed.

Lemma get_updates_range_witness :
  get_updates (add_updates sample_calls sample_store (BBOCache_init 10)).2 "BTCUSDT"
              (Some 1000) (Some 3000) (Some 2) = [2; 1]%nat.
Proof.
  generalize (get_updates_range 10 sample_store sample_calls "BTCUSDT" 1000 3000 (Some 2)).
  vm_compute. intros H. apply H. intros n [= <-]. reflexivity.
Defined.

(** *** Non-positive limits *)

Lemma slice_from_nat {A} (l : list A) (k : nat) : slice_from l (Z.of_nat k) = drop k l.
Proof.
  unfold slice_from, slice_start. destruct (Z.ltb_spec (Z.of_nat k) 0) as [?|_]; [lia|].
  destruct (decide (k ≤ length l)%nat) as [Hk|Hk].
  - f_equal. lia.
  - rewrite !drop_ge; [done|lia|lia].
Qed.

Lemma limit_nonpositive {A} (l : list A) (k : nat) :
  (if Z.of_nat (length l) >? - Z.of_nat k then slice_from l (- - Z.of_nat k) else l) = drop k l.
Proof.
  rewrite Z.opp_involutive, slice_from_nat.
  destruct (Z.gtb_spec (Z.of_nat (length l)) (- Z.of_nat k)) as [_|Hle]; [done|].
  destruct l; [by rewrite drop_nil|simpl in Hle; lia].
Qed.

(** C10 (amended).  For every cache, symbol and bounds, a limit of [0] returns all
    matching records, exactly as no limit does, and a negative limit [-k] returns
    the matching records without their [k] first (oldest) ones. *)
Theorem get_updates_nonpositive_limit (c : BBOCache) (sym : string)
    (start_time end_time : option Z) (k : nat) :
  get_updates c sym start_time end_time (Some (- Z.of_nat k)) =
  drop k (get_updates c sym start_time end_time None).
Proof.
  unfold get_updates. destruct (_updates c !! sym) as [ups|]; [|by rewrite drop_nil].
  destruct start_time, end_time; try apply limit_nonpositive.
  by rewrite Z.opp_involutive, slice_from_nat.
Qed.

(** C10 as stated fails for negative limits: with one stored record, [limit = -1]
    returns nothing where no limit returns the record. *)
Lemma negative_limit_is_not_unlimited :
  ¬ nonpositive_limit_is_unlimited
      (add_updates [(5000, 0%nat)] sample_store (BBOCache_init 10)).2 "BTCUSDT" None None (-1).
Proof. intros H. specialize (H ltac:(lia)). vm_compute in H. discriminate H. Qed.

(** ** Capacity *)

Lemma valid_update_spec (σ : gmap loc bbo_dict) (sym : string) (l : loc) :
  valid_update σ sym l = true ↔
  ∃ d ts, σ !! l = Some d ∧ symbol d = Some sym ∧ timestamp d = Some ts ∧
          has_required_fields d = true.
Proof.
  unfold valid_update. split.
  - destruct (σ !! l) as [d|]; [|done].
    intros [[Hs Ht%bool_decide_eq_true]%andb_true_iff Hr]%andb_true_iff.
    apply bool_decide_eq_true in Hs. destruct Ht as [ts Ht]. eauto 10.
  - intros (d & ts & -> & Hs & Ht & Hr).
    rewrite Hr, !bool_decide_eq_true_2; [done|by rewrite Ht|done].
Qed.

Lemma convert_fields_required (d : bbo_dict) :
  has_required_fields d = true → has_required_fields (convert_fields d) = true.
Proof.
  unfold has_required_fields, convert_fields, fill; simpl.
  by destruct (bidPrice d), (bidQty d), (askPrice d), (askQty d).
Qed.

Lemma length_placed {A} (tss : list Z) (ts : Z) (x : A) (l : list A) :
  length (placed tss ts x l) = S (length l).
Proof.
  unfold placed, insert_at. destruct (placed_at_end tss ts).
  - rewrite length_app. simpl. lia.
  - rewrite <- (take_drop (bisect_left tss ts) l) at 3.
    rewrite !length_app. simpl. lia.
Qed.

Lemma placed_Permutation {A} (tss : list Z) (ts : Z) (x : A) (l : list A) :
  placed tss ts x l ≡ₚ x :: l.
Proof.
  unfold placed, insert_at. destruct (placed_at_end tss ts).
  - by rewrite Permutation_app_comm.
  - rewrite <- Permutation_middle. by rewrite take_drop.
Qed.

Lemma placed_at_end_le (tss : list Z) (ts : Z) :
  Forall (λ t, t ≤ ts) tss → placed_at_end tss ts = true.
Proof.
  intros Hall. unfold placed_at_end. destruct (last tss) as [t_last|] eqn:E; [|done].
  apply last_Some_elem_of in E. rewrite Forall_forall in Hall. specialize (Hall _ E).
  simpl in Hall. apply Z.geb_le. lia.
Qed.

Lemma most_recent_snoc {A} (n : Z) (xs : list A) (x : A) :
  1 ≤ n →
  evicted_series n (most_recent (Z.to_nat n) xs) ++ [x] = most_recent (Z.to_nat n) (xs ++ [x]).
Proof.
  intros Hn. unfold evicted_series, most_recent. rewrite length_drop, length_app. simpl.
  destruct (Z.geb_spec (Z.of_nat (length xs - (length xs - Z.to_nat n))) n) as [Hge|Hlt].
  - replace (tail (drop (length xs - Z.to_nat n) xs))
      with (drop 1 (drop (length xs - Z.to_nat n) xs)) by by destruct (drop _ xs).
    rewrite drop_drop, drop_app_le; [|lia]. do 2 f_equal. lia.
  - replace (length xs - Z.to_nat n)%nat with 0%nat by lia.
    replace (length xs + 1 - Z.to_nat n)%nat with 0%nat by lia. done.
Qed.

Lemma same_but_refl (sym : string) (c : BBOCache) : same_but sym c c.
Proof. by repeat split. Qed.

Lemma same_but_trans (sym : string) (c1 c2 c3 : BBOCache) :
  same_but sym c1 c2 → same_but sym c2 c3 → same_but sym c1 c3.
Proof.
  intros (Hm1 & Hl1 & Hs1) (Hm2 & Hl2 & Hs2). split; [congruence|]. split; [congruence|].
  intros sym' Hne. destruct (Hs2 sym' Hne) as [-> ->]. by apply Hs1.
Qed.

Lemma same_but_set_series (sym : string) (ups : list loc) (tss : list Z) (c : BBOCache) :
  same_but sym c (set_series sym ups tss c).
Proof.
  split; [done|]. split; [done|]. intros sym' Hne.
  by apply series_set_series_ne.
Qed.

Lemma ensure_symbol_series (sym : string) (c : BBOCache) :
  length (series (_updates c) sym) = length (series (_timestamps c) sym) →
  series (_updates (ensure_symbol sym c)) sym = series (_updates c) sym ∧
  series (_timestamps (ensure_symbol sym c)) sym = series (_timestamps c) sym ∧
  same_but sym c (ensure_symbol sym c).
Proof.
  intros Hlen. unfold ensure_symbol.
  destruct (_updates c !! sym) as [ups|] eqn:Eu; [by auto using same_but_refl|].
  destruct (series_set_series_eq sym [] [] c) as [-> ->].
  unfold series in Hlen |- * at 1. rewrite Eu in *. simpl in Hlen.
  symmetry in Hlen. apply nil_length_inv in Hlen.
  by auto using same_but_set_series.
Qed.

Lemma evict_oldest_series (sym : string) (c : BBOCache) :
  1 ≤ _max_items c →
  length (series (_updates c) sym) = length (series (_timestamps c) sym) →
  ∃ c', evict_oldest sym c = (c', Returned) ∧
    series (_updates c') sym = evicted_series (_max_items c) (series (_updates c) sym) ∧
    series (_timestamps c') sym = evicted_series (_max_items c) (series (_timestamps c) sym) ∧
    same_but sym c c'.
Proof.
  intros Hmax Hlen. unfold evict_oldest, evicted_series. rewrite <- Hlen.
  destruct (Z.geb_spec (Z.of_nat (length (series (_updates c) sym))) (_max_items c)) as [Hge|Hlt].
  - destruct (series (_updates c) sym) as [|l ups]; [simpl in Hge; lia|].
    destruct (series (_timestamps c) sym) as [|t tss]; [done|].
    eexists. split; [done|]. destruct (series_set_series_eq sym ups tss c) as [-> ->].
    by auto using same_but_set_series.
  - eexists. by auto using same_but_refl.
Qed.

Lemma place_series (sym : string) (ts : Z) (l : loc) (c : BBOCache) :
  series (_updates (place sym ts l c)) sym =
    placed (series (_timestamps c) sym) ts l (series (_updates c) sym) ∧
  series (_timestamps (place sym ts l c)) sym =
    placed (series (_timestamps c) sym) ts ts (series (_timestamps c) sym) ∧
  same_but sym c (place sym ts l c).
Proof.
  unfold place, placed, placed_at_end.
  destruct (match last _ with Some _ => _ | None => _ end);
    match goal with |- context [set_series sym ?u ?t c] =>
      destruct (series_set_series_eq sym u t c) as [-> ->] end;
    by auto using same_but_set_series.
Qed.

Lemma insert_update_series (sym : string) (ts : Z) (l : loc) (c : BBOCache) :
  1 ≤ _max_items c →
  length (series (_updates c) sym) = length (series (_timestamps c) sym) →
  let ups0 := evicted_series (_max_items c) (series (_updates c) sym) in
  let tss0 := evicted_series (_max_items c) (series (_timestamps c) sym) in
  ∃ c', _insert_update sym ts l c = (c', Returned) ∧
    series (_updates c') sym = placed tss0 ts l ups0 ∧
    series (_timestamps c') sym = placed tss0 ts ts tss0 ∧
    same_but sym c c'.
Proof.
  intros Hmax Hlen ups0 tss0. unfold _insert_update.
  destruct (ensure_symbol_series sym c Hlen) as (Eu1 & Et1 & Hsame1).
  pose proof Hsame1 as [Hm1 _].
  destruct (evict_oldest_series sym (ensure_symbol sym c)) as (c2 & -> & Eu2 & Et2 & Hsame2).
  { by rewrite Hm1. }
  { by rewrite Eu1, Et1. }
  destruct (place_series sym ts l c2) as (Eu3 & Et3 & Hsame3).
  eexists. split; [done|]. rewrite Eu3, Et3, Eu2, Et2, Eu1, Et1, Hm1.
  split; [done|]. split; [done|].
  eapply same_but_trans; [|exact Hsame3]. eapply same_but_trans; [exact Hsame1|exact Hsame2].
Qed.

Lemma store_latency_frame (sym : string) (ts : Z) (d : bbo_dict) (c : BBOCache) :
  _updates (store_latency sym ts d c) = _updates c ∧
  _timestamps (store_latency sym ts d c) = _timestamps c ∧
  _max_items (store_latency sym ts d c) = _max_items c.
Proof.
  unfold store_latency, append_latency.
  destruct (backendLatency d); [done|]. by destruct (latency d) as [[?|]|].
Qed.

Lemma cache_ok_length (σ : gmap loc bbo_dict) (c : BBOCache) (sym : string) :
  cache_ok σ c → length (series (_updates c) sym) = length (series (_timestamps c) sym).
Proof. intros Hc. destruct (Hc sym) as [H2 _]. by eapply Forall2_length. Qed.

(** What [add_update] does with a valid record when the capacity is positive. *)
Lemma add_update_valid (now : Z) (l : loc) (σ : gmap loc bbo_dict) (c : BBOCache) (sym : string) :
  valid_update σ sym l = true → 1 ≤ _max_items c → cache_ok σ c →
  let ups0 := evicted_series (_max_items c) (series (_updates c) sym) in
  let tss0 := evicted_series (_max_items c) (series (_timestamps c) sym) in
  ∃ σ' c' ts, add_update now l σ c = (σ', c', Returned) ∧ stamped σ l ts ∧
    series (_updates c') sym = placed tss0 ts l ups0 ∧
    series (_timestamps c') sym = placed tss0 ts ts tss0 ∧
    _max_items c' = _max_items c.
Proof.
  intros (d & ts & Ed & Hsym & Hts & Hreq)%valid_update_spec Hmax Hc ups0 tss0.
  unfold add_update. rewrite Ed, Hsym.
  assert (resolve_timestamp now d = ts) as -> by (unfold resolve_timestamp; by rewrite Hts).
  rewrite (convert_fields_required (set_timestamp ts d) Hreq).
  set (d' := convert_fields (set_timestamp ts d)).
  destruct (store_latency_frame sym ts d' c) as (Eu & Et & Em).
  destruct (insert_update_series sym ts l (store_latency sym ts d' c))
    as (c' & -> & Eu' & Et' & Hm' & _).
  { by rewrite Em. }
  { rewrite Eu, Et. by apply cache_ok_length with σ. }
  rewrite Eu, Et, Em in *. do 3 eexists. split; [done|]. simpl.
  split; [|done]. unfold stamped, record_timestamp. by rewrite Ed.
Qed.

Lemma add_update_valid_mono (now : Z) (l : loc) (σ : gmap loc bbo_dict) (c : BBOCache)
    (sym : string) (l' : loc) :
  valid_update σ sym l' = true → valid_update (add_update now l σ c).1.1 sym l' = true.
Proof.
  intros Hv. unfold add_update.
  destruct (σ !! l) as [d|] eqn:Ed; [|done].
  destruct (symbol d) as [s|] eqn:Es; [|done].
  assert (valid_update (<[l := convert_fields (set_timestamp (resolve_timestamp now d) d)]> σ)
                       sym l' = true) as Hv'.
  { destruct (decide (l = l')) as [<-|Hne].
    - apply valid_update_spec in Hv as (d0 & ts & Ed0 & Hsym & Hts & Hreq).
      rewrite Ed in Ed0. injection Ed0 as <-.
      apply valid_update_spec. eexists _, _. rewrite lookup_insert_eq.
      split; [done|]. split; [done|]. split; [done|].
      by apply (convert_fields_required (set_timestamp _ d)).
    - unfold valid_update in *. by rewrite lookup_insert_ne. }
  destruct (has_required_fields _); [|done].
  by destruct (_insert_update _ _ _ _) as [c' [|e]].
Qed.

Lemma add_updates_snoc (calls : list (Z * loc)) (call : Z * loc)
    (σ : gmap loc bbo_dict) (c : BBOCache) :
  add_updates (calls ++ [call]) σ c =
  (add_update call.1 call.2 (add_updates calls σ c).1 (add_updates calls σ c).2).1.
Proof. unfold add_updates. by rewrite foldl_app. Qed.

Lemma add_updates_valid_mono (calls : list (Z * loc)) (σ : gmap loc bbo_dict) (c : BBOCache)
    (sym : string) (l' : loc) :
  valid_update σ sym l' = true → valid_update (add_updates calls σ c).1 sym l' = true.
Proof.
  induction calls as [|call calls IH] using rev_ind; [done|].
  intros Hv. rewrite add_updates_snoc. by apply add_update_valid_mono, IH.
Qed.

Lemma add_updates_stamped (calls : list (Z * loc)) (σ : gmap loc bbo_dict) (c : BBOCache)
    (l' : loc) (t : Z) :
  stamped σ l' t → stamped (add_updates calls σ c).1 l' t.
Proof.
  induction calls as [|call calls IH] using rev_ind; [done|].
  intros Hst. rewrite add_updates_snoc. by apply add_update_stamped, IH.
Qed.

Lemma elem_of_tail {A} (x : A) (l : list A) : x ∈ tail l → x ∈ l.
Proof. destruct l; simpl; [done|]. intros. apply elem_of_cons. by right. Qed.

Lemma length_evicted_series {A} (C : Z) (l : list A) :
  1 ≤ C → (length l ≤ Z.to_nat C)%nat →
  S (length (evicted_series C l)) = min (S (length l)) (Z.to_nat C).
Proof.
  intros HC Hle. unfold evicted_series.
  destruct (Z.geb_spec (Z.of_nat (length l)) C) as [Hge|Hlt]; [|lia].
  destruct l as [|x l]; cbn [length tail] in *; lia.
Qed.

(** The state after a sequence of valid insertions for one symbol. *)
Lemma add_updates_valid (C : Z) (σ0 : gmap loc bbo_dict) (calls : list (Z * loc)) (sym : string) :
  1 ≤ C →
  forallb (λ call, valid_update σ0 sym call.2) calls = true →
  cache_ok (add_updates calls σ0 (BBOCache_init C)).1 (add_updates calls σ0 (BBOCache_init C)).2 ∧
  _max_items (add_updates calls σ0 (BBOCache_init C)).2 = C ∧
  length (series (_updates (add_updates calls σ0 (BBOCache_init C)).2) sym) =
    min (length calls) (Z.to_nat C) ∧
  (Sorted Z.le (arrival_times σ0 calls) →
   series (_updates (add_updates calls σ0 (BBOCache_init C)).2) sym =
     most_recent (Z.to_nat C) calls.*2 ∧
   series (_timestamps (add_updates calls σ0 (BBOCache_init C)).2) sym =
     most_recent (Z.to_nat C) (arrival_times σ0 calls)).
Proof.
  intros HC. induction calls as [|[now l] calls IH] using rev_ind; intros Hvalid.
  - split; [apply cache_ok_init|]. split; [done|]. unfold series; simpl.
    by rewrite !lookup_empty.
  - rewrite forallb_app in Hvalid. apply andb_true_iff in Hvalid as [Hv1 Hv2].
    simpl in Hv2. rewrite andb_true_r in Hv2.
    destruct (IH Hv1) as (Hc & Hm & Hlen & Hsorted). clear IH.
    rewrite add_updates_snoc. simpl.
    pose proof (cache_ok_add_update now l _ _ Hc) as Hc'.
    pose proof (add_updates_valid_mono calls σ0 (BBOCache_init C) sym l Hv2) as Hv.
    pose proof (λ l' t, add_updates_stamped calls σ0 (BBOCache_init C) l' t) as Hmono.
    destruct (add_updates calls σ0 (BBOCache_init C)) as [σ c]. simpl in *.
    destruct (add_update_valid now l σ c sym Hv ltac:(lia) Hc)
      as (σ' & c' & ts & E & Hst & Eu & Et & Em).
    rewrite E in *. simpl in *. rewrite Hm in *.
    split; [done|]. split; [done|]. split.
    + rewrite Eu, length_placed, length_evicted_series by lia.
      rewrite length_app. cbn [length]. lia.
    + intros Hs.
      assert (arrival_times σ0 (calls ++ [(now, l)]) = arrival_times σ0 calls ++ [ts]) as Ea.
      { unfold arrival_times. rewrite omap_app. simpl.
        apply valid_update_spec in Hv2 as (d0 & ts0 & Ed0 & _ & Hts0 & _).
        assert (stamped σ0 l ts0) as Hst0.
        { unfold stamped, record_timestamp. by rewrite Ed0. }
        pose proof (Hmono l ts0 Hst0) as Hst1.
        rewrite Hst0. unfold stamped in *. simpl. congruence. }
      rewrite Ea in *. apply (Sorted_StronglySorted _) in Hs.
      apply StronglySorted_app in Hs as (Hle & Hs & _).
      destruct (Hsorted (StronglySorted_Sorted Hs)) as [Eu0 Et0].
      assert (placed_at_end (evicted_series C (series (_timestamps c) sym)) ts = true) as Hend.
      { apply placed_at_end_le, Forall_forall. intros t Ht. apply Hle; [|by left].
        rewrite Et0 in Ht. unfold evicted_series in Ht.
        destruct (_ >=? _); [apply elem_of_tail in Ht|];
          unfold most_recent in Ht; by apply subseteq_drop in Ht. }
      rewrite Eu, Et. unfold placed. rewrite Hend, Eu0, Et0, fmap_app.
      by rewrite !most_recent_snoc.
Qed.

Lemma series_ok_oldest_first (σ : gmap loc bbo_dict) (oldest : loc) (rest : list loc)
    (tss : list Z) :
  series_ok σ (oldest :: rest) tss → oldest_first σ oldest rest.
Proof.
  intros [H2 Hs]. inversion H2 as [|? t ? tss' Hst H2']; subst.
  apply StronglySorted_cons in Hs as [Hle _]. exists t. split; [done|].
  clear H2. induction H2' as [|r t' rest tss' Hr H2' IH]; [constructor|].
  inversion Hle; subst. constructor; [by eauto|by apply IH].
Qed.

(** C3 (amended).  With a capacity [C >= 1] and valid records for one symbol:
    the series holds [min(n, C)] records after [n] insertions, hence never more
    than [C] and exactly [C] after [C + k]; when the records arrive in
    non-decreasing timestamp order the stored ones are the [C] most recent, i.e.
    the [k] oldest were evicted; and one more insertion, when the series is
    full, removes the stored record with the smallest timestamp and keeps the
    incoming one whatever its timestamp (below capacity it removes nothing). *)
Theorem capacity_eviction (C : Z) (σ0 : gmap loc bbo_dict) (calls : list (Z * loc))
    (sym : string) :
  1 ≤ C →
  forallb (λ call, valid_update σ0 sym call.2) calls = true →
  let (σ, c) := add_updates calls σ0 (BBOCache_init C) in
  let stored := series (_updates c) sym in
  length stored = min (length calls) (Z.to_nat C) ∧
  (Sorted Z.le (arrival_times σ0 calls) → stored = most_recent (Z.to_nat C) calls.*2) ∧
  ∀ now l, valid_update σ sym l = true →
    let stored' := series (_updates (add_update now l σ c).1.2) sym in
    if bool_decide (length stored < Z.to_nat C)%nat then stored' ≡ₚ l :: stored
    else ∃ oldest rest,
      stored = oldest :: rest ∧ oldest_first σ oldest rest ∧ stored' ≡ₚ l :: rest.
Proof.
  intros HC Hvalid.
  destruct (add_updates_valid C σ0 calls sym HC Hvalid) as (Hc & Hm & Hlen & Hsorted).
  destruct (add_updates calls σ0 (BBOCache_init C)) as [σ c]. simpl in *.
  split; [done|]. split; [by intros Hs; apply Hsorted|].
  intros now l Hv.
  destruct (add_update_valid now l σ c sym Hv ltac:(lia) Hc)
    as (σ' & c' & ts & -> & _ & Eu & _). simpl. rewrite Eu, Hm.
  unfold evicted_series. case_bool_decide as Hfull.
  - destruct (Z.geb_spec (Z.of_nat (length (series (_updates c) sym))) C); [lia|].
    apply placed_Permutation.
  - destruct (Z.geb_spec (Z.of_nat (length (series (_updates c) sym))) C); [|lia].
    pose proof (Hc sym) as Hs.
    destruct (series (_updates c) sym) as [|oldest rest]; [simpl in *; lia|].
    exists oldest, rest. split; [done|]. split; [|apply placed_Permutation].
    by eapply series_ok_oldest_first.
Qed.

Lemma capacity_eviction_witness :
  length (series (_updates (add_updates late_arrival_calls sample_store (BBOCache_init 2)).2)
                 "BTCUSDT") = 2%nat.
Proof.
  pose proof (capacity_eviction 2 sample_store late_arrival_calls "BTCUSDT"
                ltac:(lia) eq_refl) as H.
  destruct (add_updates late_arrival_calls sample_store (BBOCache_init 2)) as [σ c].
  destruct H as [Hlen _]. exact Hlen.
Defined.

(** C3 as stated fails when a record older than the stored ones arrives at a
    full series: with capacity 2 and arrivals 2000, 3000, 1000 the cache evicts
    2000 and keeps 1000 and 3000. *)
Lemma late_arrival_evicts_newer :
  ¬ keeps_the_most_recent 2 sample_store late_arrival_calls "BTCUSDT".
Proof.
  unfold keeps_the_most_recent.
  destruct (add_updates late_arrival_calls sample_store (BBOCache_init 2)) as [σ c] eqn:E.
  vm_compute in E. injection E as <- <-. intros [_ H].
  specialize (H 2%nat 0%nat 2000 1000).
  assert (2000 ≤ 1000) as Habs; [|lia].
  apply H; [by_compute..|reflexivity|reflexivity].
Qed.

(** ** Admission through the manager *)


(** C7 (amended).  For a record without an explicit timestamp the duplicate check
    of the manager answers "not contained", so that the record is always handed
    to [add_update]; it is [add_update] that then writes the resolved timestamp
    into the record: the exchange time if present, else the received timestamp
    if present, else the current wall-clock time. *)
Theorem timestamp_resolved_after_dedup (now : Z) (l : loc) (σ : gmap loc bbo_dict)
    (m : CacheManager) (d : bbo_dict) (sym : string) :
  σ !! l = Some d → symbol d = Some sym → timestamp d = None →
  contains_update σ m l = false ∧
  process_bbo_update now l σ m =
    ((add_update now l σ (cache m)).1.1, Manager (add_update now l σ (cache m)).1.2 true) ∧
  record_timestamp (add_update now l σ (cache m)).1.1 l =
    Some match exchange_time d with
         | Some e => e
         | None => default now (received_timestamp d)
         end.
Proof.
  intros Ed Hsym Hts.
  assert (∀ m', contains_update σ m' l = false) as Hnot.
  { intros m'. unfold contains_update. by rewrite Ed, Hsym, Hts. }
  split; [done|]. split.
  - unfold process_bbo_update, start. destruct m as [c [|]]; simpl; rewrite Hnot;
      by destruct (add_update now l σ c) as [[σ' c'] r].
  - unfold add_update. rewrite Ed, Hsym.
    assert (resolve_timestamp now d =
            match exchange_time d with
            | Some e => e
            | None => default now (received_timestamp d)
            end) as ->.
    { unfold resolve_timestamp. rewrite Hts.
      by destruct (exchange_time d), (received_timestamp d). }
    destruct (has_required_fields _);
      [destruct (_insert_update _ _ _ _) as [c' [|e]]|];
      unfold record_timestamp; simpl; by rewrite lookup_insert_eq.
Qed.

Lemma timestamp_resolved_after_dedup_witness :
  record_timestamp (add_update 5000 0%nat untimed_store (BBOCache_init 10)).1.1 0%nat =
  Some 1000.
Proof.
  exact (proj2 (proj2 (timestamp_resolved_after_dedup 5000 0%nat untimed_store
                         (CacheManager_init 10) (untimed_tick "BTCUSDT" 1000) "BTCUSDT"
                         eq_refl eq_refl eq_refl))).
Defined.

(** C7 as stated fails: after a first delivery was admitted under its resolved
    timestamp 1000, a second delivery with the same contents is not recognised
    by the duplicate check, which reads the still missing [timestamp]. *)
Lemma untimed_duplicate_not_detected :
  ¬ dedup_on_resolved_timestamp 5001
      (process_bbo_update 5000 0%nat untimed_store (CacheManager_init 10)).1
      (process_bbo_update 5000 0%nat untimed_store (CacheManager_init 10)).2 1%nat.
Proof.
  intros H.
  specialize (H (untimed_tick "BTCUSDT" 1000) "BTCUSDT"%string).
  assert (false = true) as Habs; [|discriminate Habs].
  apply H; [by vm_compute|reflexivity|by_compute].
Qed.

Example untimed_duplicate_stored_twice :
  let '(σ1, m1) := process_bbo_update 5000 0%nat untimed_store (CacheManager_init 10) in
  let '(σ2, m2) := process_bbo_update 5001 1%nat σ1 m1 in
  record_timestamp σ2 <$> get_updates (cache m2) "BTCUSDT" None None None =
    [Some 1000; Some 1000].
Proof. vm_compute. done. Qed.

(** The end-to-end scenario of the specification: admit 1000, 3000, 2000, query;
    admit 2000 again, the size stays 3; evict with a cutoff that excludes only
    1000. *)
Example end_to_end_scenario :
  let '(σ1, m1) := process_bbo_update 5000 0%nat sample_store (CacheManager_init 10) in
  let '(σ2, m2) := process_bbo_update 5001 1%nat σ1 m1 in
  let '(σ3, m3) := process_bbo_update 5002 2%nat σ2 m2 in
  let '(σ4, m4) := process_bbo_update 5003 2%nat σ3 m3 in
  record_timestamp σ3 <$> get_updates (cache m3) "BTCUSDT" None None None =
    [Some 1000; Some 2000; Some 3000] ∧
  total_updates (cache m4) = 3%nat ∧
  record_timestamp σ4 <$>
    get_updates (clear_old_data 5004 3504 (cache m4)) "BTCUSDT" None None None =
    [Some 2000; Some 3000].
Proof. vm_compute. done. Qed.

(** ** Who owns the records *)

Lemma get_updates_subseteq (c : BBOCache) (sym : string) (start_time end_time limit : option Z) :
  get_updates c sym start_time end_time limit ⊆ series (_updates c) sym.
Proof.
  unfold get_updates. destruct (_updates c !! sym) as [ups|] eqn:Eu; [|by intros ? ?%elem_of_nil].
  rewrite (series_lookup _ _ _ Eu).
  assert (∀ i j, match limit with
                 | Some n => if Z.of_nat (length (slice ups i j)) >? n
                             then slice_from (slice ups i j) (- n) else slice ups i j
                 | None => slice ups i j
                 end ⊆ ups) as Hbounded.
  { intros i j. assert (slice ups i j ⊆ ups) as Hsl.
    { unfold slice. etrans; [apply subseteq_take|apply subseteq_drop]. }
    destruct limit as [n|]; [|done]. destruct (_ >? _); [|done].
    etrans; [apply subseteq_drop|done]. }
  destruct start_time, end_time; try apply Hbounded.
  destruct limit; [apply subseteq_drop|done].
Qed.

Lemma with_timestamp_formatted_idemp (fmt : Z → raising string) (d : bbo_dict) :
  with_timestamp_formatted fmt (with_timestamp_formatted fmt d) = with_timestamp_formatted fmt d.
Proof.
  unfold with_timestamp_formatted. destruct (timestamp d) as [t|] eqn:E; [|by rewrite E].
  destruct (fmt t) eqn:Ef; simpl; by rewrite E, ?Ef.
Qed.

Lemma with_timestamp_formatted_timestamp (fmt : Z → raising string) (d : bbo_dict) :
  timestamp (with_timestamp_formatted fmt d) = timestamp d.
Proof.
  unfold with_timestamp_formatted. destruct (timestamp d) as [t|] eqn:E; [|done].
  by destruct (fmt t).
Qed.

(** One pass of the loop body: it writes into the dict behind [update], or
    raises and leaves the store as it is. *)
Lemma format_update_spec (fmt : Z → raising string) (σ : gmap loc bbo_dict) (update : loc) :
  match format_update fmt σ update with
  | (σ', Returned) =>
      formattable fmt σ update = true ∧
      ∀ l, σ' !! l =
           if decide (l = update) then with_timestamp_formatted fmt <$> σ !! l else σ !! l
  | (σ', Raised _) => σ' = σ ∧ formattable fmt σ update = false
  end.
Proof.
  unfold format_update, formattable, record_timestamp, with_timestamp_formatted.
  destruct (σ !! update) as [d|] eqn:Ed; simpl.
  - destruct (timestamp d) as [t|] eqn:Et; simpl.
    + destruct (fmt t) as [s|e] eqn:Ef; [|done]. split; [done|]. intros l.
      case_decide as Hl; [subst l|by rewrite lookup_insert_ne].
      rewrite lookup_insert_eq, Ed. simpl. by rewrite Et, Ef.
    + split; [done|]. intros l. case_decide as Hl; [subst l|done].
      rewrite Ed. simpl. by rewrite Et.
  - split; [done|]. intros l. case_decide as Hl; [subst l|done]. by rewrite Ed.
Qed.

Lemma formattable_written (fmt : Z → raising string) (σ σ' : gmap loc bbo_dict)
    (written : list loc) :
  (∀ l, σ' !! l =
        if decide (l ∈ written) then with_timestamp_formatted fmt <$> σ !! l else σ !! l) →
  ∀ l, formattable fmt σ' l = formattable fmt σ l.
Proof.
  intros H l. unfold formattable, record_timestamp. rewrite H.
  destruct (decide (l ∈ written)); [|done].
  destruct (σ !! l) as [d|]; [|done]. simpl. by rewrite with_timestamp_formatted_timestamp.
Qed.

Lemma forallb_formattable_written (fmt : Z → raising string) (σ σ' : gmap loc bbo_dict)
    (written us : list loc) :
  (∀ l, σ' !! l =
        if decide (l ∈ written) then with_timestamp_formatted fmt <$> σ !! l else σ !! l) →
  forallb (formattable fmt σ') us = forallb (formattable fmt σ) us.
Proof.
  intros H. induction us as [|u us IH]; [done|]. cbn [forallb].
  by rewrite IH, (formattable_written fmt σ σ' written H u).
Qed.

(** The loop: it completes exactly when every timestamp can be formatted, and
    has then written into every dict of the list; when it raises, it has
    written into the dicts before the one it failed on. *)
Lemma format_updates_spec (fmt : Z → raising string) (updates : list loc)
    (σ : gmap loc bbo_dict) :
  match format_updates fmt σ updates with
  | (σ', Returned) =>
      forallb (formattable fmt σ) updates = true ∧
      ∀ l, σ' !! l =
           if decide (l ∈ updates) then with_timestamp_formatted fmt <$> σ !! l else σ !! l
  | (σ', Raised _) =>
      forallb (formattable fmt σ) updates = false ∧
      ∃ written, written ⊆ updates ∧
        ∀ l, σ' !! l =
             if decide (l ∈ written) then with_timestamp_formatted fmt <$> σ !! l else σ !! l
  end.
Proof.
  revert σ. induction updates as [|update updates IH]; intros σ.
  - cbn. split; [done|]. intros l.
    destruct (decide (l ∈ [])) as [Hin|_]; [by apply elem_of_nil in Hin|done].
  - cbn [format_updates forallb].
    pose proof (format_update_spec fmt σ update) as H1.
    destruct (format_update fmt σ update) as [σ1 [|e]].
    + destruct H1 as [Hf H1].
      assert (∀ l, σ1 !! l =
                   if decide (l ∈ [update])
                   then with_timestamp_formatted fmt <$> σ !! l else σ !! l) as H1'.
      { intros l. rewrite H1. destruct (decide (l = update)) as [->|Hne];
          destruct (decide (_ ∈ [update])) as [Hin|Hnin]; try done.
        - exfalso. apply Hnin. by left.
        - by apply list_elem_of_singleton in Hin. }
      assert (forallb (formattable fmt σ1) updates = forallb (formattable fmt σ) updates) as Hsame.
      { by apply forallb_formattable_written with [update]. }
      assert (∀ (written : list loc) (σ' : gmap loc bbo_dict),
        (∀ l, σ' !! l =
              if decide (l ∈ written)
              then with_timestamp_formatted fmt <$> σ1 !! l else σ1 !! l) →
        ∀ l, σ' !! l =
             if decide (l ∈ update :: written)
             then with_timestamp_formatted fmt <$> σ !! l else σ !! l) as Hcompose.
      { intros written σ' H l. rewrite H, H1.
        destruct (decide (l ∈ written)) as [Hw|Hw], (decide (l = update)) as [Hu|Hu],
                 (decide (l ∈ update :: written)) as [Hc|Hc];
          rewrite elem_of_cons in Hc; try done; try (exfalso; tauto).
        destruct (σ !! l) as [d|]; simpl; [|done]. by rewrite with_timestamp_formatted_idemp. }
      specialize (IH σ1). rewrite Hsame in IH. rewrite Hf. cbn [andb].
      destruct (format_updates fmt σ1 updates) as [σ' [|e]].
      * destruct IH as [Hall IH]. split; [done|]. by apply Hcompose.
      * destruct IH as (Hall & written & Hsub & IH). split; [done|].
        exists (update :: written). split; [|by apply Hcompose].
        intros l [->|Hl]%elem_of_cons; [by left|right; by apply Hsub].
    + destruct H1 as [-> Hf]. rewrite Hf. split; [done|].
      exists []. split; [by intros l ?%elem_of_nil|]. intros l.
      destruct (decide (l ∈ [])) as [Hin|_]; [by apply elem_of_nil in Hin|done].
Qed.



Example api_call_changes_stored_record :
  let c := (add_updates sample_calls sample_store (BBOCache_init 10)).2 in
  let '(σ', resp) :=
    api_get_updates sample_format 5000 sample_store c (Some "BTCUSDT"%string)
                    (Given 0) Absent Absent in
  resp = Success "BTCUSDT" 0 None 3 (get_updates c "BTCUSDT" None None None) ∧
  timestamp_formatted <$> σ' !! 0%nat = Some (Some "19700101 00:00:01.000"%string) ∧
  timestamp_formatted <$> sample_store !! 0%nat = Some None.
Proof. vm_compute. done. Qed.

(** ** Eviction by age *)

(** C5 at the failing input: capacity 2, records with latency arriving in the
    order 3000, 1000, 2000.  The series keeps 2000 and 3000, the latency tracker
    keeps the samples of 1000 and 2000; [clear_old_data] with cutoff 1500 finds
    nothing to drop in the series and so leaves the sample of 1000 in place. *)
Theorem stale_latency_sample_survives :
  let c := (add_updates latency_calls latency_store (BBOCache_init 2)).2 in
  series (_timestamps c) "BTCUSDT" = [2000; 3000] ∧
  series (_latency_stats c) "BTCUSDT" = [(1000, Some 5); (2000, Some 6)] ∧
  series (_latency_stats (clear_old_data 5000 3500 c)) "BTCUSDT" =
    [(1000, Some 5); (2000, Some 6)].
Proof. vm_compute. done. Qed.

(** ** Latency *)



(** The same message on its way to the clients: the prices have become floats
    and are printed as such; a price that is not a number stops the message. *)
Example clock_skew_msg_on_the_wire :
  (match _handle_bbo_data decimal_float "BTCUSDT" clock_skew_msg 1000 with
   | Value web_data => Some (format_dict 1001 web_data)
   | Raises _ => None
   end) = Some (Wire.mk "BTCUSDT" "50000.1" "0.5" "50000.9" "1.2" 2000 1001 (Some (-1000))) ∧
  _handle_bbo_data decimal_float "BTCUSDT"
    (Raw.mk None (Some "n/a") (Some "0.5") (Some "50000.90") (Some "1.2")
            (Some 2000) None None) 1000 = Raises "ValueError" ∧
  _handle_bbo_data decimal_float "BTCUSDT"
    (Raw.mk None (Some "50000.10") None (Some "50000.90") (Some "1.2")
            (Some 2000) None None) 1000 = Raises "KeyError".
Proof. vm_compute. done. Qed.

Example late_latency_is_attached :
  latency (_process_bbo_update "BTCUSDT"
             (Raw.mk (Some "BTCUSDT") (Some "1") (Some "1") (Some "2") (Some "1")
                     (Some 1000) None None) 20000) = Some (Some 19000).
Proof. reflexivity. Qed.

(** ** Throttling *)

Example burst_schedule_sends_only_the_first :
  (run burst_schedule MessageQueueProcessor_init).2 =
    [("bbo_update"%string,
      Formatted (Wire.mk "BTCUSDT" "50000.10" "0.5" "50000.90" "1.2" 990 999 (Some 5)))] ∧
  throttled_message (run burst_schedule MessageQueueProcessor_init).1 =
    Some (Wire.mk "BTCUSDT" "50002.00" "0.5" "50002.80" "1.2" 1003 1010 (Some 3)).
Proof. vm_compute. done. Qed.


Lemma process_dict_throttled (p t since : Z) (n : nat) (m : message) (q : MessageQueueProcessor) :
  is_dict m = true → 0 < unfinished_tasks q → since < throttle_interval q →
  ∃ w, formatted p m = Some w ∧
    process_message p t since n m q =
      (MQP (message_queue q) (unfinished_tasks q - 1) (last_message_time q)
           (throttle_interval q) (Some w) (Some (Formatted w)), [], Returned).
Proof.
  intros Hd Hu Hs.
  assert ((since >=? throttle_interval q) = false) as Hge by (rewrite Z.geb_leb; apply Z.leb_gt; lia).
  assert ((unfinished_tasks q <=? 0) = false) as Hle by (apply Z.leb_gt; lia).
  destruct m as [| d | r |]; try discriminate Hd; eexists; (split; [reflexivity|]);
    unfold process_message, throttle, task_done; rewrite Hge; simpl; by rewrite Hle.
Qed.

Lemma process_batch_throttled (p t since : Z) (n : nat) (msgs : list message)
    (q : MessageQueueProcessor) :
  msgs ≠ [] → forallb is_dict msgs = true →
  Z.of_nat (length msgs) ≤ unfinished_tasks q → since < throttle_interval q →
  ∃ m w, last msgs = Some m ∧ formatted p m = Some w ∧
    process_batch p t since n msgs q =
      (MQP (message_queue q) (unfinished_tasks q - Z.of_nat (length msgs))
           (last_message_time q) (throttle_interval q) (Some w) (Some (Formatted w)),
       [], Returned).
Proof.
  revert q. induction msgs as [|m rest IH]; intros q Hne Hall Hu Hs; [done|].
  cbn [forallb] in Hall. apply andb_true_iff in Hall as [Hm Hrest].
  cbn [length] in Hu.
  destruct (process_dict_throttled p t since n m q Hm ltac:(lia) Hs) as (w & Hw & E).
  cbn [process_batch]. rewrite E.
  destruct rest as [|m' rest'].
  - exists m, w. split; [done|]. split; [done|]. simpl. do 3 f_equal; lia.
  - destruct (IH (MQP (message_queue q) (unfinished_tasks q - 1) (last_message_time q)
                      (throttle_interval q) (Some w) (Some (Formatted w))))
      as (m_last & w_last & Hlast & Hw_last & ->); [done|done|cbn [length] in *; simpl; lia|done|].
    exists m_last, w_last. split; [done|]. split; [done|]. simpl.
    do 3 f_equal; cbn [length]; lia.
Qed.

(** *** The update series is cleared exactly *)

Lemma series_insert_eq {A} (m : gmap string (list A)) (sym : string) (l : list A) :
  series (<[sym := l]> m) sym = l.
Proof. unfold series. by rewrite lookup_insert_eq. Qed.

Lemma series_insert_ne {A} (m : gmap string (list A)) (sym sym' : string) (l : list A) :
  sym ≠ sym' → series (<[sym := l]> m) sym' = series m sym'.
Proof. intros Hne. unfold series. by rewrite lookup_insert_ne. Qed.

Lemma fresh_enough_transfer (σ : gmap loc bbo_dict) (cutoff : Z) (Q : Z → Prop) (b : bool)
    (us : list loc) (ts : list Z) :
  Forall2 (stamped σ) us ts → Forall Q ts →
  (∀ t, Q t → (cutoff <=? t) = b) →
  Forall (λ l, fresh_enough σ cutoff l = b) us.
Proof.
  intros H2 HQ Hb. induction H2 as [|l t us ts Hl H2 IH]; [constructor|].
  inversion HQ; subst. constructor; [|by apply IH].
  unfold fresh_enough. rewrite Hl. by apply Hb.
Qed.

Lemma drop_old (σ : gmap loc bbo_dict) (ups : list loc) (tss : list Z) (cutoff : Z) :
  series_ok σ ups tss →
  drop (bisect_left tss cutoff) ups = filter (fresh_enough σ cutoff) ups ∧
  drop (bisect_left tss cutoff) tss = filter (λ t, cutoff ≤ t) tss.
Proof.
  intros [H2 Hs]. destruct (bisect_left_split tss cutoff Hs) as (Hi & Hlt & Hge).
  set (i := bisect_left tss cutoff) in *. split.
  - rewrite <- (take_drop i ups) at 2. rewrite filter_app.
    rewrite (filter_none (fresh_enough σ cutoff) (take i ups)), (filter_all _ (drop i ups)); [done| |].
    + eapply fresh_enough_transfer; [by apply Forall2_drop|exact Hge|intros t Ht; simpl in Ht; lia].
    + eapply fresh_enough_transfer; [by apply Forall2_take|exact Hlt|intros t Ht; simpl in Ht; lia].
  - rewrite <- (take_drop i tss) at 2. rewrite filter_app.
    assert (filter (λ t, cutoff ≤ t) (take i tss) = []) as ->.
    { clear -Hlt. induction Hlt as [|t l Ht Hl IH]; [done|].
      rewrite filter_cons_False; [done|lia]. }
    assert (filter (λ t, cutoff ≤ t) (drop i tss) = drop i tss) as ->; [|done].
    clear -Hge. induction Hge as [|t l Ht Hl IH]; [done|].
    rewrite filter_cons_True; [by rewrite IH|done].
Qed.

Lemma clear_symbol_eq (σ : gmap loc bbo_dict) (cutoff : Z) (sym : string) (c : BBOCache) :
  cache_ok σ c →
  series (_updates (clear_symbol cutoff sym c)) sym =
    filter (fresh_enough σ cutoff) (series (_updates c) sym) ∧
  series (_timestamps (clear_symbol cutoff sym c)) sym =
    filter (λ t, cutoff ≤ t) (series (_timestamps c) sym).
Proof.
  intros Hc. pose proof (Hc sym) as Hs. destruct (drop_old σ _ _ cutoff Hs) as [Eu Et].
  unfold clear_symbol.
  destruct (series (_timestamps c) sym) as [|t tss] eqn:E.
  - destruct Hs as [H2 _]. apply Forall2_length, nil_length_inv in H2. by rewrite H2, E.
  - rewrite <- Eu, <- Et. destruct (Nat.ltb_spec 0 (bisect_left (t :: tss) cutoff)) as [Hpos|Hz].
    + cbn [_updates _timestamps]. by rewrite !series_insert_eq.
    + replace (bisect_left (t :: tss) cutoff) with 0%nat by lia. by rewrite E.
Qed.

Lemma clear_symbol_ne (cutoff : Z) (sym sym' : string) (c : BBOCache) :
  sym ≠ sym' →
  series (_updates (clear_symbol cutoff sym c)) sym' = series (_updates c) sym' ∧
  series (_timestamps (clear_symbol cutoff sym c)) sym' = series (_timestamps c) sym'.
Proof.
  intros Hne. unfold clear_symbol.
  destruct (series (_timestamps c) sym); [done|]. destruct (_ <? _)%nat; [|done].
  cbn [_updates _timestamps]. by rewrite !series_insert_ne.
Qed.

Lemma cache_ok_clear_symbol (σ : gmap loc bbo_dict) (cutoff : Z) (sym : string) (c : BBOCache) :
  cache_ok σ c → cache_ok σ (clear_symbol cutoff sym c).
Proof.
  intros Hc sym'. destruct (decide (sym = sym')) as [<-|Hne].
  - pose proof (Hc sym) as Hs. unfold clear_symbol.
    destruct (series (_timestamps c) sym) as [|t tss] eqn:E; [by rewrite E|].
    destruct (_ <? _)%nat; [|by rewrite E].
    cbn [_updates _timestamps]. rewrite !series_insert_eq. by apply series_ok_drop.
  - destruct (clear_symbol_ne cutoff sym sym' c Hne) as [-> ->]. apply Hc.
Qed.

Lemma clear_symbols_eq (σ : gmap loc bbo_dict) (cutoff : Z) (sym : string)
    (syms : list string) (c : BBOCache) :
  NoDup syms → cache_ok σ c →
  let c' := foldl (λ c s, clear_symbol cutoff s c) c syms in
  series (_updates c') sym =
    (if decide (sym ∈ syms) then filter (fresh_enough σ cutoff) (series (_updates c) sym)
     else series (_updates c) sym) ∧
  series (_timestamps c') sym =
    (if decide (sym ∈ syms) then filter (λ t, cutoff ≤ t) (series (_timestamps c) sym)
     else series (_timestamps c) sym).
Proof.
  intros Hnd. revert c. induction Hnd as [|s syms Hs Hnd IH]; intros c Hc.
  - destruct (decide (sym ∈ [])) as [Hin|_]; [by apply elem_of_nil in Hin|done].
  - cbv zeta. cbn [foldl].
    destruct (IH (clear_symbol cutoff s c) (cache_ok_clear_symbol σ cutoff s c Hc)) as [Eu Et].
    cbv zeta in Eu, Et. rewrite Eu, Et. clear Eu Et.
    destruct (decide (sym ∈ syms)) as [H1|H1], (decide (sym ∈ s :: syms)) as [H2|H2];
      rewrite elem_of_cons in H2.
    + assert (s ≠ sym) as Hne by (intros ->; done).
      by destruct (clear_symbol_ne cutoff s sym c Hne) as [-> ->].
    + exfalso. tauto.
    + assert (sym = s) as -> by tauto. by apply clear_symbol_eq.
    + assert (s ≠ sym) as Hne by (intros ->; tauto).
      by destruct (clear_symbol_ne cutoff s sym c Hne) as [-> ->].
Qed.

(** The part of C5 the code keeps: in a consistent cache [clear_old_data]
    removes from the update series of every symbol, and from its timestamp
    index, exactly the entries older than the cutoff, keeping the others in
    order. *)
Lemma clear_old_data_series (σ : gmap loc bbo_dict) (now max_age_ms : Z) (c : BBOCache)
    (sym : string) :
  cache_ok σ c →
  series (_updates (clear_old_data now max_age_ms c)) sym =
    filter (fresh_enough σ (now - max_age_ms)) (series (_updates c) sym) ∧
  series (_timestamps (clear_old_data now max_age_ms c)) sym =
    filter (λ t, now - max_age_ms ≤ t) (series (_timestamps c) sym).
Proof.
  intros Hc. unfold clear_old_data.
  destruct (clear_symbols_eq σ (now - max_age_ms) sym (elements (dom (_updates c))) c
              (NoDup_elements _) Hc) as [Eu Et].
  cbv zeta in Eu, Et. rewrite Eu, Et.
  destruct (decide (sym ∈ elements (dom (_updates c)))) as [Hin|Hin]; [done|].
  rewrite elem_of_elements, elem_of_dom in Hin.
  pose proof (Hc sym) as [H2 _]. unfold series in *.
  destruct (_updates c !! sym) as [ups|]; [by destruct Hin|]. simpl in *.
  apply Forall2_length in H2. symmetry in H2. apply nil_length_inv in H2. by rewrite H2.
Qed.

(** *** The duplicate check away from the falsy keys *)

Lemma bisect_left_finds (a : list Z) (x : Z) :
  StronglySorted Z.le a →
  ((bisect_left a x <? length a)%nat && (item a (bisect_left a x) =? x) = true ↔ x ∈ a).
Proof.
  intros Hs. destruct (bisect_left_split a x Hs) as (Hi & Hlt & Hge).
  set (i := bisect_left a x) in *. split.
  - intros [Hlen Heq]%andb_true_iff. apply Nat.ltb_lt in Hlen. apply Z.eqb_eq in Heq.
    destruct (lookup_lt_is_Some_2 a i Hlen) as [t Ht].
    rewrite (item_lookup _ _ _ Ht) in Heq. subst t. by eapply list_elem_of_lookup_2.
  - intros Hin. rewrite <- (take_drop i a) in Hin. apply elem_of_app in Hin as [Hin|Hin].
    { rewrite Forall_forall in Hlt. specialize (Hlt _ Hin). simpl in Hlt. lia. }
    pose proof Hs as Hs'. rewrite <- (take_drop i a) in Hs'.
    apply StronglySorted_app in Hs' as (_ & _ & Hsd).
    destruct (drop i a) as [|h rest] eqn:Ed; [by apply elem_of_nil in Hin|].
    assert (a !! i = Some h) as Hh.
    { rewrite <- (Nat.add_0_r i), <- lookup_drop, Ed. done. }
    apply andb_true_iff. split.
    + apply Nat.ltb_lt. by eapply lookup_lt_Some.
    + apply Z.eqb_eq. rewrite (item_lookup _ _ _ Hh).
      inversion Hge as [|? ? Hxh _]; subst.
      apply StronglySorted_cons in Hsd as [Hall _].
      apply elem_of_cons in Hin as [->|Hin]; [done|].
      rewrite Forall_forall in Hall. specialize (Hall _ Hin). lia.
Qed.

(** With a non-empty symbol and a non-zero timestamp, [contains_update] tells
    whether the timestamp is in the index of the symbol. *)
Lemma contains_update_spec (σ : gmap loc bbo_dict) (m : CacheManager) (l : loc)
    (d : bbo_dict) (sym : string) (ts : Z) :
  cache_ok σ (cache m) →
  σ !! l = Some d → symbol d = Some sym → timestamp d = Some ts →
  sym ≠ ""%string → ts ≠ 0 →
  (contains_update σ m l = true ↔ ts ∈ series (_timestamps (cache m)) sym).
Proof.
  intros Hc Ed Hsym Hts Hne Hnz. unfold contains_update. rewrite Ed, Hsym, Hts.
  rewrite bool_decide_eq_false_2 by done.
  replace (ts =? 0) with false by (symmetry; by apply Z.eqb_neq).
  cbn [orb]. pose proof (Hc sym) as [_ Hs]. unfold series in *.
  destruct (_timestamps (cache m) !! sym) as [[|t tss]|]; simpl in *.
  - split; [done|by intros ?%elem_of_nil].
  - by apply (bisect_left_finds (t :: tss) ts).
  - split; [done|by intros ?%elem_of_nil].
Qed.


(** * Further properties of the cache *)

(** ** What [add_update] admits and what it turns away *)

Lemma insert_update_count (sym : string) (ts : Z) (l : loc) (c : BBOCache) :
  _insert_count (_insert_update sym ts l c).1 = _insert_count c.
Proof.
  assert (_insert_count (ensure_symbol sym c) = _insert_count c) as H1.
  { unfold ensure_symbol. by destruct (_updates c !! sym). }
  assert (∀ c0, _insert_count (evict_oldest sym c0).1 = _insert_count c0) as H2.
  { intros c0. unfold evict_oldest. destruct (_ >=? _); [|done].
    by destruct (series (_updates c0) sym), (series (_timestamps c0) sym). }
  assert (∀ c0, _insert_count (place sym ts l c0) = _insert_count c0) as H3.
  { intros c0. unfold place. by destruct (match last _ with Some _ => _ | None => _ end). }
  unfold _insert_update. specialize (H2 (ensure_symbol sym c)).
  destruct (evict_oldest sym (ensure_symbol sym c)) as [c1 [|e]]; simpl in *.
  - by rewrite H3, H2.
  - by rewrite H2.
Qed.

Lemma store_latency_count (sym : string) (ts : Z) (d : bbo_dict) (c : BBOCache) :
  _insert_count (store_latency sym ts d c) = _insert_count c.
Proof.
  unfold store_latency, append_latency.
  destruct (backendLatency d); [done|]. by destruct (latency d) as [[?|]|].
Qed.

Lemma add_update_admitted (now : Z) (l : loc) (σ : gmap loc bbo_dict) (c : BBOCache)
    (d : bbo_dict) (sym : string) :
  σ !! l = Some d → symbol d = Some sym →
  has_required_fields (convert_fields d) = true →
  1 ≤ _max_items c →
  length (series (_updates c) sym) = length (series (_timestamps c) sym) →
  let ts := resolve_timestamp now d in
  let d' := convert_fields (set_timestamp ts d) in
  let ups0 := evicted_series (_max_items c) (series (_updates c) sym) in
  let tss0 := evicted_series (_max_items c) (series (_timestamps c) sym) in
  ∃ c', add_update now l σ c = (<[l := d']> σ, c', Returned) ∧
    series (_updates c') sym = placed tss0 ts l ups0 ∧
    series (_timestamps c') sym = placed tss0 ts ts tss0 ∧
    _insert_count c' = _insert_count c + 1 ∧
    _max_items c' = _max_items c ∧
    _latency_stats c' = _latency_stats (store_latency sym ts d' c) ∧
    ∀ sym', sym' ≠ sym →
      series (_updates c') sym' = series (_updates c) sym' ∧
      series (_timestamps c') sym' = series (_timestamps c) sym'.
Proof.
  intros Ed Hsym Hreq Hmax Hlen ts d' ups0 tss0.
  unfold add_update. rewrite Ed, Hsym. fold ts. fold d'.
  assert (has_required_fields d' = true) as -> by exact Hreq.
  destruct (store_latency_frame sym ts d' c) as (Eu & Et & Em).
  pose proof (insert_update_count sym ts l (store_latency sym ts d' c)) as Hcnt.
  destruct (insert_update_series sym ts l (store_latency sym ts d' c))
    as (c' & E & Eu' & Et' & Hm' & Hl' & Hs').
  { by rewrite Em. }
  { by rewrite Eu, Et. }
  rewrite E in *. rewrite Eu, Et, Em in *. eexists. split; [done|]. simpl in *.
  split; [done|]. split; [done|]. split; [by rewrite Hcnt, store_latency_count|].
  split; [done|]. split; [done|]. done.
Qed.

Lemma add_update_not_admissible (now : Z) (l : loc) (σ : gmap loc bbo_dict) (c : BBOCache) :
  admissible σ l = false →
  (add_update now l σ c).1.2 = c ∧ (add_update now l σ c).2 = Returned.
Proof.
  unfold admissible, add_update. destruct (σ !! l) as [d|]; [|done].
  destruct (symbol d) as [sym|]; [|done].
  rewrite bool_decide_eq_true_2 by done. cbn [andb]. intros Hreq.
  assert (has_required_fields (convert_fields (set_timestamp (resolve_timestamp now d) d)) =
          has_required_fields (convert_fields d)) as -> by done.
  by rewrite Hreq.
Qed.

(** X1.  [add_update] turns away, without raising and without touching the
    cache, every argument that is not a dict, has no [symbol], or lacks one of
    the four fields after the snake_case keys were converted.  A dict turned
    away for a missing field has nevertheless been written to: it carries the
    resolved timestamp and the camelCase copies made before the check. *)
Theorem add_update_rejects (now : Z) (l : loc) (σ : gmap loc bbo_dict) (c : BBOCache) :
  admissible σ l = false →
  (add_update now l σ c).1.2 = c ∧ (add_update now l σ c).2 = Returned ∧
  (add_update now l σ c).1.1 =
    match σ !! l with
    | Some d =>
        match symbol d with
        | Some _ => <[l := convert_fields (set_timestamp (resolve_timestamp now d) d)]> σ
        | None => σ
        end
    | None => σ
    end.
Proof.
  intros Hadm. destruct (add_update_not_admissible now l σ c Hadm) as [Hc Hr].
  split; [done|]. split; [done|].
  unfold admissible in Hadm. unfold add_update. destruct (σ !! l) as [d|]; [|done].
  destruct (symbol d) as [sym|]; [|done].
  rewrite bool_decide_eq_true_2 in Hadm by done. cbn [andb] in Hadm.
  assert (has_required_fields (convert_fields (set_timestamp (resolve_timestamp now d) d)) =
          has_required_fields (convert_fields d)) as -> by done.
  by rewrite Hadm.
Qed.

Lemma add_update_rejects_witness :
  (add_update 5000 7%nat sample_store (BBOCache_init 10)).1.2 = BBOCache_init 10.
Proof. exact (proj1 (add_update_rejects 5000 7%nat sample_store (BBOCache_init 10) eq_refl)). Defined.

Lemma store_latency_last (sym : string) (ts : Z) (d : bbo_dict) (lat : option Z)
    (c : BBOCache) :
  1 ≤ _max_items c → backendLatency d = Some lat →
  last (series (_latency_stats (store_latency sym ts d c)) sym) = Some (ts, lat).
Proof.
  intros Hmax Hb. unfold store_latency, append_latency. rewrite Hb.
  cbn [_latency_stats]. rewrite series_insert_eq.
  destruct (Z.gtb_spec (Z.of_nat (length (series (_latency_stats c) sym ++ [(ts, lat)])))
                       (_max_items c)) as [Hgt|_]; [|by rewrite last_snoc].
  destruct (series (_latency_stats c) sym) as [|e stats]; cbn [app tail length] in *; [lia|].
  by rewrite last_snoc.
Qed.

(** X2.  A dict with a [symbol] and the four fields, in either spelling, is
    admitted (capacity at least 1): the caller's own dict object is stored
    under the resolved timestamp, which is written into it together with the
    camelCase copies of the snake_case fields; the insert counter grows by
    one; and a [backendLatency] it carries is the newest sample of the
    tracker. *)
Theorem add_update_admits (now : Z) (l : loc) (σ : gmap loc bbo_dict) (c : BBOCache)
    (d : bbo_dict) (sym : string) :
  σ !! l = Some d → symbol d = Some sym →
  has_required_fields (convert_fields d) = true →
  1 ≤ _max_items c →
  length (series (_updates c) sym) = length (series (_timestamps c) sym) →
  let '(σ', c', r) := add_update now l σ c in
  r = Returned ∧
  σ' !! l = Some (convert_fields (set_timestamp (resolve_timestamp now d) d)) ∧
  l ∈ series (_updates c') sym ∧
  resolve_timestamp now d ∈ series (_timestamps c') sym ∧
  _insert_count c' = _insert_count c + 1 ∧
  (∀ lat, backendLatency d = Some lat →
     last (series (_latency_stats c') sym) = Some (resolve_timestamp now d, lat)).
Proof.
  intros Ed Hsym Hreq Hmax Hlen.
  destruct (add_update_admitted now l σ c d sym Ed Hsym Hreq Hmax Hlen)
    as (c' & -> & Eu & Et & Hcnt & _ & Hlat & _).
  split; [done|]. split; [by rewrite lookup_insert_eq|].
  split; [rewrite Eu; eapply elem_of_Permutation_proper; [apply placed_Permutation|by left]|].
  split; [rewrite Et; eapply elem_of_Permutation_proper; [apply placed_Permutation|by left]|].
  split; [done|]. intros lat Hb. rewrite Hlat.
  by apply store_latency_last.
Qed.

Lemma add_update_admits_witness :
  snake_store !! 0%nat = Some (snake_tick "ETHUSDT" 7000) ∧
  _insert_count (add_update 9000 0%nat snake_store (BBOCache_init 10)).1.2 = 1.
Proof.
  split; [reflexivity|].
  pose proof (add_update_admits 9000 0%nat snake_store (BBOCache_init 10)
                (snake_tick "ETHUSDT" 7000) "ETHUSDT" eq_refl eq_refl eq_refl
                ltac:(vm_compute; discriminate) eq_refl) as H.
  destruct (add_update 9000 0%nat snake_store (BBOCache_init 10)) as [[σ' c'] r].
  destruct H as (_ & _ & _ & _ & H & _). exact H.
Defined.

(** ** Capacity, for every sequence of calls *)

Lemma append_latency_bound (sym sym' : string) (ts : Z) (lat : option Z) (c : BBOCache) :
  (length (series (_latency_stats c) sym') ≤ Z.to_nat (_max_items c))%nat →
  (length (series (_latency_stats (append_latency sym ts lat c)) sym')
     ≤ Z.to_nat (_max_items c))%nat.
Proof.
  intros Hb. unfold append_latency. cbn [_latency_stats].
  destruct (decide (sym = sym')) as [<-|Hne]; [|by rewrite series_insert_ne].
  rewrite series_insert_eq.
  destruct (Z.gtb_spec (Z.of_nat (length (series (_latency_stats c) sym ++ [(ts, lat)])))
                       (_max_items c)) as [Hgt|Hle];
    rewrite length_app in *; cbn [length] in *.
  - destruct (series (_latency_stats c) sym) as [|e stats]; cbn [app tail length] in *; [lia|].
    rewrite length_app. cbn [length]. lia.
  - lia.
Qed.

Lemma store_latency_bound (sym sym' : string) (ts : Z) (d : bbo_dict) (c : BBOCache) :
  (length (series (_latency_stats c) sym') ≤ Z.to_nat (_max_items c))%nat →
  (length (series (_latency_stats (store_latency sym ts d c)) sym')
     ≤ Z.to_nat (_max_items c))%nat.
Proof.
  intros Hb. unfold store_latency.
  destruct (backendLatency d); [by apply append_latency_bound|].
  destruct (latency d) as [[?|]|]; [by apply append_latency_bound|done|done].
Qed.

Lemma insert_update_frame (sym : string) (ts : Z) (l : loc) (c : BBOCache) :
  _max_items (_insert_update sym ts l c).1 = _max_items c ∧
  _latency_stats (_insert_update sym ts l c).1 = _latency_stats c.
Proof.
  assert (_max_items (ensure_symbol sym c) = _max_items c ∧
          _latency_stats (ensure_symbol sym c) = _latency_stats c) as [H1 H1'].
  { unfold ensure_symbol. by destruct (_updates c !! sym). }
  assert (∀ c0, _max_items (evict_oldest sym c0).1 = _max_items c0 ∧
                _latency_stats (evict_oldest sym c0).1 = _latency_stats c0) as H2.
  { intros c0. unfold evict_oldest. destruct (_ >=? _); [|done].
    by destruct (series (_updates c0) sym), (series (_timestamps c0) sym). }
  assert (∀ c0, _max_items (place sym ts l c0) = _max_items c0 ∧
                _latency_stats (place sym ts l c0) = _latency_stats c0) as H3.
  { intros c0. unfold place. by destruct (match last _ with Some _ => _ | None => _ end). }
  unfold _insert_update. destruct (H2 (ensure_symbol sym c)) as [H2a H2b].
  destruct (evict_oldest sym (ensure_symbol sym c)) as [c1 [|e]]; simpl in *.
  - destruct (H3 c1) as [-> ->]. by rewrite H2a, H2b.
  - by rewrite H2a, H2b.
Qed.

(** The length of the series of [sym'] after [_insert_update] for [sym]. *)
Lemma insert_update_bound (sym sym' : string) (ts : Z) (l : loc) (c : BBOCache) :
  length (series (_updates c) sym) = length (series (_timestamps c) sym) →
  (length (series (_updates c) sym') ≤ Z.to_nat (_max_items c))%nat →
  (length (series (_updates (_insert_update sym ts l c).1) sym')
     ≤ Z.to_nat (_max_items c))%nat.
Proof.
  intros Hlen Hb.
  destruct (ensure_symbol_series sym c Hlen) as (Eu1 & Et1 & Hm1 & _ & Hs1).
  assert (series (_updates (ensure_symbol sym c)) sym' = series (_updates c) sym') as Eu1'.
  { destruct (decide (sym' = sym)) as [->|Hne]; [done|]. by apply Hs1. }
  unfold _insert_update, evict_oldest. rewrite Eu1, Et1, Hm1.
  destruct (Z.geb_spec (Z.of_nat (length (series (_updates c) sym))) (_max_items c)) as [Hge|Hlt].
  - destruct (series (_updates c) sym) as [|u ups] eqn:Eu; [cbn [fst]; by rewrite Eu1'|].
    destruct (series (_timestamps c) sym) as [|t tss] eqn:Et; [simpl in Hlen; lia|]. cbn [fst].
    destruct (place_series sym ts l (set_series sym ups tss (ensure_symbol sym c)))
      as (Eu3 & _ & _ & _ & Hs3).
    destruct (series_set_series_eq sym ups tss (ensure_symbol sym c)) as [Eu2 _].
    destruct (decide (sym' = sym)) as [->|Hne].
    + rewrite Eu3, length_placed, Eu2. rewrite Eu in Hb. cbn [length] in Hb. lia.
    + destruct (Hs3 sym' Hne) as [-> _].
      destruct (series_set_series_ne sym sym' ups tss (ensure_symbol sym c)) as [-> _]; [done|].
      by rewrite Eu1'.
  - cbn [fst]. destruct (place_series sym ts l (ensure_symbol sym c)) as (Eu3 & _ & _ & _ & Hs3).
    destruct (decide (sym' = sym)) as [->|Hne].
    + rewrite Eu3, length_placed, Eu1. lia.
    + destruct (Hs3 sym' Hne) as [-> _]. by rewrite Eu1'.
Qed.

Lemma add_update_bound (now : Z) (l : loc) (σ : gmap loc bbo_dict) (c : BBOCache) (sym' : string) :
  cache_ok σ c →
  (length (series (_updates c) sym') ≤ Z.to_nat (_max_items c))%nat →
  (length (series (_latency_stats c) sym') ≤ Z.to_nat (_max_items c))%nat →
  _max_items (add_update now l σ c).1.2 = _max_items c ∧
  (length (series (_updates (add_update now l σ c).1.2) sym') ≤ Z.to_nat (_max_items c))%nat ∧
  (length (series (_latency_stats (add_update now l σ c).1.2) sym')
     ≤ Z.to_nat (_max_items c))%nat.
Proof.
  intros Hc Hu Hl. unfold add_update.
  destruct (σ !! l) as [d|]; [|done]. destruct (symbol d) as [sym|]; [|done].
  set (ts := resolve_timestamp now d). set (d' := convert_fields (set_timestamp ts d)).
  destruct (has_required_fields d'); [|done].
  destruct (store_latency_frame sym ts d' c) as (Eu & Et & Em).
  pose proof (store_latency_bound sym sym' ts d' c Hl) as Hl'.
  pose proof (insert_update_frame sym ts l (store_latency sym ts d' c)) as [Hm Hlat].
  pose proof (insert_update_bound sym sym' ts l (store_latency sym ts d' c)) as Hb.
  rewrite Eu, Et, Em in Hb. specialize (Hb (cache_ok_length σ c sym Hc) Hu).
  destruct (_insert_update sym ts l (store_latency sym ts d' c)) as [c' [|e]];
    simpl in *; rewrite ?Hm, ?Hlat, ?Em; done.
Qed.

Lemma add_updates_bounds (C : Z) (σ0 : gmap loc bbo_dict) (calls : list (Z * loc))
    (sym : string) :
  _max_items (add_updates calls σ0 (BBOCache_init C)).2 = C ∧
  (length (series (_updates (add_updates calls σ0 (BBOCache_init C)).2) sym)
     ≤ Z.to_nat C)%nat ∧
  (length (series (_latency_stats (add_updates calls σ0 (BBOCache_init C)).2) sym)
     ≤ Z.to_nat C)%nat.
Proof.
  induction calls as [|[now l] calls IH] using rev_ind.
  - unfold series; simpl. rewrite !lookup_empty. simpl. split; [done|]. lia.
  - rewrite add_updates_snoc. cbn [fst snd].
    pose proof (cache_ok_add_updates calls σ0 (BBOCache_init C) (cache_ok_init σ0 C)) as Hc.
    destruct IH as (Hm & Hu & Hl).
    destruct (add_updates calls σ0 (BBOCache_init C)) as [σ c]. simpl in *.
    rewrite <- Hm in Hu, Hl.
    destruct (add_update_bound now l σ c sym Hc Hu Hl) as (Hm' & Hu' & Hl').
    rewrite Hm' , Hm in *. done.
Qed.

(** ** The stored records, in order *)

(** [_insert_update] adds at most the record it was given. *)
Lemma insert_update_subseteq (sym sym' : string) (ts : Z) (l : loc) (c : BBOCache) :
  length (series (_updates c) sym) = length (series (_timestamps c) sym) →
  series (_updates (_insert_update sym ts l c).1) sym' ⊆ l :: series (_updates c) sym'.
Proof.
  intros Hlen.
  destruct (ensure_symbol_series sym c Hlen) as (Eu1 & Et1 & Hm1 & _ & Hs1).
  assert (series (_updates (ensure_symbol sym c)) sym' = series (_updates c) sym') as Eu1'.
  { destruct (decide (sym' = sym)) as [->|Hne]; [done|]. by apply Hs1. }
  assert (∀ ups : list loc, ups ⊆ l :: ups) as Hcons by (intros ups x Hx; by right).
  unfold _insert_update, evict_oldest. rewrite Eu1, Et1, Hm1.
  destruct (Z.geb_spec (Z.of_nat (length (series (_updates c) sym))) (_max_items c)) as [Hge|Hlt].
  - destruct (series (_updates c) sym) as [|u ups] eqn:Eu; [cbn [fst]; by rewrite Eu1'|].
    destruct (series (_timestamps c) sym) as [|t tss] eqn:Et; [simpl in Hlen; lia|]. cbn [fst].
    destruct (place_series sym ts l (set_series sym ups tss (ensure_symbol sym c)))
      as (Eu3 & _ & _ & _ & Hs3).
    destruct (series_set_series_eq sym ups tss (ensure_symbol sym c)) as [Eu2 _].
    destruct (decide (sym' = sym)) as [->|Hne].
    + rewrite Eu3, Eu2, Eu. intros x Hx. rewrite placed_Permutation in Hx.
      rewrite !elem_of_cons in *. tauto.
    + destruct (Hs3 sym' Hne) as [-> _].
      destruct (series_set_series_ne sym sym' ups tss (ensure_symbol sym c)) as [-> _]; [done|].
      by rewrite Eu1'.
  - cbn [fst]. destruct (place_series sym ts l (ensure_symbol sym c)) as (Eu3 & _ & _ & _ & Hs3).
    destruct (decide (sym' = sym)) as [->|Hne].
    + rewrite Eu3, Eu1. intros x Hx. by rewrite placed_Permutation in Hx.
    + destruct (Hs3 sym' Hne) as [-> _]. by rewrite Eu1'.
Qed.

Lemma add_update_subseteq (now : Z) (l : loc) (σ : gmap loc bbo_dict) (c : BBOCache)
    (sym' : string) :
  cache_ok σ c →
  series (_updates (add_update now l σ c).1.2) sym' ⊆ l :: series (_updates c) sym'.
Proof.
  intros Hc.
  assert (series (_updates c) sym' ⊆ l :: series (_updates c) sym') as Hcons
    by (intros x Hx; by right).
  unfold add_update.
  destruct (σ !! l) as [d|]; [|done]. destruct (symbol d) as [sym|]; [|done].
  set (ts := resolve_timestamp now d). set (d' := convert_fields (set_timestamp ts d)).
  destruct (has_required_fields d'); [|done].
  destruct (store_latency_frame sym ts d' c) as (Eu & Et & Em).
  pose proof (insert_update_subseteq sym sym' ts l (store_latency sym ts d' c)) as Hsub.
  rewrite Eu, Et in Hsub. specialize (Hsub (cache_ok_length σ c sym Hc)).
  by destruct (_insert_update sym ts l (store_latency sym ts d' c)) as [c' [|e]].
Qed.

(** Every stored record was passed to [add_update]. *)
Lemma add_updates_subseteq (C : Z) (σ0 : gmap loc bbo_dict) (calls : list (Z * loc))
    (sym : string) :
  series (_updates (add_updates calls σ0 (BBOCache_init C)).2) sym ⊆ calls.*2.
Proof.
  induction calls as [|[now l] calls IH] using rev_ind.
  - unfold series; simpl. rewrite lookup_empty. by intros x ?%elem_of_nil.
  - rewrite add_updates_snoc. cbn [fst snd].
    pose proof (cache_ok_add_updates calls σ0 (BBOCache_init C) (cache_ok_init σ0 C)) as Hc.
    destruct (add_updates calls σ0 (BBOCache_init C)) as [σ c]. cbn [fst snd] in *.
    intros x Hx%(add_update_subseteq now l σ c sym Hc).
    rewrite fmap_app, elem_of_app. cbn. rewrite list_elem_of_singleton.
    apply elem_of_cons in Hx as [->|Hx]; [by right|left; by apply IH].
Qed.

(** Valid records of one symbol, no more of them than the capacity: all are
    stored. *)
Lemma add_updates_within_capacity (C : Z) (σ0 : gmap loc bbo_dict) (calls : list (Z * loc))
    (sym : string) :
  1 ≤ C →
  forallb (λ call, valid_update σ0 sym call.2) calls = true →
  (length calls ≤ Z.to_nat C)%nat →
  series (_updates (add_updates calls σ0 (BBOCache_init C)).2) sym ≡ₚ calls.*2.
Proof.
  intros HC. induction calls as [|[now l] calls IH] using rev_ind; intros Hvalid Hlen.
  - unfold series; simpl. by rewrite lookup_empty.
  - rewrite forallb_app in Hvalid. apply andb_true_iff in Hvalid as [Hv1 Hv2].
    simpl in Hv2. rewrite andb_true_r in Hv2.
    rewrite length_app in Hlen. cbn [length] in Hlen.
    specialize (IH Hv1 ltac:(lia)).
    destruct (add_updates_valid C σ0 calls sym HC Hv1) as (Hc & Hm & Hl & _).
    pose proof (add_updates_valid_mono calls σ0 (BBOCache_init C) sym l Hv2) as Hv.
    rewrite add_updates_snoc. cbn [fst snd].
    destruct (add_updates calls σ0 (BBOCache_init C)) as [σ c]. cbn [fst snd] in *.
    destruct (add_update_valid now l σ c sym Hv ltac:(lia) Hc)
      as (σ' & c' & ts & -> & _ & Eu & _). cbn [fst snd].
    rewrite Eu, placed_Permutation, Hm. unfold evicted_series.
    destruct (Z.geb_spec (Z.of_nat (length (series (_updates c) sym))) C); [lia|].
    rewrite IH, fmap_app. cbn. by rewrite Permutation_app_comm.
Qed.

(** C1.  After any finite sequence of [add_update] calls on an empty cache of any
    capacity, with timestamps arriving in any order, the plain
    [get_updates(symbol)] returns the stored records of the symbol, each of
    which was passed to [add_update]; every query, whatever its bounds and
    limit, returns stored records that all carry a timestamp, in
    non-decreasing timestamp order.  One more admitted record is among the
    stored ones afterwards, wherever its timestamp lies, and costs at most the
    first stored record, when the series is full; and valid records of the
    symbol, no more of them than the capacity, are all stored. *)
Theorem get_updates_sorted (C : Z) (σ0 : gmap loc bbo_dict) (calls : list (Z * loc))
    (sym : string) :
  let (σ, c) := add_updates calls σ0 (BBOCache_init C) in
  let stored := series (_updates c) sym in
  get_updates c sym None None None = stored ∧
  stored ⊆ calls.*2 ∧
  (∀ start_time end_time limit,
     get_updates c sym start_time end_time limit ⊆ stored ∧
     ∃ tss : list Z,
       record_timestamp σ <$> get_updates c sym start_time end_time limit = Some <$> tss ∧
       Sorted Z.le tss) ∧
  (∀ now l d,
     1 ≤ C → σ !! l = Some d → symbol d = Some sym →
     has_required_fields (convert_fields d) = true →
     let '(σ', c', _) := add_update now l σ c in
     get_updates c' sym None None None ≡ₚ l :: evicted_series C stored ∧
     ∃ tss : list Z,
       record_timestamp σ' <$> get_updates c' sym None None None = Some <$> tss ∧
       Sorted Z.le tss ∧ resolve_timestamp now d ∈ tss) ∧
  (1 ≤ C →
   forallb (λ call, valid_update σ0 sym call.2) calls = true →
   (length calls ≤ Z.to_nat C)%nat →
   stored ≡ₚ calls.*2).
Proof.
  pose proof (cache_ok_add_updates calls σ0 (BBOCache_init C) (cache_ok_init σ0 C)) as Hc.
  pose proof (add_updates_subseteq C σ0 calls sym) as Hsub.
  pose proof (add_updates_within_capacity C σ0 calls sym) as Hall.
  destruct (add_updates_bounds C σ0 calls sym) as (Hm & _ & _).
  destruct (add_updates calls σ0 (BBOCache_init C)) as [σ c]. cbn [fst snd] in *.
  assert (∀ c0, get_updates c0 sym None None None = series (_updates c0) sym) as Hq.
  { intros c0. unfold get_updates, series. by destruct (_updates c0 !! sym). }
  cbv zeta. split; [apply Hq|]. split; [done|]. split; [|split; [|done]].
  - intros start_time end_time limit. split; [apply get_updates_subseteq|].
    destruct (get_updates_series_ok σ c sym start_time end_time limit Hc) as [tss Hs].
    exists tss. by apply series_ok_timestamps.
  - intros now l d HC Ed Hsym Hreq.
    destruct (add_update_admitted now l σ c d sym Ed Hsym Hreq ltac:(lia)
                (cache_ok_length σ c sym Hc))
      as (c' & E & Eu & Et & _).
    pose proof (cache_ok_add_update now l σ c Hc) as Hc'.
    rewrite E in *. cbn [fst snd] in Hc'. rewrite Hm in Eu, Et.
    rewrite Hq, Eu. split; [apply placed_Permutation|].
    exists (series (_timestamps c') sym).
    destruct (series_ok_timestamps _ _ _ (Hc' sym)) as [Hts Hsorted].
    rewrite Eu in Hts. split; [done|]. split; [done|].
    rewrite Et. eapply elem_of_Permutation_proper; [apply placed_Permutation|]. by left.
Qed.

Lemma get_updates_sorted_witness :
  get_updates (add_updates sample_calls sample_store (BBOCache_init 10)).2
              "BTCUSDT" None None None ≡ₚ sample_calls.*2 ∧
  ∃ tss, record_timestamp (add_updates sample_calls sample_store (BBOCache_init 10)).1 <$>
           get_updates (add_updates sample_calls sample_store (BBOCache_init 10)).2
                       "BTCUSDT" None None None = Some <$> tss ∧
         Sorted Z.le tss.
Proof.
  pose proof (get_updates_sorted 10 sample_store sample_calls "BTCUSDT") as H.
  destruct (add_updates sample_calls sample_store (BBOCache_init 10)) as [σ c].
  cbn [fst snd]. destruct H as (Hq & _ & Hsorted & _ & Hall).
  split.
  - rewrite Hq. apply Hall; [lia|reflexivity|vm_compute; lia].
  - by destruct (Hsorted None None None) as [_ Hs].
Defined.

(** X3.  Whatever is passed to [add_update], in whatever order and for whatever
    symbols, no series and no latency tracker ever holds more than the
    configured number of records; with a capacity of 0 or less they stay
    empty. *)
Theorem capacity_never_exceeded (C : Z) (σ0 : gmap loc bbo_dict) (calls : list (Z * loc))
    (sym : string) :
  let c := (add_updates calls σ0 (BBOCache_init C)).2 in
  (length (get_updates c sym None None None) ≤ Z.to_nat C)%nat ∧
  (length (series (_latency_stats c) sym) ≤ Z.to_nat C)%nat.
Proof.
  cbv zeta. destruct (add_updates_bounds C σ0 calls sym) as (_ & Hu & Hl).
  split; [|done]. unfold get_updates, series in *.
  by destruct (_updates _ !! sym).
Qed.

(** X4.  With a capacity of 0 or less the cache can store nothing: every call
    of [add_update] with an admissible dict raises [IndexError] (which the
    manager catches and logs), whatever was passed before. *)
Theorem zero_capacity_raises (C : Z) (σ0 : gmap loc bbo_dict) (calls : list (Z * loc))
    (now : Z) (l : loc) :
  C ≤ 0 →
  admissible (add_updates calls σ0 (BBOCache_init C)).1 l = true →
  (add_update now l (add_updates calls σ0 (BBOCache_init C)).1
              (add_updates calls σ0 (BBOCache_init C)).2).2 = Raised "IndexError".
Proof.
  intros HC Hadm.
  pose proof (cache_ok_add_updates calls σ0 (BBOCache_init C) (cache_ok_init σ0 C)) as Hc.
  pose proof (λ sym, add_updates_bounds C σ0 calls sym) as Hb.
  destruct (add_updates calls σ0 (BBOCache_init C)) as [σ c]. simpl in *.
  unfold admissible in Hadm. unfold add_update.
  destruct (σ !! l) as [d|]; [|done].
  apply andb_true_iff in Hadm as [[sym Hsym]%bool_decide_eq_true Hreq]. rewrite Hsym.
  set (ts := resolve_timestamp now d). set (d' := convert_fields (set_timestamp ts d)).
  assert (has_required_fields d' = true) as -> by exact Hreq.
  destruct (store_latency_frame sym ts d' c) as (Eu & Et & Em).
  destruct (Hb sym) as (Hm & Hu & _).
  assert (series (_updates c) sym = []) as Hnil.
  { apply nil_length_inv. lia. }
  pose proof (cache_ok_length σ c sym Hc) as Hlen.
  destruct (ensure_symbol_series sym (store_latency sym ts d' c)) as (Eu1 & _ & Hm1 & _).
  { by rewrite Eu, Et. }
  unfold _insert_update, evict_oldest. rewrite Eu1, Hm1, Eu, Em, Hnil. cbn [length].
  destruct (Z.geb_spec (Z.of_nat 0) (_max_items c)) as [_|Hlt]; [done|lia].
Qed.

Lemma zero_capacity_raises_witness :
  (add_update 5000 0%nat sample_store (BBOCache_init 0)).2 = Raised "IndexError".
Proof.
  exact (zero_capacity_raises 0 sample_store [] 5000 0%nat ltac:(lia) eq_refl).
Defined.

(** ** Queries with open bounds and with a limit *)

Lemma slice_from_most_recent {A} (l : list A) (n : Z) :
  0 < n → slice_from l (- n) = most_recent (Z.to_nat n) l.
Proof.
  intros Hn. unfold slice_from, slice_start, most_recent.
  destruct (Z.ltb_spec (- n) 0); [|lia]. f_equal. lia.
Qed.

Lemma length_most_recent {A} (l : list A) (n : nat) : (length (most_recent n l) ≤ n)%nat.
Proof. unfold most_recent. rewrite length_drop. lia. Qed.

(** X5.  A positive limit is an upper bound on the number of records any query
    returns, with or without time bounds. *)
Theorem positive_limit_bounds_result (c : BBOCache) (sym : string)
    (start_time end_time : option Z) (n : positive) :
  (length (get_updates c sym start_time end_time (Some (Z.pos n))) ≤ Pos.to_nat n)%nat.
Proof.
  assert (∀ l : list loc,
    (length (if Z.of_nat (length l) >? Z.pos n then slice_from l (- Z.pos n) else l)
       ≤ Pos.to_nat n)%nat) as Hbounded.
  { intros l. destruct (Z.gtb_spec (Z.of_nat (length l)) (Z.pos n)); [|lia].
    rewrite slice_from_most_recent by lia.
    etrans; [apply length_most_recent|]. lia. }
  unfold get_updates. destruct (_updates c !! sym) as [ups|]; [|simpl; lia].
  destruct start_time, end_time; try apply Hbounded.
  rewrite slice_from_most_recent by lia. etrans; [apply length_most_recent|]. lia.
Qed.

Lemma within_transfer (σ : gmap loc bbo_dict) (s e : option Z) (Q : Z → Prop) (b : bool)
    (us : list loc) (ts : list Z) :
  Forall2 (stamped σ) us ts → Forall Q ts →
  (∀ t, Q t → match s with Some s => s <=? t | None => true end &&
              match e with Some e => t <=? e | None => true end = b) →
  Forall (λ l, within σ s e l = b) us.
Proof.
  intros H2 HQ Hb. induction H2 as [|l t us ts Hl H2 IH]; [constructor|].
  inversion HQ; subst. constructor; [|by apply IH].
  unfold within. rewrite Hl. by apply Hb.
Qed.

Lemma slice_filter {A} (P : A → bool) (l : list A) (i j : nat) :
  (i ≤ j)%nat →
  Forall (λ x, P x = false) (take i l) →
  Forall (λ x, P x = true) (slice l i j) →
  Forall (λ x, P x = false) (drop j l) →
  slice l i j = filter P l.
Proof.
  intros Hij Hpre Hmid Hpost. unfold slice in *.
  rewrite <- (take_drop i l) at 2.
  rewrite <- (take_drop (j - i) (drop i l)) at 2.
  rewrite drop_drop. replace (i + (j - i))%nat with j by lia.
  rewrite !filter_app, (filter_none _ _ Hpre), (filter_all _ _ Hmid), (filter_none _ _ Hpost).
  by rewrite app_nil_r.
Qed.

Lemma open_range_slice (σ : gmap loc bbo_dict) (ups : list loc) (tss : list Z)
    (start_time end_time : option Z) :
  series_ok σ ups tss → is_Some start_time ∨ is_Some end_time →
  slice ups (match start_time with Some s => bisect_left tss s | None => 0%nat end)
            (match end_time with Some e => bisect_right tss e | None => length tss end) =
  filter (within σ start_time end_time) ups.
Proof.
  intros Hs Hsome. destruct start_time as [s|], end_time as [e|].
  - apply (range_slice σ ups tss s e Hs).
  - destruct Hs as [H2 Hs]. destruct (bisect_left_split tss s Hs) as (Hi & Hlt & Hge).
    apply slice_filter; [done| | |].
    + eapply within_transfer; [by apply Forall2_take|exact Hlt|].
      intros t Ht; simpl in Ht. rewrite andb_true_r. apply Z.leb_gt. lia.
    + unfold slice. apply Forall_take.
      eapply within_transfer; [by apply Forall2_drop|exact Hge|].
      intros t Ht; simpl in Ht. rewrite andb_true_r. apply Z.leb_le. lia.
    + rewrite <- (Forall2_length _ _ _ H2), drop_all. constructor.
  - destruct Hs as [H2 Hs]. destruct (bisect_right_split tss e Hs) as (Hj & Hle & Hgt).
    apply slice_filter; [lia|by rewrite take_0| |].
    + unfold slice. rewrite drop_0, Nat.sub_0_r.
      eapply within_transfer; [by apply Forall2_take|exact Hle|].
      intros t Ht; simpl in Ht. apply Z.leb_le. lia.
    + eapply within_transfer; [by apply Forall2_drop|exact Hgt|].
      intros t Ht; simpl in Ht. apply Z.leb_gt. lia.
  - by destruct Hsome as [[? ?]|[? ?]].
Qed.

Lemma get_updates_within (σ : gmap loc bbo_dict) (c : BBOCache) (sym : string)
    (start_time end_time limit : option Z) :
  cache_ok σ c → (∀ n, limit = Some n → 0 < n) →
  get_updates c sym start_time end_time limit =
  limited limit (filter (within σ start_time end_time) (series (_updates c) sym)).
Proof.
  intros Hc Hlimit. pose proof (Hc sym) as Hs. unfold get_updates.
  destruct (_updates c !! sym) as [ups|] eqn:Eu.
  - rewrite (series_lookup _ _ _ Eu) in *.
    destruct (decide (is_Some start_time ∨ is_Some end_time)) as [Hsome|Hnone].
    + pose proof (open_range_slice σ ups _ start_time end_time Hs Hsome) as E.
      assert (match limit with
              | Some n => if Z.of_nat (length (filter (within σ start_time end_time) ups)) >? n
                          then slice_from (filter (within σ start_time end_time) ups) (- n)
                          else filter (within σ start_time end_time) ups
              | None => filter (within σ start_time end_time) ups
              end = limited limit (filter (within σ start_time end_time) ups)) as El.
      { destruct limit as [n|]; [|done]. apply limit_most_recent. by apply Hlimit. }
      destruct start_time, end_time; try (rewrite E; exact El).
      exfalso. by destruct Hsome as [[? ?]|[? ?]].
    + destruct start_time; [exfalso; apply Hnone; eauto|].
      destruct end_time; [exfalso; apply Hnone; eauto|].
      rewrite (filter_all (within σ None None) ups).
      * destruct limit as [n|]; [|done]. apply slice_from_most_recent. by apply Hlimit.
      * destruct Hs as [H2 _]. clear -H2.
        induction H2 as [|l t us ts Hl H2 IH]; constructor; [|done].
        unfold within. by rewrite Hl.
  - unfold series. rewrite Eu. simpl. by destruct limit.
Qed.

(** X6.  In a cache filled by [add_update] calls, a query with one or both
    bounds left out returns exactly the stored records on the given side of
    the bound (all of them without bounds), in stored order, cut down to the
    most recent [limit] ones when a positive limit is given. *)
Theorem get_updates_open_bounds (C : Z) (σ0 : gmap loc bbo_dict) (calls : list (Z * loc))
    (sym : string) (start_time end_time limit : option Z) :
  (∀ n, limit = Some n → 0 < n) →
  let (σ, c) := add_updates calls σ0 (BBOCache_init C) in
  get_updates c sym start_time end_time limit =
  limited limit (filter (within σ start_time end_time) (series (_updates c) sym)).
Proof.
  intros Hlimit.
  pose proof (cache_ok_add_updates calls σ0 (BBOCache_init C) (cache_ok_init σ0 C)) as Hc.
  destruct (add_updates calls σ0 (BBOCache_init C)) as [σ c]. by apply get_updates_within.
Qed.

Lemma get_updates_open_bounds_witness :
  get_updates (add_updates sample_calls sample_store (BBOCache_init 10)).2 "BTCUSDT"
              (Some 1500) None (Some 1) = [1%nat].
Proof.
  generalize (get_updates_open_bounds 10 sample_store sample_calls "BTCUSDT"
                (Some 1500) None (Some 1)).
  vm_compute. intros H. apply H. intros n [= <-]. reflexivity.
Defined.

(** ** Eviction by age, and the symbol list *)

(** X7.  In a cache filled by [add_update] calls, [clear_old_data] removes from
    the series of every symbol exactly the records with a timestamp before
    [now - max_age_ms]; the records that remain are the same objects in the
    same order, and a query shows exactly them. *)
Theorem clear_old_data_removes_the_old (C : Z) (σ0 : gmap loc bbo_dict)
    (calls : list (Z * loc)) (now max_age_ms : Z) (sym : string) :
  let (σ, c) := add_updates calls σ0 (BBOCache_init C) in
  get_updates (clear_old_data now max_age_ms c) sym None None None =
  filter (fresh_enough σ (now - max_age_ms)) (get_updates c sym None None None).
Proof.
  pose proof (cache_ok_add_updates calls σ0 (BBOCache_init C) (cache_ok_init σ0 C)) as Hc.
  destruct (add_updates calls σ0 (BBOCache_init C)) as [σ c]. simpl in Hc.
  destruct (clear_old_data_series σ now max_age_ms c sym Hc) as [Eu _].
  assert (∀ c0, get_updates c0 sym None None None = series (_updates c0) sym) as Hq.
  { intros c0. unfold get_updates, series. by destruct (_updates c0 !! sym). }
  by rewrite !Hq.
Qed.

Lemma clear_symbol_dom (cutoff : Z) (sym : string) (c : BBOCache) :
  sym ∈ dom (_updates c) → dom (_updates (clear_symbol cutoff sym c)) = dom (_updates c).
Proof.
  intros Hin. unfold clear_symbol.
  destruct (series (_timestamps c) sym); [done|]. destruct (_ <? _)%nat; [|done].
  cbn [_updates]. rewrite dom_insert_L. by apply subseteq_union_1_L, singleton_subseteq_l.
Qed.

Lemma clear_symbols_dom (cutoff : Z) (syms : list string) (c : BBOCache) :
  Forall (λ s, s ∈ dom (_updates c)) syms →
  dom (_updates (foldl (λ c s, clear_symbol cutoff s c) c syms)) = dom (_updates c).
Proof.
  revert c. induction syms as [|s syms IH]; intros c Hall; [done|].
  inversion Hall as [|? ? Hs Hrest]; subst. cbn [foldl].
  rewrite IH; [by apply clear_symbol_dom|].
  rewrite clear_symbol_dom by done. done.
Qed.

Lemma clear_old_data_dom (now max_age_ms : Z) (c : BBOCache) :
  dom (_updates (clear_old_data now max_age_ms c)) = dom (_updates c).
Proof.
  unfold clear_old_data. apply clear_symbols_dom, Forall_forall.
  intros s Hs. by apply elem_of_elements in Hs.
Qed.

(** X8.  The symbol list is sorted, names exactly the symbols that have a
    series, each once, and is not changed by [clear_old_data]: a symbol stays
    listed even when all its records were evicted. *)
Theorem get_symbol_list_spec (now max_age_ms : Z) (c : BBOCache) :
  Sorted String.le (get_symbol_list c) ∧
  NoDup (get_symbol_list c) ∧
  (∀ sym, sym ∈ get_symbol_list c ↔ is_Some (_updates c !! sym)) ∧
  get_symbol_list (clear_old_data now max_age_ms c) = get_symbol_list c.
Proof.
  unfold get_symbol_list. split; [apply (Sorted_merge_sort _)|]. split; [|split].
  - rewrite merge_sort_Permutation. apply NoDup_elements.
  - intros sym. rewrite merge_sort_Permutation, elem_of_elements. apply elem_of_dom.
  - by rewrite clear_old_data_dom.
Qed.

Lemma cache_ok_clear_old_data (σ : gmap loc bbo_dict) (now max_age_ms : Z) (c : BBOCache) :
  cache_ok σ c → cache_ok σ (clear_old_data now max_age_ms c).
Proof.
  unfold clear_old_data. generalize (elements (dom (_updates c))). intros syms.
  revert c. induction syms as [|s syms IH]; intros c Hc; [done|].
  cbn [foldl]. by apply IH, cache_ok_clear_symbol.
Qed.

Lemma clear_symbol_nothing_old (σ : gmap loc bbo_dict) (cutoff : Z) (sym : string) (c : BBOCache) :
  cache_ok σ c → Forall (λ t, cutoff ≤ t) (series (_timestamps c) sym) →
  clear_symbol cutoff sym c = c.
Proof.
  intros Hc Hall. unfold clear_symbol. destruct (Hc sym) as [_ Hs].
  destruct (series (_timestamps c) sym) as [|t tss] eqn:E; [done|].
  destruct (bisect_left_split (t :: tss) cutoff Hs) as (_ & Hlt & _).
  destruct (bisect_left (t :: tss) cutoff) as [|i]; [done|].
  cbn [take] in Hlt. inversion Hlt; subst. inversion Hall; subst. lia.
Qed.

(** X9.  In a cache filled by [add_update] calls, a clean-up that follows
    another one with the same or an earlier cutoff changes nothing at all:
    neither a series nor a latency tracker nor a counter. *)
Theorem clear_old_data_again (C : Z) (σ0 : gmap loc bbo_dict) (calls : list (Z * loc))
    (now1 age1 now2 age2 : Z) :
  now2 - age2 ≤ now1 - age1 →
  let c := (add_updates calls σ0 (BBOCache_init C)).2 in
  clear_old_data now2 age2 (clear_old_data now1 age1 c) = clear_old_data now1 age1 c.
Proof.
  intros Hcut. cbv zeta.
  pose proof (cache_ok_add_updates calls σ0 (BBOCache_init C) (cache_ok_init σ0 C)) as Hc.
  destruct (add_updates calls σ0 (BBOCache_init C)) as [σ c]. simpl in *.
  pose proof (cache_ok_clear_old_data σ now1 age1 c Hc) as Hc1.
  assert (∀ sym, Forall (λ t, now2 - age2 ≤ t)
                        (series (_timestamps (clear_old_data now1 age1 c)) sym)) as Hfresh.
  { intros sym. destruct (clear_old_data_series σ now1 age1 c sym Hc) as [_ ->].
    apply Forall_forall. intros t [Ht _]%list_elem_of_filter. lia. }
  set (c1 := clear_old_data now1 age1 c) in *.
  unfold clear_old_data at 1. generalize (elements (dom (_updates c1))). intros syms.
  induction syms as [|s syms IH]; [done|].
  cbn [foldl]. by rewrite (clear_symbol_nothing_old σ (now2 - age2) s c1 Hc1 (Hfresh s)).
Qed.

Lemma clear_old_data_again_witness :
  clear_old_data 5000 3500
    (clear_old_data 5000 3500 (add_updates sample_calls sample_store (BBOCache_init 10)).2) =
  clear_old_data 5000 3500 (add_updates sample_calls sample_store (BBOCache_init 10)).2.
Proof.
  exact (clear_old_data_again 10 sample_store sample_calls 5000 3500 5000 3500 ltac:(lia)).
Defined.

(** * Further properties of the manager *)

Lemma process_bbo_update_unfold (now : Z) (l : loc) (σ : gmap loc bbo_dict) (m : CacheManager) :
  process_bbo_update now l σ m =
  if contains_update σ (Manager (cache m) true) l then (σ, Manager (cache m) true)
  else ((add_update now l σ (cache m)).1.1, Manager (add_update now l σ (cache m)).1.2 true).
Proof.
  unfold process_bbo_update, start. destruct m as [c [|]]; simpl;
    destruct (contains_update σ (Manager c true) l); try done;
    by destruct (add_update now l σ c) as [[σ' c'] r].
Qed.

Lemma process_bbo_updates_snoc (calls : list (Z * loc)) (call : Z * loc)
    (σ : gmap loc bbo_dict) (m : CacheManager) :
  process_bbo_updates (calls ++ [call]) σ m =
  process_bbo_update call.1 call.2 (process_bbo_updates calls σ m).1
                     (process_bbo_updates calls σ m).2.
Proof. unfold process_bbo_updates. by rewrite foldl_app. Qed.

Lemma add_update_max (now : Z) (l : loc) (σ : gmap loc bbo_dict) (c : BBOCache) :
  _max_items (add_update now l σ c).1.2 = _max_items c.
Proof.
  unfold add_update. destruct (σ !! l) as [d|]; [|done].
  destruct (symbol d) as [sym|]; [|done].
  set (ts := resolve_timestamp now d). set (d' := convert_fields (set_timestamp ts d)).
  destruct (has_required_fields d'); [|done].
  destruct (insert_update_frame sym ts l (store_latency sym ts d' c)) as [Hm _].
  destruct (store_latency_frame sym ts d' c) as (_ & _ & Em).
  destruct (_insert_update sym ts l (store_latency sym ts d' c)) as [c' [|e]];
    simpl in *; congruence.
Qed.

Lemma cache_ok_process_bbo_update (now : Z) (l : loc) (σ : gmap loc bbo_dict) (m : CacheManager) :
  cache_ok σ (cache m) →
  cache_ok (process_bbo_update now l σ m).1 (cache (process_bbo_update now l σ m).2) ∧
  _max_items (cache (process_bbo_update now l σ m).2) = _max_items (cache m).
Proof.
  intros Hc. rewrite process_bbo_update_unfold.
  destruct (contains_update _ _ l); simpl; [done|].
  split; [by apply cache_ok_add_update|apply add_update_max].
Qed.

Lemma keyed_spec (σ : gmap loc bbo_dict) (l : loc) :
  keyed σ l = true ↔
  ∃ d sym ts, σ !! l = Some d ∧ symbol d = Some sym ∧ timestamp d = Some ts ∧
              sym ≠ ""%string ∧ ts ≠ 0.
Proof.
  unfold keyed. split.
  - destruct (σ !! l) as [d|]; [|done].
    destruct (symbol d) as [sym|] eqn:Esym; [|done].
    destruct (timestamp d) as [ts|] eqn:Ets; [|done].
    intros [Hs Ht]%andb_true_iff. exists d, sym, ts.
    apply negb_true_iff in Hs, Ht. apply bool_decide_eq_false in Hs. apply Z.eqb_neq in Ht.
    by repeat split.
  - intros (d & sym & ts & -> & -> & -> & Hs & Ht).
    rewrite bool_decide_eq_false_2 by done. simpl. by apply negb_true_iff, Z.eqb_neq.
Qed.

Lemma keyed_add_update (now : Z) (l l' : loc) (σ : gmap loc bbo_dict) (c : BBOCache) :
  keyed σ l' = true → keyed (add_update now l σ c).1.1 l' = true.
Proof.
  intros Hk. unfold add_update.
  destruct (σ !! l) as [d|] eqn:Ed; [|done].
  destruct (symbol d) as [s|] eqn:Es; [|done].
  assert (keyed (<[l := convert_fields (set_timestamp (resolve_timestamp now d) d)]> σ) l'
          = true) as Hk'.
  { destruct (decide (l = l')) as [<-|Hne].
    - apply keyed_spec in Hk as (d0 & sym & ts & Ed0 & Hsym & Hts & Hne & Hnz).
      rewrite Ed in Ed0. injection Ed0 as <-.
      apply keyed_spec. exists (convert_fields (set_timestamp (resolve_timestamp now d) d)), sym, ts.
      rewrite lookup_insert_eq. split; [done|]. split; [done|]. split; [|done].
      simpl. unfold resolve_timestamp. by rewrite Hts.
    - unfold keyed in *. by rewrite lookup_insert_ne. }
  destruct (has_required_fields _); [|done].
  by destruct (_insert_update _ _ _ _) as [c' [|e]].
Qed.

Lemma keyed_process_bbo_update (now : Z) (l l' : loc) (σ : gmap loc bbo_dict) (m : CacheManager) :
  keyed σ l' = true → keyed (process_bbo_update now l σ m).1 l' = true.
Proof.
  intros Hk. rewrite process_bbo_update_unfold.
  destruct (contains_update _ _ l); simpl; [done|]. by apply keyed_add_update.
Qed.

Lemma NoDup_tail {A} (l : list A) : NoDup l → NoDup (tail l).
Proof. destruct 1; [constructor|done]. Qed.

(** One admission of a keyed record keeps the index free of repetitions. *)
Lemma process_keyed_NoDup (now : Z) (l : loc) (σ : gmap loc bbo_dict) (m : CacheManager) :
  cache_ok σ (cache m) → 1 ≤ _max_items (cache m) → keyed σ l = true →
  (∀ sym, NoDup (series (_timestamps (cache m)) sym)) →
  ∀ sym, NoDup (series (_timestamps (cache (process_bbo_update now l σ m).2)) sym).
Proof.
  intros Hc Hmax (d & sym0 & ts & Ed & Hsym & Hts & Hne & Hnz)%keyed_spec Hnd sym.
  rewrite process_bbo_update_unfold.
  destruct (contains_update σ (Manager (cache m) true) l) eqn:Econt; simpl; [done|].
  assert (ts ∉ series (_timestamps (cache m)) sym0) as Hnotin.
  { intros Hin.
    apply (contains_update_spec σ (Manager (cache m) true) l d sym0 ts Hc Ed Hsym Hts Hne Hnz)
      in Hin. congruence. }
  destruct (has_required_fields (convert_fields d)) eqn:Hreq.
  - destruct (add_update_admitted now l σ (cache m) d sym0 Ed Hsym Hreq Hmax
                (cache_ok_length σ (cache m) sym0 Hc))
      as (c' & -> & _ & Et & _ & _ & _ & Hother). simpl.
    assert (resolve_timestamp now d = ts) as Hres by (unfold resolve_timestamp; by rewrite Hts).
    rewrite Hres in Et.
    destruct (decide (sym = sym0)) as [->|Hsymne]; [|destruct (Hother sym Hsymne) as [_ ->]; done].
    rewrite Et, placed_Permutation.
    assert (evicted_series (_max_items (cache m)) (series (_timestamps (cache m)) sym0)
              ⊆ series (_timestamps (cache m)) sym0 ∧
            NoDup (evicted_series (_max_items (cache m)) (series (_timestamps (cache m)) sym0)))
      as [Hsub Hnd0].
    { unfold evicted_series. destruct (_ >=? _); [|done].
      split; [intros t; apply elem_of_tail|apply NoDup_tail, Hnd]. }
    constructor; [|done]. intros Hin. apply Hnotin. by apply Hsub.
  - destruct (add_update_not_admissible now l σ (cache m)) as [-> _]; [|done].
    unfold admissible. by rewrite Ed, Hreq, andb_false_r.
Qed.

Lemma process_bbo_updates_keyed (C : Z) (σ0 : gmap loc bbo_dict) (calls : list (Z * loc)) :
  1 ≤ C → forallb (keyed σ0) calls.*2 = true →
  cache_ok (process_bbo_updates calls σ0 (CacheManager_init C)).1
           (cache (process_bbo_updates calls σ0 (CacheManager_init C)).2) ∧
  _max_items (cache (process_bbo_updates calls σ0 (CacheManager_init C)).2) = C ∧
  (∀ l, keyed σ0 l = true →
        keyed (process_bbo_updates calls σ0 (CacheManager_init C)).1 l = true) ∧
  (∀ sym, NoDup (series (_timestamps
                           (cache (process_bbo_updates calls σ0 (CacheManager_init C)).2))
                        sym)).
Proof.
  intros HC. induction calls as [|[now l] calls IH] using rev_ind; intros Hk.
  - split; [apply cache_ok_init|]. split; [done|]. split; [done|].
    intros sym. unfold series; simpl. rewrite lookup_empty. constructor.
  - rewrite fmap_app, forallb_app in Hk. apply andb_true_iff in Hk as [Hk1 Hk2].
    simpl in Hk2. rewrite andb_true_r in Hk2.
    destruct (IH Hk1) as (Hc & Hm & Hmono & Hnd). clear IH.
    rewrite process_bbo_updates_snoc. cbn [fst snd].
    destruct (process_bbo_updates calls σ0 (CacheManager_init C)) as [σ m]. simpl in *.
    destruct (cache_ok_process_bbo_update now l σ m Hc) as [Hc' Hm'].
    split; [done|]. split; [congruence|]. split.
    + intros l' Hl'. by apply keyed_process_bbo_update, Hmono.
    + apply process_keyed_NoDup; [done|lia|by apply Hmono|done].
Qed.





(** X10.  Through the manager, with a capacity of at least 1, dicts that carry a
    non-empty symbol and a non-zero timestamp of their own are stored at most
    once per (symbol, timestamp): however often and in whatever order they are
    delivered, the records of a symbol have pairwise different timestamps. *)
Theorem no_key_stored_twice (C : Z) (σ0 : gmap loc bbo_dict) (calls : list (Z * loc))
    (sym : string) :
  1 ≤ C → forallb (keyed σ0) calls.*2 = true →
  let (σ, m) := process_bbo_updates calls σ0 (CacheManager_init C) in
  NoDup (record_timestamp σ <$> get_updates (cache m) sym None None None).
Proof.
  intros HC Hk. destruct (process_bbo_updates_keyed C σ0 calls HC Hk) as (Hc & _ & _ & Hnd).
  destruct (process_bbo_updates calls σ0 (CacheManager_init C)) as [σ m]. simpl in *.
  assert (get_updates (cache m) sym None None None = series (_updates (cache m)) sym) as ->.
  { unfold get_updates, series. by destruct (_updates (cache m) !! sym). }
  destruct (series_ok_timestamps σ _ _ (Hc sym)) as [-> _].
  apply (NoDup_fmap_2 _). apply Hnd.
Qed.

Lemma no_key_stored_twice_witness :
  NoDup (record_timestamp
           (process_bbo_updates (sample_calls ++ sample_calls) sample_store
                                (CacheManager_init 10)).1 <$>
         get_updates (cache (process_bbo_updates (sample_calls ++ sample_calls) sample_store
                                                 (CacheManager_init 10)).2)
                     "BTCUSDT" None None None).
Proof.
  pose proof (no_key_stored_twice 10 sample_store (sample_calls ++ sample_calls) "BTCUSDT"
                ltac:(lia) eq_refl) as H.
  by destruct (process_bbo_updates (sample_calls ++ sample_calls) sample_store
                 (CacheManager_init 10)) as [σ m].
Defined.

(** X11.  In a manager state reached by admissions, delivering a dict with a
    non-empty symbol, a non-zero timestamp of its own and the four fields
    leaves its timestamp in the index of the symbol, and delivering it once
    more changes neither the cache nor the dict nor the manager. *)
Theorem readmission_changes_nothing (C : Z) (σ0 : gmap loc bbo_dict) (calls : list (Z * loc))
    (now1 now2 : Z) (l : loc) :
  1 ≤ C →
  keyed (process_bbo_updates calls σ0 (CacheManager_init C)).1 l = true →
  admissible (process_bbo_updates calls σ0 (CacheManager_init C)).1 l = true →
  let (σ, m) := process_bbo_updates calls σ0 (CacheManager_init C) in
  let (σ1, m1) := process_bbo_update now1 l σ m in
  process_bbo_update now2 l σ1 m1 = (σ1, m1) ∧
  ∃ sym ts, record_timestamp σ1 l = Some ts ∧ ts ∈ series (_timestamps (cache m1)) sym.
Proof.
  intros HC Hk Hadm.
  assert (cache_ok (process_bbo_updates calls σ0 (CacheManager_init C)).1
                   (cache (process_bbo_updates calls σ0 (CacheManager_init C)).2) ∧
          _max_items (cache (process_bbo_updates calls σ0 (CacheManager_init C)).2) = C)
    as [Hc Hm].
  { clear Hk Hadm. induction calls as [|[now l0] calls IH] using rev_ind.
    - split; [apply cache_ok_init|done].
    - rewrite process_bbo_updates_snoc. destruct IH as [Hc Hm].
      destruct (cache_ok_process_bbo_update now l0 _ _ Hc) as [Hc' Hm'].
      split; [done|]. cbn [fst snd] in *. congruence. }
  destruct (process_bbo_updates calls σ0 (CacheManager_init C)) as [σ m]. simpl in *.
  apply keyed_spec in Hk as (d & sym & ts & Ed & Hsym & Hts & Hne & Hnz).
  unfold admissible in Hadm. rewrite Ed in Hadm.
  apply andb_true_iff in Hadm as [_ Hreq].
  assert (∀ σ' c', cache_ok σ' c' → (∃ d', σ' !! l = Some d' ∧ symbol d' = Some sym ∧
                                           timestamp d' = Some ts) →
                   ts ∈ series (_timestamps c') sym →
                   process_bbo_update now2 l σ' (Manager c' true) = (σ', Manager c' true) ∧
                   ∃ sym ts, record_timestamp σ' l = Some ts ∧
                             ts ∈ series (_timestamps c') sym) as Hagain.
  { intros σ' c' Hc' (d' & Ed' & Hsym' & Hts') Hin. split.
    - rewrite process_bbo_update_unfold. cbn [cache].
      by rewrite (proj2 (contains_update_spec σ' (Manager c' true) l d' sym ts
                           Hc' Ed' Hsym' Hts' Hne Hnz) Hin).
    - exists sym, ts. split; [|done]. unfold record_timestamp. by rewrite Ed'. }
  rewrite process_bbo_update_unfold.
  destruct (contains_update σ (Manager (cache m) true) l) eqn:Econt.
  - apply Hagain; [done|by eauto|].
    by apply (contains_update_spec σ (Manager (cache m) true) l d sym ts).
  - pose proof (cache_ok_add_update now1 l σ (cache m) Hc) as Hc'.
    destruct (add_update_admitted now1 l σ (cache m) d sym Ed Hsym Hreq ltac:(lia)
                (cache_ok_length σ (cache m) sym Hc))
      as (c' & E & _ & Et & _).
    rewrite E in *. simpl in *.
    assert (resolve_timestamp now1 d = ts) as Hres by (unfold resolve_timestamp; by rewrite Hts).
    rewrite Hres in *.
    apply Hagain; [done| |].
    + eexists. rewrite lookup_insert_eq. split; [done|]. by split.
    + rewrite Et. eapply elem_of_Permutation_proper; [apply placed_Permutation|]. by left.
Qed.

Lemma readmission_changes_nothing_witness :
  process_bbo_update 5001 0%nat
    (process_bbo_update 5000 0%nat sample_store (CacheManager_init 10)).1
    (process_bbo_update 5000 0%nat sample_store (CacheManager_init 10)).2 =
  process_bbo_update 5000 0%nat sample_store (CacheManager_init 10).
Proof.
  pose proof (readmission_changes_nothing 10 sample_store [] 5000 5001 0%nat
                ltac:(lia) eq_refl eq_refl) as H.
  cbv zeta in H. change (process_bbo_updates [] sample_store (CacheManager_init 10))
    with (sample_store, CacheManager_init 10) in H. cbv iota beta in H.
  destruct (process_bbo_update 5000 0%nat sample_store (CacheManager_init 10)) as [σ1 m1].
  exact (proj1 H).
Defined.

(** * Further properties of the REST handler and of the message path *)

(** X12.  Called with a symbol and without [start_time] and [limit], on a cache
    filled by [add_update] calls whose capacity does not exceed 10,000,000, the
    REST handler answers with exactly the stored records of the last hour (up
    to [end_time] if one is given), provided the timestamp of each of them can
    be formatted: its default limit cuts nothing.  If one of these timestamps
    cannot be formatted it answers 500 and returns no record. *)
Theorem api_default_window (C : Z) (σ0 : gmap loc bbo_dict) (calls : list (Z * loc))
    (fmt : Z → raising string) (now : Z) (sym : string) (end_time : option Z) :
  C ≤ 10000000 → sym ≠ ""%string →
  let (σ, c) := add_updates calls σ0 (BBOCache_init C) in
  let matched :=
    filter (within σ (Some (now - 3600000)) end_time) (series (_updates c) sym) in
  (api_get_updates fmt now σ c (Some sym) Absent (from_option Given Absent end_time) Absent).2 =
  if forallb (formattable fmt σ) matched
  then Success sym (now - 3600000) end_time (length matched) matched
  else Failure 500.
Proof.
  intros HC Hsym.
  pose proof (cache_ok_add_updates calls σ0 (BBOCache_init C) (cache_ok_init σ0 C)) as Hc.
  destruct (add_updates_bounds C σ0 calls sym) as (_ & Hu & _).
  destruct (add_updates calls σ0 (BBOCache_init C)) as [σ c]. simpl in Hc, Hu.
  cbv zeta. unfold api_get_updates. rewrite bool_decide_eq_false_2 by done.
  assert (int_or None Some (from_option Given Absent end_time) = Value end_time) as ->
    by (by destruct end_time).
  cbn [int_or id].
  rewrite (get_updates_within σ c sym (Some (now - 3600000)) end_time (Some 10000000) Hc).
  2:{ intros n [= <-]. lia. }
  set (matched := filter (within σ (Some (now - 3600000)) end_time)
                         (series (_updates c) sym)).
  pose proof (length_filter (within σ (Some (now - 3600000)) end_time)
                (series (_updates c) sym)) as Hf. fold matched in Hf.
  assert (limited (Some 10000000) matched = matched) as ->.
  { unfold limited, most_recent.
    assert ((length matched - Z.to_nat 10000000%Z)%nat = 0%nat) as -> by lia.
    done. }
  pose proof (format_updates_spec fmt matched σ) as Hloop.
  destruct (format_updates fmt σ matched) as [σ' [|e]].
  - destruct Hloop as [-> _]. done.
  - destruct Hloop as [-> _]. done.
Qed.

Lemma api_default_window_witness :
  (api_get_updates sample_format 3602500
     (add_updates sample_calls sample_store (BBOCache_init 10)).1
     (add_updates sample_calls sample_store (BBOCache_init 10)).2
     (Some "BTCUSDT"%string) Absent Absent Absent).2 =
  Success "BTCUSDT" 2500 None 1 [1%nat].
Proof.
  pose proof (api_default_window 10 sample_store sample_calls sample_format 3602500
                "BTCUSDT" None ltac:(lia) ltac:(done)) as H.
  destruct (add_updates sample_calls sample_store (BBOCache_init 10)) as [σ c] eqn:E.
  cbn [fst snd]. cbv zeta in H. cbn [from_option] in H. rewrite H.
  vm_compute in E. injection E as <- <-. vm_compute. reflexivity.
Defined.


(** X14.  What reaches the clients for a book-ticker message that went through
    [_process_bbo_update] with a non-zero event time: its own symbol and
    values (the processor's symbol and ["0"] for missing ones), the event time
    as timestamp, and as latency the full difference between receive time and
    event time, however large or negative: the queue processor hands the
    latency on without applying its 10-second cap. *)
Theorem process_then_dispatch (self_symbol : string) (data : Raw.t)
    (received process_time e : Z) :
  Raw.E data = Some e → e ≠ 0 →
  format_dict process_time (_process_bbo_update self_symbol data received) =
  Wire.mk (default self_symbol (Raw.s data))
          (default "0" (Raw.b data)) (default "0" (Raw.B data))
          (default "0" (Raw.a data)) (default "0" (Raw.A data))
          e process_time (Some (received - e)).
Proof.
  intros He Hnz. unfold _process_bbo_update, truthy. rewrite He.
  replace (e =? 0) with false by (symmetry; by apply Z.eqb_neq).
  reflexivity.
Qed.

Lemma process_then_dispatch_witness :
  Wire.backendLatency
    (format_dict 20001
       (_process_bbo_update "BTCUSDT"
          (Raw.mk (Some "BTCUSDT") (Some "1") (Some "1") (Some "2") (Some "1")
                  (Some 1000) None None) 20000)) = Some 19000.
Proof.
  rewrite (process_then_dispatch "BTCUSDT"
             (Raw.mk (Some "BTCUSDT") (Some "1") (Some "1") (Some "2") (Some "1")
                     (Some 1000) None None) 20000 20001 1000 eq_refl ltac:(lia)).
  reflexivity.
Defined.

(** * Further properties of the dispatcher *)

Lemma task_done_frame (q : MessageQueueProcessor) :
  message_queue (task_done q).1 = message_queue q ∧
  throttled_message (task_done q).1 = throttled_message q ∧
  (unfinished_tasks (task_done q).1 = unfinished_tasks q - 1 ∧ (task_done q).2 = Returned ∨
   unfinished_tasks q ≤ 0 ∧ (task_done q).1 = q ∧ (task_done q).2 = Raised "ValueError").
Proof.
  unfold task_done. destruct (Z.leb_spec (unfinished_tasks q) 0); simpl.
  - split; [done|]. split; [done|]. right. done.
  - split; [done|]. split; [done|]. left. done.
Qed.

Lemma task_done_times_frame (n : nat) (q : MessageQueueProcessor) :
  message_queue (task_done_times n q).1 = message_queue q ∧
  throttled_message (task_done_times n q).1 = throttled_message q.
Proof.
  revert q. induction n as [|n IH]; intros q; [done|]. cbn [task_done_times].
  destruct (task_done_frame q) as (Hq & Ht & _).
  destruct (task_done q) as [q' [|e]]; simpl in *; [|done].
  destruct (IH q') as [-> ->]. done.
Qed.

Lemma task_done_quietly_frame (n : nat) (q : MessageQueueProcessor) :
  message_queue (task_done_quietly n q) = message_queue q ∧
  throttled_message (task_done_quietly n q) = throttled_message q.
Proof.
  unfold task_done_quietly. induction n as [|n IH]; [done|].
  change (Nat.iter (S n) (λ q, (task_done q).1) q)
    with (task_done (Nat.iter n (λ q, (task_done q).1) q)).1.
  destruct (task_done_frame (Nat.iter n (λ q, (task_done q).1) q)) as (Hq & Ht & _).
  rewrite Hq, Ht. done.
Qed.

Lemma process_message_sends_once (p t since : Z) (n : nat) (m : message)
    (q : MessageQueueProcessor) :
  message_queue (process_message p t since n m q).1.1 = message_queue q ∧
  (length (process_message p t since n m q).1.2
     + pending_slot (process_message p t since n m q).1.1 ≤ 1 + pending_slot q)%nat.
Proof.
  assert (∀ w q0, message_queue (throttle t since w q0).1 = message_queue q0 ∧
                  (length (throttle t since w q0).2 + pending_slot (throttle t since w q0).1
                     ≤ 1 + pending_slot q0)%nat) as Hthrottle.
  { intros w q0. unfold throttle, pending_slot. destruct (_ >=? _); simpl; split; try done; lia. }
  assert (∀ w q0,
    message_queue (let '(q1, out) := throttle t since w q0 in
                   let '(q2, r) := task_done q1 in (q2, out, r)).1.1 = message_queue q0 ∧
    (length (let '(q1, out) := throttle t since w q0 in
             let '(q2, r) := task_done q1 in (q2, out, r)).1.2
       + pending_slot (let '(q1, out) := throttle t since w q0 in
                       let '(q2, r) := task_done q1 in (q2, out, r)).1.1
       ≤ 1 + pending_slot q0)%nat) as Hdict.
  { intros w q0. destruct (Hthrottle w q0) as [Hq Hlen].
    destruct (throttle t since w q0) as [q1 out]. simpl in *.
    destruct (task_done_frame q1) as (Hq' & Ht' & _).
    destruct (task_done q1) as [q2 r]. simpl in *.
    unfold pending_slot in *. rewrite Hq', Ht'. done. }
  assert (message_queue (let '(q1, r) := task_done q in (q1, @nil emit_event, r)).1.1
            = message_queue q ∧
          (length (let '(q1, r) := task_done q in (q1, @nil emit_event, r)).1.2
             + pending_slot (let '(q1, r) := task_done q in (q1, @nil emit_event, r)).1.1
             ≤ 1 + pending_slot q)%nat) as Hother.
  { destruct (task_done_frame q) as (Hq' & Ht' & _).
    destruct (task_done q) as [q1 r]. simpl in *. unfold pending_slot. rewrite Hq', Ht'.
    split; [done|lia]. }
  destruct m as [event_type [data|] | d | r |]; cbn [process_message];
    [|exact Hother|apply Hdict|apply Hdict|exact Hother].
  case_bool_decide; [|exact Hother].
  set (q0 := MQP (message_queue q) (unfinished_tasks q) (last_message_time q)
                 (throttle_interval q) (throttled_message q) (Some (Preformatted data))).
  destruct (task_done_times_frame n q0) as [Hq' Ht'].
  destruct (task_done_times n q0) as [q1 r]. simpl in *.
  unfold pending_slot. rewrite Hq', Ht'. split; [done|lia].
Qed.

Lemma process_batch_sends_once (p t since : Z) (n : nat) (msgs : list message)
    (q : MessageQueueProcessor) :
  message_queue (process_batch p t since n msgs q).1.1 = message_queue q ∧
  (length (process_batch p t since n msgs q).1.2
     + pending_slot (process_batch p t since n msgs q).1.1
     ≤ length msgs + pending_slot q)%nat.
Proof.
  revert q. induction msgs as [|m msgs IH]; intros q; [simpl; split; [done|lia]|].
  cbn [process_batch]. destruct (process_message_sends_once p t since n m q) as [Hq Hlen].
  destruct (process_message p t since n m q) as [[q1 out1] [|e]]; simpl in *.
  - destruct (IH q1) as [Hq' Hlen'].
    destruct (process_batch p t since n msgs q1) as [[q2 out2] r]. simpl in *.
    rewrite length_app. split; [congruence|lia].
  - split; [done|lia].
Qed.

Lemma turn_sends_once (p t t' : Z) (q : MessageQueueProcessor) :
  (length (process_message_queue_turn p t t' q).2
     + pending_slot (process_message_queue_turn p t t' q).1
     + length (message_queue (process_message_queue_turn p t t' q).1)
     ≤ pending_slot q + length (message_queue q))%nat.
Proof.
  unfold process_message_queue_turn.
  destruct (message_queue q) as [|m0 queue] eqn:Eq; [cbn [fst snd length]; rewrite Eq; simpl; lia|].
  cbv zeta.
  set (batch := take batch_size (m0 :: queue)).
  set (q0 := MQP (drop batch_size (m0 :: queue)) (unfinished_tasks q) (last_message_time q)
                 (throttle_interval q) (throttled_message q) (latest_data q)).
  destruct (process_batch_sends_once p t (t - last_message_time q0) (length batch) batch q0)
    as [Hq Hlen].
  assert (length batch + length (drop batch_size (m0 :: queue)) = length (m0 :: queue))%nat
    as Hsplit.
  { unfold batch. rewrite <- length_app, take_drop. done. }
  assert (pending_slot q0 = pending_slot q) as Hp by done.
  assert (message_queue q0 = drop batch_size (m0 :: queue)) as Hq0 by done.
  clearbody q0 batch.
  destruct (process_batch p t (t - last_message_time q0) (length batch) batch q0)
    as [[q1 out] [|e]]; cbn [fst snd] in *.
  - unfold flush_throttled, pending_slot in *.
    destruct (throttled_message q1) as [w|] eqn:Ew.
    + destruct (_ >=? _); cbn [fst snd message_queue throttled_message];
        rewrite ?Ew, ?length_app, Hq, Hq0; cbn [length] in *; lia.
    + cbn [fst snd]. rewrite Ew, app_nil_r, Hq, Hq0. lia.
  - destruct (task_done_quietly_frame (length batch) q1) as [Hq' Ht'].
    unfold pending_slot in *. rewrite Hq', Ht', Hq, Hq0. lia.
Qed.

Lemma run_snoc (steps : list step) (e : step) (q : MessageQueueProcessor) :
  run (steps ++ [e]) q = run_step (run steps q) e.
Proof. unfold run. by rewrite foldl_app. Qed.

(** X15.  The dispatcher sends at most one message per record it has drained,
    whatever is enqueued and however the turns fall: at any moment the number
    of sends, plus the pending throttled slot, plus the records still queued,
    does not exceed the number of records enqueued; nothing is sent twice. *)
Theorem at_most_one_send_per_record (steps : list step) :
  let (q, out) := run steps MessageQueueProcessor_init in
  (length out + pending_slot q + length (message_queue q) ≤ enqueued steps)%nat.
Proof.
  induction steps as [|e steps IH] using rev_ind; [simpl; lia|].
  rewrite run_snoc. unfold enqueued in *. rewrite filter_app, length_app.
  destruct (run steps MessageQueueProcessor_init) as [q out].
  destruct e as [m|p t t']; cbn [run_step fst snd].
  - rewrite filter_cons_True by exact I. unfold broadcast_message, pending_slot in *. simpl.
    rewrite length_app. simpl. lia.
  - rewrite filter_cons_False by (simpl; exact id).
    pose proof (turn_sends_once p t t' q) as Hturn.
    destruct (process_message_queue_turn p t t' q) as [q' out']. simpl in *.
    rewrite length_app. lia.
Qed.

Lemma process_dict_unthrottled (p t since : Z) (n : nat) (m : message)
    (q : MessageQueueProcessor) :
  is_dict m = true → 0 < unfinished_tasks q → throttle_interval q ≤ since →
  ∃ w, formatted p m = Some w ∧
    process_message p t since n m q =
      (MQP (message_queue q) (unfinished_tasks q - 1) t
           (throttle_interval q) None (Some (Formatted w)),
       [("bbo_update"%string, Formatted w)], Returned).
Proof.
  intros Hd Hu Hs.
  assert ((since >=? throttle_interval q) = true) as Hge by (rewrite Z.geb_leb; apply Z.leb_le; lia).
  assert ((unfinished_tasks q <=? 0) = false) as Hle by (apply Z.leb_gt; lia).
  destruct m as [| d | r |]; try discriminate Hd; eexists; (split; [reflexivity|]);
    unfold process_message, throttle, task_done; rewrite Hge; simpl; by rewrite Hle.
Qed.

Lemma emits_cons (p : Z) (m : message) (w : Wire.t) (rest : list message) :
  formatted p m = Some w →
  emits p (m :: rest) = ("bbo_update"%string, Formatted w) :: emits p rest.
Proof. intros H. unfold emits. simpl. by rewrite H. Qed.

Lemma process_batch_unthrottled (p t since : Z) (n : nat) (msgs : list message)
    (q : MessageQueueProcessor) :
  msgs ≠ [] → forallb is_dict msgs = true →
  Z.of_nat (length msgs) ≤ unfinished_tasks q → throttle_interval q ≤ since →
  ∃ m w, last msgs = Some m ∧ formatted p m = Some w ∧
    length (emits p msgs) = length msgs ∧
    process_batch p t since n msgs q =
      (MQP (message_queue q) (unfinished_tasks q - Z.of_nat (length msgs))
           t (throttle_interval q) None (Some (Formatted w)),
       emits p msgs, Returned).
Proof.
  revert q. induction msgs as [|m rest IH]; intros q Hne Hall Hu Hs; [done|].
  cbn [forallb] in Hall. apply andb_true_iff in Hall as [Hm Hrest].
  cbn [length] in Hu.
  destruct (process_dict_unthrottled p t since n m q Hm ltac:(lia) Hs) as (w & Hw & E).
  cbn [process_batch]. rewrite E, (emits_cons p m w rest Hw).
  destruct rest as [|m' rest'].
  - exists m, w. split; [done|]. split; [done|]. split; [done|]. simpl. do 3 f_equal; lia.
  - destruct (IH (MQP (message_queue q) (unfinished_tasks q - 1) t
                      (throttle_interval q) None (Some (Formatted w))))
      as (m_last & w_last & Hlast & Hw_last & Hlen & ->);
      [done|done|cbn [length] in *; simpl; lia|done|].
    exists m_last, w_last. split; [done|]. split; [done|].
    split; [cbn [length]; f_equal; exact Hlen|].
    simpl. do 3 f_equal; cbn [length]; lia.
Qed.



Lemma process_batch_dicts (p t since : Z) (n : nat) (msgs : list message)
    (q : MessageQueueProcessor) :
  forallb is_dict msgs = true → Z.of_nat (length msgs) ≤ unfinished_tasks q →
  ∃ q' out, process_batch p t since n msgs q = (q', out, Returned) ∧
    message_queue q' = message_queue q ∧
    unfinished_tasks q' = unfinished_tasks q - Z.of_nat (length msgs).
Proof.
  intros Hall Hu. destruct msgs as [|m0 msgs].
  { exists q, []; simpl. split; [done|]. split; [done|lia]. }
  destruct (Z.lt_ge_cases since (throttle_interval q)) as [Hs|Hs].
  - destruct (process_batch_throttled p t since n (m0 :: msgs) q) as (m & w & _ & _ & ->);
      [done|done|done|done|].
    eexists _, _. split; [done|]. done.
  - destruct (process_batch_unthrottled p t since n (m0 :: msgs) q) as (m & w & _ & _ & _ & ->);
      [done|done|done|done|].
    eexists _, _. split; [done|]. done.
Qed.

Lemma flush_throttled_frame (t : Z) (q : MessageQueueProcessor) :
  message_queue (flush_throttled t q).1 = message_queue q ∧
  unfinished_tasks (flush_throttled t q).1 = unfinished_tasks q.
Proof.
  unfold flush_throttled. destruct (throttled_message q); [|done].
  by destruct (_ >=? _).
Qed.

Lemma turn_counter (p t t' : Z) (q : MessageQueueProcessor) :
  forallb is_dict (message_queue q) = true →
  unfinished_tasks q = Z.of_nat (length (message_queue q)) →
  forallb is_dict (message_queue (process_message_queue_turn p t t' q).1) = true ∧
  unfinished_tasks (process_message_queue_turn p t t' q).1
    = Z.of_nat (length (message_queue (process_message_queue_turn p t t' q).1)).
Proof.
  intros Hall Hu. unfold process_message_queue_turn.
  destruct (message_queue q) as [|m0 queue] eqn:Eq; [cbn [fst]; by rewrite Eq|].
  cbv zeta.
  set (batch := take batch_size (m0 :: queue)).
  set (q0 := MQP (drop batch_size (m0 :: queue)) (unfinished_tasks q) (last_message_time q)
                 (throttle_interval q) (throttled_message q) (latest_data q)).
  assert (length batch + length (drop batch_size (m0 :: queue)) = length (m0 :: queue))%nat
    as Hsplit.
  { unfold batch. rewrite <- length_app, take_drop. done. }
  assert (forallb is_dict batch = true ∧
          forallb is_dict (drop batch_size (m0 :: queue)) = true) as [Hb Hd].
  { rewrite <- (take_drop batch_size (m0 :: queue)), forallb_app in Hall.
    by apply andb_true_iff in Hall. }
  destruct (process_batch_dicts p t (t - last_message_time q0) (length batch) batch q0)
    as (q1 & out & -> & Hq1 & Hu1); [done|cbn [unfinished_tasks q0]; lia|].
  destruct (flush_throttled_frame t' q1) as [Hqf Huf].
  destruct (flush_throttled t' q1) as [q2 out2]. cbn [fst snd] in *.
  rewrite Hqf, Huf, Hq1, Hu1. cbn [message_queue unfinished_tasks q0].
  split; [done|lia].
Qed.

(** X17.  As long as producers enqueue dicts only, the queue's count of
    unfinished tasks is at every moment the number of records still queued: the
    worker marks each drained record as done exactly once, so [task_done] never
    raises and a [join] on the queue returns exactly when it is empty. *)
Theorem counter_tracks_queue (steps : list step) :
  enqueues_dicts steps = true →
  unfinished_tasks (run steps MessageQueueProcessor_init).1
    = Z.of_nat (length (message_queue (run steps MessageQueueProcessor_init).1)).
Proof.
  intros Hall.
  enough (forallb is_dict (message_queue (run steps MessageQueueProcessor_init).1) = true ∧
          unfinished_tasks (run steps MessageQueueProcessor_init).1
            = Z.of_nat (length (message_queue (run steps MessageQueueProcessor_init).1)))
    as [_ H] by exact H.
  induction steps as [|e steps IH] using rev_ind; [done|].
  unfold enqueues_dicts in *. rewrite forallb_app in Hall.
  apply andb_true_iff in Hall as [Hsteps He]. cbn [forallb] in He.
  rewrite andb_true_r in He.
  rewrite run_snoc. destruct (IH Hsteps) as [Hd Hu].
  destruct (run steps MessageQueueProcessor_init) as [q out]. cbn [fst snd] in *.
  destruct e as [m|p t t']; cbn [run_step fst snd].
  - unfold broadcast_message. cbn [message_queue unfinished_tasks].
    rewrite forallb_app, length_app, Hd, Hu. cbn [forallb length]. rewrite He.
    split; [done|lia].
  - pose proof (turn_counter p t t' q Hd Hu) as Hturn.
    destruct (process_message_queue_turn p t t' q) as [q' out']. exact Hturn.
Qed.

Lemma counter_tracks_queue_witness :
  unfinished_tasks (run burst_schedule MessageQueueProcessor_init).1
    = Z.of_nat (length (message_queue (run burst_schedule MessageQueueProcessor_init).1)).
Proof. exact (counter_tracks_queue burst_schedule eq_refl). Defined.




Lemma task_done_times_spec (n : nat) (q : MessageQueueProcessor) :
  0 ≤ unfinished_tasks q →
  task_done_times n q =
    if Z.of_nat n <=? unfinished_tasks q
    then (MQP (message_queue q) (unfinished_tasks q - Z.of_nat n) (last_message_time q)
              (throttle_interval q) (throttled_message q) (latest_data q), Returned)
    else (MQP (message_queue q) 0 (last_message_time q)
              (throttle_interval q) (throttled_message q) (latest_data q),
          Raised "ValueError").
Proof.
  revert q. induction n as [|n IH]; intros q Hu.
  - cbn [task_done_times]. destruct (Z.leb_spec (Z.of_nat 0) (unfinished_tasks q)); [|lia].
    destruct q; cbn in *. do 2 f_equal. lia.
  - cbn [task_done_times]. unfold task_done.
    destruct (Z.leb_spec (unfinished_tasks q) 0) as [Hz|Hpos].
    + destruct (Z.leb_spec (Z.of_nat (S n)) (unfinished_tasks q)); [lia|].
      destruct q; cbn in *. do 2 f_equal. lia.
    + rewrite IH by (cbn; lia). cbn [message_queue unfinished_tasks last_message_time
        throttle_interval throttled_message latest_data].
      destruct (Z.leb_spec (Z.of_nat n) (unfinished_tasks q - 1)),
               (Z.leb_spec (Z.of_nat (S n)) (unfinished_tasks q)); try lia; [|done].
      do 2 f_equal. lia.
Qed.

Lemma process_message_preformatted (p t since : Z) (n : nat) (d : bbo_dict)
    (q : MessageQueueProcessor) :
  0 ≤ unfinished_tasks q →
  process_message p t since n (preformatted d) q =
    if Z.of_nat n <=? unfinished_tasks q
    then (MQP (message_queue q) (unfinished_tasks q - Z.of_nat n) (last_message_time q)
              (throttle_interval q) (throttled_message q) (Some (Preformatted d)),
          [("bbo_update"%string, Preformatted d)], Returned)
    else (MQP (message_queue q) 0 (last_message_time q)
              (throttle_interval q) (throttled_message q) (Some (Preformatted d)),
          [("bbo_update"%string, Preformatted d)], Raised "ValueError").
Proof.
  intros Hu. unfold preformatted. cbn [process_message].
  rewrite bool_decide_eq_true_2 by done.
  rewrite task_done_times_spec by done.
  cbn [message_queue unfinished_tasks last_message_time throttle_interval throttled_message
       latest_data].
  by destruct (_ <=? _).
Qed.

Lemma process_batch_preformatted (p t since : Z) (n : nat) (ds : list bbo_dict)
    (q : MessageQueueProcessor) :
  (1 ≤ n)%nat → 0 ≤ unfinished_tasks q →
  message_queue (process_batch p t since n (preformatted <$> ds) q).1.1 = message_queue q ∧
  throttled_message (process_batch p t since n (preformatted <$> ds) q).1.1
    = throttled_message q ∧
  0 ≤ unfinished_tasks (process_batch p t since n (preformatted <$> ds) q).1.1 ∧
  (process_batch p t since n (preformatted <$> ds) q).1.2 =
    (λ d, ("bbo_update"%string, Preformatted d)) <$>
      take (Z.to_nat (unfinished_tasks q / Z.of_nat n) + 1) ds.
Proof.
  intros Hn. revert q. induction ds as [|d ds IH]; intros q Hu.
  { cbn. rewrite take_nil. done. }
  rewrite fmap_cons. cbn [process_batch].
  rewrite process_message_preformatted by done.
  rewrite Nat.add_1_r. cbn [take].
  destruct (Z.leb_spec (Z.of_nat n) (unfinished_tasks q)) as [Hle|Hlt].
  - set (q1 := MQP _ _ _ _ _ _).
    destruct (IH q1) as (Hq & Ht & Hu' & Hout); [cbn; lia|].
    destruct (process_batch p t since n (preformatted <$> ds) q1) as [[q2 out] r].
    cbn [fst snd] in *. split; [done|]. split; [done|]. split; [done|].
    rewrite Hout. cbn [app]. cbn [unfinished_tasks q1].
    replace (Z.to_nat (unfinished_tasks q / Z.of_nat n))
      with (Z.to_nat ((unfinished_tasks q - Z.of_nat n) / Z.of_nat n) + 1)%nat.
    { rewrite fmap_cons. done. }
    replace (unfinished_tasks q) with ((unfinished_tasks q - Z.of_nat n) + 1 * Z.of_nat n) at 2
      by lia.
    rewrite Z.div_add by lia.
    assert (0 ≤ (unfinished_tasks q - Z.of_nat n) / Z.of_nat n) by (apply Z.div_pos; lia).
    lia.
  - cbn [fst snd message_queue throttled_message unfinished_tasks].
    split; [done|]. split; [done|]. split; [done|].
    rewrite Z.div_small by lia. cbn [Z.to_nat take]. by rewrite take_0.
Qed.

(** X18.  A batch of [('bbo_update', dict)] pairs, the form [BBOProcessor]
    enqueues, is not throttled, and each pair sent marks the whole batch as
    done: from a batch of [n] pairs drained with [u] unfinished tasks the first
    [u / n + 1] pairs are sent and the others are dropped, taken from the queue
    and never sent.  With the counter in step with the queue ([u = n]) that is
    two pairs out of every batch. *)
Theorem preformatted_batch_sends_a_prefix (ds : list bbo_dict) (u : Z)
    (process_time current_time current_time' : Z) (q : MessageQueueProcessor) :
  message_queue q = preformatted <$> ds → ds ≠ [] →
  unfinished_tasks q = u → 0 ≤ u → throttled_message q = None →
  let n := length (take batch_size ds) in
  let '(q', out) := process_message_queue_turn process_time current_time current_time' q in
  out = (λ d, ("bbo_update"%string, Preformatted d)) <$>
          take (Z.to_nat (u / Z.of_nat n) + 1) (take batch_size ds) ∧
  message_queue q' = preformatted <$> drop batch_size ds.
Proof.
  intros Hq Hne Hu Hpos Hslot. cbv zeta. unfold process_message_queue_turn. rewrite Hq.
  destruct ds as [|d0 ds]; [done|].
  change (preformatted <$> d0 :: ds) with (preformatted d0 :: (preformatted <$> ds)) at 1.
  cbv zeta. rewrite <- fmap_take, <- fmap_drop, length_fmap.
  set (batch := take batch_size (d0 :: ds)).
  set (q0 := MQP _ _ _ _ _ _).
  destruct (process_batch_preformatted process_time current_time
              (current_time - last_message_time q0) (length batch) batch q0)
    as (Hq' & Ht' & _ & Hout); [cbn; lia|cbn; lia|].
  cbn [unfinished_tasks q0] in Hout. rewrite Hu in Hout.
  cbn [message_queue throttled_message q0] in Hq', Ht'.
  destruct (process_batch process_time current_time (current_time - last_message_time q0)
              (length batch) (preformatted <$> batch) q0) as [[q1 out] [|e]];
    cbn [fst snd] in *.
  - unfold flush_throttled. rewrite Ht', Hslot. by rewrite app_nil_r.
  - destruct (task_done_quietly_frame (length batch) q1) as [-> _]. done.
Qed.

Lemma preformatted_batch_sends_a_prefix_witness :
  (process_message_queue_turn 1000 1000 1000
     (MQP (preformatted <$> [tick "BTCUSDT" 1000; tick "BTCUSDT" 2000; tick "BTCUSDT" 3000]) 3 0 100 None None)).2
  = [("bbo_update"%string, Preformatted (tick "BTCUSDT" 1000));
     ("bbo_update"%string, Preformatted (tick "BTCUSDT" 2000))].
Proof.
  pose proof (preformatted_batch_sends_a_prefix [tick "BTCUSDT" 1000; tick "BTCUSDT" 2000; tick "BTCUSDT" 3000] 3
                1000 1000 1000
                (MQP (preformatted <$> [tick "BTCUSDT" 1000; tick "BTCUSDT" 2000; tick "BTCUSDT" 3000]) 3 0 100 None None)
                eq_refl ltac:(done) eq_refl ltac:(lia) eq_refl) as H.
  cbv zeta in H.
  destruct (process_message_queue_turn 1000 1000 1000
     (MQP (preformatted <$> [tick "BTCUSDT" 1000; tick "BTCUSDT" 2000; tick "BTCUSDT" 3000]) 3 0 100 None None)) as [q' out].
  destruct H as [-> _]. reflexivity.
Defined.

(** * Further properties of the statistics *)

Lemma total_updates_bound (C : nat) (m : gmap string (list loc)) :
  (∀ sym, length (series m sym) ≤ C)%nat →
  (map_fold (λ _ ups n, (length ups + n)%nat) 0%nat m ≤ size m * C)%nat ∧
  ∀ sym, (length (series m sym) ≤ map_fold (λ _ ups n, (length ups + n)%nat) 0%nat m)%nat.
Proof.
  apply (map_fold_weak_ind
    (λ (r : nat) (m : gmap string (list loc)),
       (∀ sym, length (series m sym) ≤ C)%nat →
       (r ≤ size m * C)%nat ∧ ∀ sym, (length (series m sym) ≤ r)%nat)).
  - intros _. rewrite map_size_empty. split; [lia|].
    intros sym. unfold series. rewrite lookup_empty. simpl. lia.
  - intros i x m0 r Hi IH Hb.
    assert (∀ sym, sym ≠ i → series (<[i:=x]> m0) sym = series m0 sym) as Hne.
    { intros sym Hsym. by apply series_insert_ne. }
    assert (series m0 i = []) as Hnil by (unfold series; by rewrite Hi).
    destruct IH as [IH1 IH2].
    { intros sym. destruct (decide (sym = i)) as [->|Hsym].
      - rewrite Hnil. simpl. lia.
      - rewrite <- Hne by done. apply Hb. }
    pose proof (Hb i) as Hx. rewrite series_insert_eq in Hx.
    rewrite map_size_insert_None by done. split; [lia|].
    intros sym. destruct (decide (sym = i)) as [->|Hsym].
    + rewrite series_insert_eq. lia.
    + rewrite Hne by done. specialize (IH2 sym). lia.
Qed.

(** X19.  The figures of [get_cache_stats] of a cache filled by [add_update]
    calls fit together: [total_updates] is at most [total_symbols] times the
    capacity and at least each entry of [updates_per_symbol], and
    [total_symbols] is the length of the symbol list. *)
Theorem cache_stats_bounds (C : Z) (σ0 : gmap loc bbo_dict) (calls : list (Z * loc)) :
  let c := (add_updates calls σ0 (BBOCache_init C)).2 in
  (total_updates c ≤ total_symbols c * Z.to_nat C)%nat ∧
  (∀ sym, updates_per_symbol c sym ≤ total_updates c)%nat ∧
  total_symbols c = length (get_symbol_list c).
Proof.
  cbv zeta. set (c := (add_updates calls σ0 (BBOCache_init C)).2).
  destruct (total_updates_bound (Z.to_nat C) (_updates c)) as [H1 H2].
  { intros sym. by destruct (add_updates_bounds C σ0 calls sym) as (_ & Hu & _). }
  split; [exact H1|]. split; [exact H2|].
  unfold total_symbols, get_symbol_list.
  rewrite merge_sort_Permutation. rewrite <- size_dom. done.
Qed.

Lemma foldl_min_spec (x : Z) (xs : list Z) :
  foldl Z.min x xs ∈ x :: xs ∧ ∀ y, y ∈ x :: xs → foldl Z.min x xs ≤ y.
Proof.
  revert x. induction xs as [|z xs IH]; intros x.
  - cbn. split; [by left|]. intros y ->%list_elem_of_singleton. lia.
  - cbn [foldl]. destruct (IH (Z.min x z)) as [Hin Hle]. split.
    + apply elem_of_cons in Hin as [->|Hin].
      * destruct (Z.min_spec x z) as [[_ ->]|[_ ->]]; [by left|by right; left].
      * by do 2 right.
    + intros y Hy. rewrite !elem_of_cons in Hy.
      pose proof (Hle (Z.min x z) ltac:(by left)) as Hm.
      destruct Hy as [->|[->|Hy]]; [lia|lia|].
      apply Hle. by right.
Qed.

Lemma foldl_max_spec (x : Z) (xs : list Z) :
  foldl Z.max x xs ∈ x :: xs ∧ ∀ y, y ∈ x :: xs → y ≤ foldl Z.max x xs.
Proof.
  revert x. induction xs as [|z xs IH]; intros x.
  - cbn. split; [by left|]. intros y ->%list_elem_of_singleton. lia.
  - cbn [foldl]. destruct (IH (Z.max x z)) as [Hin Hle]. split.
    + apply elem_of_cons in Hin as [->|Hin].
      * destruct (Z.max_spec x z) as [[_ ->]|[_ ->]]; [by right; left|by left].
      * by do 2 right.
    + intros y Hy. rewrite !elem_of_cons in Hy.
      pose proof (Hle (Z.max x z) ltac:(by left)) as Hm.
      destruct Hy as [->|[->|Hy]]; [lia|lia|].
      apply Hle. by right.
Qed.

Lemma mapM_id_elem_of (l : list (option Z)) (k : list Z) :
  mapM id l = Some k → l = Some <$> k.
Proof.
  intros H%mapM_Some_1. induction H as [|x y l k Hxy _ IH]; [done|].
  simpl in Hxy. by rewrite Hxy, IH.
Qed.

(** X20.  What [get_latency_stats] reports about the tracker samples of the
    symbol whose timestamp lies within the bounds given: [count] is their
    number; when there are some, [min] and [max] are samples and every sample
    lies between them; when there are none, all figures are 0; and the call
    raises [TypeError] exactly when one of the selected samples is [None]. *)
Theorem get_latency_stats_spec (c : BBOCache) (sym : string) (start_time end_time : option Z) :
  let samples := latency_samples (series (_latency_stats c) sym) start_time end_time in
  match get_latency_stats c sym start_time end_time with
  | Summary min_latency max_latency count =>
      count = length samples ∧ (None ∉ samples) ∧
      match samples with
      | [] => min_latency = 0 ∧ max_latency = 0
      | _ :: _ =>
          Some min_latency ∈ samples ∧ Some max_latency ∈ samples ∧
          ∀ x, Some x ∈ samples → min_latency ≤ x ≤ max_latency
      end
  | SummaryRaised exn => exn = "TypeError"%string ∧ None ∈ samples
  end.
Proof.
  cbv zeta. unfold get_latency_stats, series.
  destruct (_latency_stats c !! sym) as [stats|]; cbn [default from_option id].
  2:{ unfold latency_samples. rewrite filter_nil. cbn [fmap list_fmap length].
      split; [done|]. split; [apply not_elem_of_nil|done]. }
  destruct (latency_samples stats start_time end_time) as [|sample rest] eqn:Es.
  { split; [done|]. split; [apply not_elem_of_nil|done]. }
  destruct (mapM id (sample :: rest)) as [k|] eqn:Ek.
  - apply mapM_id_elem_of in Ek. destruct k as [|x xs]; [done|].
    rewrite Ek. split; [by rewrite length_fmap|].
    split.
    { intros (y & Hy & _)%list_elem_of_fmap. done. }
    destruct (foldl_min_spec x xs) as [Hmin Hmin'].
    destruct (foldl_max_spec x xs) as [Hmax Hmax'].
    rewrite fmap_cons.
    change (Some x :: (Some <$> xs)) with (Some <$> x :: xs).
    split; [by apply list_elem_of_fmap_2|]. split; [by apply list_elem_of_fmap_2|].
    intros y (y' & [= ->] & Hy)%list_elem_of_fmap. split; [by apply Hmin'|by apply Hmax'].
  - split; [done|]. apply mapM_None_1 in Ek. apply Exists_exists in Ek as (y & Hy & Hnone).
    simpl in Hnone. by subst y.
Qed.

(** X21.  [add_update] stores the value of a [backendLatency] key without
    looking at it: after a dict that carries the key with the value [None] was
    admitted (capacity at least 1), [get_latency_stats] raises [TypeError] for
    the symbol on every range that contains the record's timestamp, the
    unbounded one included. *)
Theorem unmeasured_latency_breaks_stats (now : Z) (l : loc) (σ : gmap loc bbo_dict)
    (c : BBOCache) (d : bbo_dict) (sym : string) (start_time end_time : option Z) :
  σ !! l = Some d → symbol d = Some sym →
  has_required_fields (convert_fields d) = true →
  1 ≤ _max_items c →
  length (series (_updates c) sym) = length (series (_timestamps c) sym) →
  backendLatency d = Some None →
  sample_in_range start_time end_time (resolve_timestamp now d) = true →
  (add_update now l σ c).2 = Returned ∧
  get_latency_stats (add_update now l σ c).1.2 sym start_time end_time
    = SummaryRaised "TypeError".
Proof.
  intros Ed Hsym Hreq Hmax Hlen Hb Hin.
  destruct (add_update_admitted now l σ c d sym Ed Hsym Hreq Hmax Hlen)
    as (c' & -> & _ & _ & _ & _ & Hlat & _).
  cbn [fst snd]. split; [done|].
  pose proof (store_latency_last sym (resolve_timestamp now d)
                (convert_fields (set_timestamp (resolve_timestamp now d) d)) None c Hmax Hb)
    as Hlast.
  rewrite <- Hlat in Hlast. apply last_Some_elem_of in Hlast.
  unfold get_latency_stats. unfold series in Hlast.
  destruct (_latency_stats c' !! sym) as [stats|]; cbn [default from_option id] in Hlast;
    [|by apply elem_of_nil in Hlast].
  assert (None ∈ latency_samples stats start_time end_time) as Hnone.
  { unfold latency_samples.
    apply (list_elem_of_fmap_2 snd _ (resolve_timestamp now d, None)).
    apply list_elem_of_filter. by split. }
  destruct (latency_samples stats start_time end_time) as [|sample rest];
    [by apply elem_of_nil in Hnone|].
  rewrite (mapM_None_2 id (sample :: rest)); [done|].
  apply Exists_exists. by exists None.
Qed.

Lemma unmeasured_latency_breaks_stats_witness :
  get_latency_stats
    (add_update 5000 0%nat {[ 0%nat := unmeasured_tick "BTCUSDT" 1000 ]} (BBOCache_init 10)).1.2
    "BTCUSDT" None None = SummaryRaised "TypeError".
Proof.
  exact (proj2 (unmeasured_latency_breaks_stats 5000 0%nat
                  {[ 0%nat := unmeasured_tick "BTCUSDT" 1000 ]} (BBOCache_init 10)
                  (unmeasured_tick "BTCUSDT" 1000) "BTCUSDT" None None
                  eq_refl eq_refl eq_refl ltac:(vm_compute; discriminate) eq_refl
                  eq_refl eq_refl)).
Defined.
